(** * Commit tracker: a shallow embedding of the post-commit hook scripts

    The repository holds three near-identical copies of one Node script:

    - [Tracker]      : src/script/commit-tracker.js        (one global history file)
    - [BranchMain]   : first script of src/unnamed/part_000 (per-branch file, plus a
                       "main" file; [validateEntry], [sanitizeBranchName])
    - [GlobalBranch] : second script of src/unnamed/part_000 (global file plus a
                       per-branch file named with the raw branch)

    The scripts are glue around external processes.  They are embedded as
    pure functions of

    - a [World]  : what the external commands answer ([sh]), what report
                   the test runner leaves behind, which files can be written,
    - an [Engine]: the parts of the JavaScript runtime whose grammar is not
                   spelled out here (string-to-number, date parsing),
    - a file store [gmap string content] for the history files.

    Exceptions are values of [result]; every [try]/[catch] of the source is
    an explicit [match].

    Idealisations, all of them stated where they are made: strings are
    sequences of 8-bit characters; the numbers read from JSON are exact
    rationals, and the arithmetic of the coverage rounds each result to
    binary64 ([fl]); the counts of lines are natural numbers, which a
    JavaScript number holds without rounding up to 2^53; a file is
    identified with what [JSON.parse] makes of its text; whether a file can
    be written is asked of the world. *)

From Stdlib Require Import ZArith QArith Qround Qabs Qpower String Ascii List Bool Lia.
From Stdlib Require Import Permutation Sorted Lqa DecimalString DecimalNat DecimalFacts.
From Stdlib Require PrimFloat FloatOps SpecFloat Uint63.
From stdpp Require Import gmap strings.

Set Warnings "-register-all".

Local Open Scope list_scope.
Local Open Scope string_scope.

(** ** Strings *)

Module Str.

(** [s.startsWith(p)] *)
Fixpoint starts_with (p s : string) : bool :=
  match p, s with
  | EmptyString, _ => true
  | String a p', String b s' => Ascii.eqb a b && starts_with p' s'
  | String _ _, EmptyString => false
  end.

(** [s.endsWith(suf)]; also [/suf$/.test(s)] for a literal [suf]:
    some tail of [s] is [suf]. *)
Fixpoint ends_with (suf s : string) : bool :=
  String.eqb s suf ||
  match s with
  | EmptyString => false
  | String _ s' => ends_with suf s'
  end.

(** [s.replace(/suf$/, empty)] for a literal [suf]: drop it when it ends [s]. *)
Fixpoint strip_suffix (suf s : string) : string :=
  if String.eqb s suf then EmptyString
  else match s with
       | EmptyString => EmptyString
       | String c s' => String c (strip_suffix suf s')
       end.

(** Longest prefix of characters satisfying [p], and the rest. *)
Fixpoint span (p : ascii -> bool) (s : string) : string * string :=
  match s with
  | EmptyString => (EmptyString, EmptyString)
  | String c s' =>
      if p c then let '(a, b) := span p s' in (String c a, b)
      else (EmptyString, s)
  end.

Fixpoint all (p : ascii -> bool) (s : string) : bool :=
  match s with
  | EmptyString => true
  | String c s' => p c && all p s'
  end.

Fixpoint map (f : ascii -> ascii) (s : string) : string :=
  match s with
  | EmptyString => EmptyString
  | String c s' => String (f c) (map f s')
  end.

(** [s.split(sep)[0]]: what precedes the first [sep]. *)
Definition before (sep : ascii) (s : string) : string :=
  fst (span (fun c => negb (Ascii.eqb c sep)) s).

Definition is_empty (s : string) : bool :=
  match s with EmptyString => true | _ => false end.

(** Character classes, by character code. *)
Definition code (c : ascii) : nat := nat_of_ascii c.
Definition between (lo hi : nat) (c : ascii) : bool :=
  Nat.leb lo (code c) && Nat.leb (code c) hi.

Definition is_digit (c : ascii) : bool := between 48 57 c.          (* 0-9 *)
Definition is_lower (c : ascii) : bool := between 97 122 c.         (* a-z *)
Definition is_upper (c : ascii) : bool := between 65 90 c.          (* A-Z *)
(** [[0-9a-f]] under the [i] flag *)
Definition is_hex_i (c : ascii) : bool :=
  is_digit c || between 97 102 c || between 65 70 c.
(** [[0-9a-f]] *)
Definition is_hex_lower (c : ascii) : bool :=
  is_digit c || between 97 102 c.
(** [\s], for character codes below 256 *)
Definition is_space (c : ascii) : bool :=
  between 9 13 c || Nat.eqb (code c) 32 || Nat.eqb (code c) 160.
(** what [.] refuses: line terminators *)
Definition is_newline (c : ascii) : bool :=
  Nat.eqb (code c) 10 || Nat.eqb (code c) 13.

(** [parseInt(ds, 10)] on a string of decimal digits: the number the digits
    write.  A JavaScript number holds it without rounding up to 2^53. *)
Fixpoint digits_value (acc : N) (ds : string) : N :=
  match ds with
  | EmptyString => acc
  | String c ds' => digits_value (acc * 10 + N.of_nat (code c - 48)) ds'
  end.
Definition parseInt (ds : string) : N := digits_value 0 ds.

(** The double quote, which the commands of the scripts contain. *)
Definition dq : string := String (ascii_of_nat 34) EmptyString.

End Str.

(** *** The regular expressions of the scripts *)

(** [/^[0-9a-f]{7,40}$/i.test(s)] *)
Definition sha_gate (s : string) : bool :=
  Str.all Str.is_hex_i s && Nat.leb 7 (String.length s) && Nat.leb (String.length s) 40.

(** [/^[0-9a-f]{7,40}$/.test(s)], the pattern as the specification writes it *)
Definition sha_lower_hex (s : string) : bool :=
  Str.all Str.is_hex_lower s && Nat.leb 7 (String.length s) && Nat.leb (String.length s) 40.

(** [s.match(/(\d+)\s+word/)], tried at the head of [s]: the digit run is
    taken whole (a shorter run would be followed by a digit, not a space),
    and so is the run of spaces. *)
Definition count_here (word s : string) : option string :=
  let '(ds, r) := Str.span Str.is_digit s in
  if Str.is_empty ds then None
  else
    let '(ws, r') := Str.span Str.is_space r in
    if Str.is_empty ws then None
    else if Str.starts_with word r' then Some ds else None.

(** [s.match(/(\d+)\s+word/)]: the leftmost position where it matches;
    the result is capture group 1. *)
Fixpoint count_match (word s : string) : option string :=
  match count_here word s with
  | Some ds => Some ds
  | None =>
      match s with
      | EmptyString => None
      | String _ s' => count_match word s'
      end
  end.

(** [m ? parseInt(m[1], 10) : 0] *)
Definition count_of (word s : string) : N :=
  match count_match word s with
  | Some ds => Str.parseInt ds
  | None => 0%N
  end.

(** [raw.match(/^git@([^:]+):(.+)$/)]: groups 1 and 2.  The host runs to the
    first colon and is not empty; the rest is not empty and holds no line
    terminator. *)
Definition match_git_ssh (raw : string) : option (string * string) :=
  if Str.starts_with "git@" raw then
    let r := String.substring 4 (String.length raw - 4) raw in
    let '(host, r') := Str.span (fun c => negb (Ascii.eqb c ":"%char)) r in
    match r' with
    | String _ rest =>
        if Str.is_empty host || Str.is_empty rest
           || negb (Str.all (fun c => negb (Str.is_newline c)) rest)
        then None
        else Some (host, rest)
    | EmptyString => None
    end
  else None.

(** [name.replace(/[^a-zA-Z0-9._-]/g, "_")] on one character *)
Definition sanitize_char (c : ascii) : ascii :=
  if Str.is_lower c || Str.is_upper c || Str.is_digit c
     || Ascii.eqb c "."%char || Ascii.eqb c "_"%char || Ascii.eqb c "-"%char
  then c else "_"%char.

(** ** JSON values, exceptions *)

(** What [JSON.parse] returns.  A number is the rational its literal
    denotes (the counts and hit counts of a report are whole numbers, which
    binary64 holds exactly).  An object is
    the list of its properties (as [JSON.parse] leaves it, a key occurs
    once). *)
Inductive json : Type :=
| JNull
| JBool (b : bool)
| JNum (q : Q)
| JStr (s : string)
| JArr (l : list json)
| JObj (kv : list (string * json)).

(** A JavaScript value read out of parsed JSON; [None] is [undefined]. *)
Definition value : Type := option json.

(** Why [validateEntry] refuses an entry, in the order of its tests. *)
Inductive rejection : Type :=
| ShaIsHead        (* sha="HEAD" *)
| UrlEndsInHead    (* the URL ends in /commit/HEAD *)
| UrlNotSha        (* the URL does not end in the sha *)
| MissingBranch.   (* branch is empty *)

Inductive error : Type :=
| TypeError                       (* property of undefined or null *)
| SyntaxError                     (* JSON.parse *)
| CommandFailed                   (* execSync *)
| WriteFailed                     (* fs.writeFileSync: no such directory, no permission *)
| InvalidSha                      (* the gate on git rev-parse HEAD *)
| NoEntry                         (* getCommitInfo returned null *)
| InvalidEntry (why : rejection).

Inductive result (A : Type) : Type :=
| Ok (a : A)
| Throw (e : error).
Arguments Ok {A} a.
Arguments Throw {A} e.

(** Code that updates a state [S] and may throw: the state reached when
    the exception is raised is kept, as for the variables of a [try] block. *)
Definition M (S A : Type) : Type := S -> S * result A.

Definition ret {S A : Type} (a : A) : M S A := fun s => (s, Ok a).
Definition throw {S A : Type} (e : error) : M S A := fun s => (s, Throw e).
Definition lift {S A : Type} (r : result A) : M S A := fun s => (s, r).
Definition bind {S A B : Type} (m : M S A) (k : A -> M S B) : M S B :=
  fun s => match m s with
           | (s', Ok a) => k a s'
           | (s', Throw e) => (s', Throw e)
           end.
Definition gets {S A : Type} (f : S -> A) : M S A := fun s => (s, Ok (f s)).
Definition modify {S : Type} (f : S -> S) : M S unit := fun s => (f s, Ok tt).
Definition when {S : Type} (b : bool) (m : M S unit) : M S unit :=
  if b then m else ret tt.

Declare Scope js_scope.
Delimit Scope js_scope with js.
Notation "x <- m ;; k" := (bind m (fun x => k))
  (at level 100, m at next level, right associativity) : js_scope.
Notation "m ;;; k" := (bind m (fun _ => k))
  (at level 100, right associativity) : js_scope.

(** The same for code without state. *)
Definition rbind {A B : Type} (r : result A) (k : A -> result B) : result B :=
  match r with
  | Ok a => k a
  | Throw e => Throw e
  end.
Notation "'let*' x := r 'in' k" := (rbind r (fun x => k))
  (at level 100, x name, r at next level, right associativity).

(** [v.k] on a value read from JSON.  Reading a property of [undefined] or
    [null] throws; the names the scripts read ([numTotalTests], [coverageMap],
    [s], [commit], [date], ...) are own properties of objects only. *)
Fixpoint assoc (k : string) (kv : list (string * json)) : value :=
  match kv with
  | [] => None
  | (k', v) :: kv' => if String.eqb k k' then Some v else assoc k kv'
  end.

Definition get (v : value) (k : string) : result value :=
  match v with
  | None | Some JNull => Throw TypeError
  | Some (JObj kv) => Ok (assoc k kv)
  | Some _ => Ok None
  end.

(** ToBoolean *)
Definition truthy (v : value) : bool :=
  match v with
  | None | Some JNull => false
  | Some (JBool b) => b
  | Some (JNum q) => negb (Qeq_bool q 0)
  | Some (JStr s) => negb (Str.is_empty s)
  | Some (JArr _) | Some (JObj _) => true
  end.

(** [v || 0] *)
Definition or_zero (v : value) : json :=
  match v with
  | Some j => if truthy v then j else JNum 0
  | None => JNum 0
  end.

Fixpoint chars (s : string) : list json :=
  match s with
  | EmptyString => []
  | String c s' => JStr (String c EmptyString) :: chars s'
  end.

(** [Object.keys(v).length] and [Object.values(v)]: both throw on
    [undefined] and [null]; a primitive number or boolean has no own
    property, a string has its characters, an array its elements. *)
Definition keys_length (v : value) : result nat :=
  match v with
  | None | Some JNull => Throw TypeError
  | Some (JObj kv) => Ok (List.length kv)
  | Some (JArr l) => Ok (List.length l)
  | Some (JStr s) => Ok (String.length s)
  | Some (JBool _) | Some (JNum _) => Ok 0%nat
  end.

Definition Object_values (v : value) : result (list json) :=
  match v with
  | None | Some JNull => Throw TypeError
  | Some (JObj kv) => Ok (List.map snd kv)
  | Some (JArr l) => Ok l
  | Some (JStr s) => Ok (chars s)
  | Some (JBool _) | Some (JNum _) => Ok []
  end.

(** The parts of the runtime left abstract: how a string converts to a
    number (only its sign is ever used) and to a date, and how an array or
    an object converts to a string. *)
Record Engine : Type := {
  string_positive : string -> bool;   (* ToNumber(s) > 0 *)
  Date_parse : string -> option Z;    (* time value in ms; None is NaN *)
  ToString_object : json -> string    (* ToPrimitive of an array or object *)
}.

(** [v > 0] *)
Definition gt0 (E : Engine) (j : json) : bool :=
  match j with
  | JNull => false
  | JBool b => b
  | JNum q => negb (Qle_bool q 0)
  | JStr s => string_positive E s
  | JArr _ | JObj _ => string_positive E (ToString_object E j)
  end.

(** The time value of [new Date(v)]; [None] is NaN (Invalid Date). *)
Definition Date_of (E : Engine) (v : value) : option Z :=
  match v with
  | None => None
  | Some JNull => Some 0%Z
  | Some (JBool b) => Some (if b then 1 else 0)%Z
  | Some (JNum q) =>
      if Qle_bool (Qabs q) (8640000000000000 # 1)
      then Some (Z.quot (Qnum q) (Zpos (Qden q))) else None   (* truncation *)
  | Some (JStr s) => Date_parse E s
  | Some (JArr l) => Date_parse E (ToString_object E (JArr l))
  | Some (JObj kv) => Date_parse E (ToString_object E (JObj kv))
  end.

(** ** The world outside the script *)

(** A file, seen through [JSON.parse(fs.readFileSync(path, "utf8"))]: its
    text either is JSON or is not.  [JSON.stringify(x, null, 2)] of a JSON
    value [x] is the file [Json x]. *)
Inductive content : Type :=
| Malformed
| Json (j : json).

Definition JSON_parse (c : content) : result json :=
  match c with
  | Malformed => Throw SyntaxError
  | Json j => Ok j
  end.

(** [sh cmd] is [execSync(cmd).toString().trim()], [None] when the command
    fails.  [jest_report] is the file the test runner leaves at [outputPath]
    ([None]: no such file after the run); the exit status of the runner is
    ignored by the scripts, and the run is taken not to touch the history
    files.  [writable path] tells whether [fs.writeFileSync(path, ...)]
    succeeds: the directory of [path] exists and can be written
    ([mkdirSync] in [ensureDir] has its errors swallowed, so that even there
    the directory may be missing). *)
Record World : Type := {
  sh : string -> option string;
  jest_report : option content;
  writable : string -> bool
}.

(** The three copies of the script. *)
Inductive variant : Type :=
| Tracker        (* src/script/commit-tracker.js *)
| BranchMain     (* src/unnamed/part_000, first script *)
| GlobalBranch.  (* src/unnamed/part_000, second script *)

Definition HISTORY_DIR : string := "script".
Definition DATA_FILE : string := "script/commit-history.json".
Definition HISTORY_EXCLUDE_GLOB : string := HISTORY_DIR ++ "/commit-history*.json".

(** [path.join(a, b)] for two plain segments (POSIX separator). *)
Definition path_join (a b : string) : string := a ++ "/" ++ b.

Definition MAIN_FILE : string := path_join HISTORY_DIR "commit-history-main.json".

(** ** The record of a commit *)

Module Commit.
Record t : Type := { date : string; message : string; url : string }.
End Commit.

Module Stats.
Record t : Type := { total : N; additions : N; deletions : N; date : string }.
End Stats.

Record entry : Type := {
  sha : string;
  author : string;
  branch : string;
  commit : Commit.t;
  stats : Stats.t;
  coverage : Q;
  test_count : json;
  failed_tests : json;
  conclusion : string
}.

Definition JN (n : N) : json := JNum (inject_Z (Z.of_N n)).

(** The entry as a JSON value: what [JSON.stringify] writes and what the
    comparator of the sort reads. *)
Definition entry_json (e : entry) : json :=
  JObj [ ("sha", JStr (sha e));
         ("author", JStr (author e));
         ("branch", JStr (branch e));
         ("commit", JObj [ ("date", JStr (Commit.date (commit e)));
                           ("message", JStr (Commit.message (commit e)));
                           ("url", JStr (Commit.url (commit e))) ]);
         ("stats", JObj [ ("total", JN (Stats.total (stats e)));
                          ("additions", JN (Stats.additions (stats e)));
                          ("deletions", JN (Stats.deletions (stats e)));
                          ("date", JStr (Stats.date (stats e))) ]);
         ("coverage", JNum (coverage e));
         ("test_count", test_count e);
         ("failed_tests", failed_tests e);
         ("conclusion", JStr (conclusion e)) ].

(** ** getRemoteHttpUrl *)

Definition getRemoteHttpUrl (W : World) : string :=
  match sh W "git config --get remote.origin.url" with
  | Some out =>
      let raw := Str.strip_suffix ".git" out in
      if Str.starts_with "http" raw then raw
      else match match_git_ssh raw with
           | Some (host, repo) => "https://" ++ host ++ "/" ++ repo
           | None => EmptyString
           end
  | None => EmptyString    (* catch *)
  end.

(** ** getCommitInfo: diff statistics *)

Definition quoted (s : string) : string := Str.dq ++ s ++ Str.dq.

(** The pathspecs that keep the history files out of the diff. *)
Definition exclusions (v : variant) : string :=
  match v with
  | Tracker => quoted (":!" ++ DATA_FILE)
  | BranchMain => quoted (":!" ++ HISTORY_EXCLUDE_GLOB)
  | GlobalBranch =>
      quoted (":!" ++ DATA_FILE) ++ " " ++ quoted ":!script/commit-history-*.json"
  end.

Definition diff_cmd (v : variant) (parentRef sha : string) : string :=
  "git diff --stat " ++ parentRef ++ " " ++ sha ++ " -- " ++ exclusions v.

Definition show_cmd (v : variant) (sha : string) : string :=
  "git show --stat " ++ sha ++ " -- " ++ exclusions v.

Definition parents_cmd (sha : string) : string := "git log -1 --pretty=%P " ++ sha.

(** The first listed parent, [sha~1] when there is none. *)
Definition parentRef (W : World) (sha : string) : string :=
  match sh W (parents_cmd sha) with
  | Some parents =>
      if Str.is_empty parents then sha ++ "~1"
      else
        let firstParent := Str.before " " parents in
        if Str.is_empty firstParent then sha ++ "~1" else firstParent
  | None => sha ++ "~1"    (* catch *)
  end.

(** [(additions, deletions)].  When [git diff] fails the scripts fall back
    on [git show]: [Tracker] then sets [deletions = 0], the two other
    scripts read the deletions off the output of [git show]. *)
Definition diff_stats (v : variant) (W : World) (sha : string) : N * N :=
  match sh W (diff_cmd v (parentRef W sha) sha) with
  | Some diffStats =>
      (count_of "insertion" diffStats, count_of "deletion" diffStats)
  | None =>
      match sh W (show_cmd v sha) with
      | Some showStats =>
          (count_of "insertion" showStats,
           match v with
           | Tracker => 0%N
           | BranchMain | GlobalBranch => count_of "deletion" showStats
           end)
      | None => (0%N, 0%N)    (* outer catch: both keep their initial 0 *)
      end
  end.

(** ** getCommitInfo: the test report *)

(** The four variables [getCommitInfo] declares before it runs the tests. *)
Module Tests.
Record t : Type := {
  testCount : json;
  coverage : Q;
  failedTests : json;
  conclusion : string
}.
Definition initial : t :=
  {| testCount := JNum 0; coverage := 0; failedTests := JNum 0; conclusion := "neutral" |}.
Definition set_testCount (x : json) (s : t) : t :=
  {| testCount := x; coverage := coverage s;
     failedTests := failedTests s; conclusion := conclusion s |}.
Definition set_failedTests (x : json) (s : t) : t :=
  {| testCount := testCount s; coverage := coverage s;
     failedTests := x; conclusion := conclusion s |}.
Definition set_coverage (x : Q) (s : t) : t :=
  {| testCount := testCount s; coverage := x;
     failedTests := failedTests s; conclusion := conclusion s |}.
Definition set_conclusion (x : string) (s : t) : t :=
  {| testCount := testCount s; coverage := coverage s;
     failedTests := failedTests s; conclusion := x |}.
End Tests.

(** The loop over [Object.values(coverageMap)], with its two counters. *)
Fixpoint count_files (E : Engine) (files : list json) (covered total : nat)
  : result (nat * nat) :=
  match files with
  | [] => Ok (covered, total)
  | file :: rest =>
      let* s := get (Some file) "s" in
      let* fileTotal := keys_length s in
      let* hits := Object_values s in
      let fileCovered := List.length (List.filter (gt0 E) hits) in
      count_files E rest (covered + fileCovered) (total + fileTotal)
  end.

(** *** Arithmetic on binary64 numbers

    The counters [covered] and [total] are whole numbers, exact in a binary64
    number.  The quotient and the products of the coverage are not: each
    operation returns the binary64 number nearest to the exact result, ties
    to the even significand.  [fl] is that rounding, on rationals: 53
    significant bits, exponent unbounded (the values at hand lie between
    2^-53 and 10001, far from overflow and from subnormal numbers). *)

Definition pow2 (z : Z) : Q := Qpower 2 z.

(** The integer nearest to [num / den] for [den > 0], ties to the even one. *)
Definition half_even (num den : Z) : Z :=
  let f := (num / den)%Z in
  let r := (num mod den)%Z in
  match (2 * r ?= den)%Z with
  | Lt => f
  | Gt => (f + 1)%Z
  | Eq => if Z.even f then f else (f + 1)%Z
  end.

Definition nearest_even (s : Q) : Z := half_even (Qnum s) (Zpos (Qden s)).

(** [floor (log2 q)] for [q > 0]. *)
Definition exponent (q : Q) : Z :=
  let k := (Z.log2 (Qnum q) - Z.log2 (Zpos (Qden q)))%Z in
  if Qle_bool (pow2 k) q then k else (k - 1)%Z.

Definition fl (q : Q) : Q :=
  if Qeq_bool q 0 then 0%Q
  else
    let e := (exponent (Qabs q) - 52)%Z in
    (inject_Z (nearest_even (q / pow2 e)) * pow2 e)%Q.

(** The same operations on the binary64 numbers of the proof assistant,
    against which [fl] is checked below: the value of a finite number, and
    the two expressions of the scripts. *)
Definition Q_of_float (f : PrimFloat.float) : Q :=
  match FloatOps.Prim2SF f with
  | SpecFloat.S754_finite s m e =>
      ((if s then -1 # 1 else 1) * inject_Z (Zpos m) * pow2 e)%Q
  | _ => 0%Q
  end.

Definition float_of_Z (n : Z) : PrimFloat.float :=
  PrimFloat.of_uint63 (Uint63.of_Z n).

Definition float_product (v : variant) (covered total : nat) : PrimFloat.float :=
  let r := PrimFloat.div (float_of_Z (Z.of_nat covered)) (float_of_Z (Z.of_nat total)) in
  match v with
  | BranchMain => PrimFloat.mul r (float_of_Z 10000)
  | Tracker | GlobalBranch =>
      PrimFloat.mul (PrimFloat.mul r (float_of_Z 100)) (float_of_Z 100)
  end.

(** The unit roundoff of binary64, [2 ^ -53]. *)
Definition u53 : Q := 1 # 9007199254740992.

(** [Math.round]: the nearest integer, halves upwards. *)
Definition Math_round (x : Q) : Z := Qfloor (x + (1 # 2)).

(** [covered / total] *)
Definition ratio (covered total : nat) : Q :=
  fl (inject_Z (Z.of_nat covered) / inject_Z (Z.of_nat total)).

(** [Math.round((covered / total) * 10000)] in [BranchMain],
    [Math.round(((covered / total) * 100) * 100)] in the two others. *)
Definition hundredths (v : variant) (covered total : nat) : Z :=
  match v with
  | BranchMain => Math_round (fl (ratio covered total * inject_Z 10000))
  | Tracker | GlobalBranch =>
      Math_round (fl (fl (ratio covered total * inject_Z 100) * inject_Z 100))
  end.

(** [... / 100]: the binary64 number nearest to [n / 100], which is the
    number [JSON.stringify] prints as the decimal [n / 100]; the coverage of
    the record is identified with that decimal. *)
Definition coverage_pct (v : variant) (covered total : nat) : Q :=
  inject_Z (hundredths v covered total) / inject_Z 100.

(** [testCount > 0 ? (failedTests > 0 ? "failure" : "success") : "neutral"] *)
Definition conclude (E : Engine) (testCount failedTests : json) : string :=
  if gt0 E testCount then (if gt0 E failedTests then "failure" else "success")
  else "neutral".

Local Open Scope js_scope.

(** The body of the [try] that reads the report, from [JSON.parse] on.
    An exception leaves the variables as they are at that point. *)
Definition read_report (v : variant) (E : Engine) (report : content) : M Tests.t unit :=
  jestResults <- lift (JSON_parse report) ;;
  n <- lift (get (Some jestResults) "numTotalTests") ;;
  modify (Tests.set_testCount (or_zero n)) ;;;
  f <- lift (get (Some jestResults) "numFailedTests") ;;
  modify (Tests.set_failedTests (or_zero f)) ;;;
  coverageMap <- lift (get (Some jestResults) "coverageMap") ;;
  when (truthy coverageMap)
    (files <- lift (Object_values coverageMap) ;;
     ct <- lift (count_files E files 0 0) ;;
     when (Nat.ltb 0 (snd ct))
       (modify (Tests.set_coverage (coverage_pct v (fst ct) (snd ct))))) ;;;
  t <- gets (fun t => t) ;;
  modify (Tests.set_conclusion (conclude E (Tests.testCount t) (Tests.failedTests t))).

(** The variables after the test section: untouched without a
    [package.json] or without a report, else as [read_report] leaves them
    (the [catch] only logs).  The report lies in the temporary directory,
    outside the store: that the test runner writes it there, and that the
    script removes it after reading it without an exception, is not
    modelled. *)
Definition run_tests (v : variant) (E : Engine) (W : World)
    (fs : gmap string content) : Tests.t :=
  if bool_decide (is_Some (fs !! "package.json")) then
    match jest_report W with
    | Some report => fst (read_report v E report Tests.initial)
    | None => Tests.initial
    end
  else Tests.initial.

(** ** getCommitInfo *)

(** [None] is the [null] returned when the metadata cannot be read. *)
Definition getCommitInfo (v : variant) (E : Engine) (W : World)
    (fs : gmap string content) (sha : string) : option entry :=
  match sh W ("git log -1 --pretty=%B " ++ sha),
        sh W ("git log -1 --pretty=%cI " ++ sha),
        sh W ("git log -1 --pretty=%an " ++ sha) with
  | Some commitMessage, Some commitDateIso, Some author =>
      let repoUrl := getRemoteHttpUrl W in
      let commitUrl :=
        if Str.is_empty repoUrl then EmptyString else repoUrl ++ "/commit/" ++ sha in
      let '(additions, deletions) := diff_stats v W sha in
      let t := run_tests v E W fs in
      let branch :=
        match sh W "git rev-parse --abbrev-ref HEAD" with
        | Some b => b
        | None => EmptyString
        end in
      let dateYmd := Str.before "T" commitDateIso in
      Some {| sha := sha;
              author := author;
              branch := branch;
              commit := {| Commit.date := commitDateIso;
                           Commit.message := commitMessage;
                           Commit.url := commitUrl |};
              stats := {| Stats.total := additions + deletions;
                          Stats.additions := additions;
                          Stats.deletions := deletions;
                          Stats.date := dateYmd |};
              coverage := Tests.coverage t;
              test_count := Tests.testCount t;
              failed_tests := Tests.failedTests t;
              conclusion := Tests.conclusion t |}
  | _, _, _ => None
  end.

(** ** The history files *)

Abbreviation store := (gmap string content).

(** [a.commit.date], on an element of a history array *)
Definition commit_date (a : json) : result value :=
  let* c := get (Some a) "commit" in
  get c "date".

(** The comparator [(a, b) => new Date(a.commit.date) - new Date(b.commit.date)];
    [None] is NaN. *)
Definition by_date (E : Engine) (a b : json) : result (option Z) :=
  let* da := commit_date a in
  let* db := commit_date b in
  Ok (match Date_of E da, Date_of E db with
      | Some x, Some y => Some (x - y)%Z
      | _, _ => None
      end).

(** Whether the comparator asks for its first argument to go after the
    second; the sort reads NaN as [+0]. *)
Definition is_positive (c : option Z) : bool :=
  match c with
  | Some z => (0 <? z)%Z
  | None => false
  end.

(** [Array.prototype.sort(by_date)].  The language asks for a stable sort
    and, for a comparator that is a consistent order, fixes the result: the
    elements in order, equal ones as they were.  Stable insertion computes
    that array.  The comparator is not called on a one-element array; on a
    longer one it is called on every element, so the sort throws as soon as
    one element has no [commit.date] to read. *)
Fixpoint sort_insert (E : Engine) (x : json) (l : list json) : result (list json) :=
  match l with
  | [] => Ok [x]
  | y :: l' =>
      let* c := by_date E x y in
      if is_positive c
      then (let* r := sort_insert E x l' in Ok (y :: r))
      else Ok (x :: y :: l')
  end.

Fixpoint sort (E : Engine) (l : list json) : result (list json) :=
  match l with
  | [] => Ok []
  | x :: l' =>
      let* s := sort E l' in
      sort_insert E x s
  end.

(** [loadHistory]: the array in the file, the empty array when the file is
    absent, is not JSON, or is JSON but not an array. *)
Definition loadHistory (fs : store) (filePath : string) : list json :=
  match fs !! filePath with
  | Some c =>
      match JSON_parse c with
      | Ok (JArr data) => data
      | Ok _ => []
      | Throw _ => []    (* catch *)
      end
  | None => []
  end.

Definition writeFileSync (W : World) (filePath : string) (c : content) : M store unit :=
  if writable W filePath
  then modify (fun fs : store => <[filePath := c]> fs)
  else throw WriteFailed.

(** [saveHistory]: sort in place, then write the whole array. *)
Definition saveHistory (E : Engine) (W : World) (filePath : string) (commits : list json)
  : M store unit :=
  sorted <- lift (sort E commits) ;;
  writeFileSync W filePath (Json (JArr sorted)).

(** [appendEntry]: load, push, save.  [Tracker] and [GlobalBranch] write
    the same three steps out in [saveCommitData]. *)
Definition appendEntry (E : Engine) (W : World) (filePath : string) (e : entry)
  : M store unit :=
  commits <- gets (fun fs : store => loadHistory fs filePath) ;;
  saveHistory E W filePath (commits ++ [entry_json e])%list.

(** [if (!fs.existsSync(p)) fs.writeFileSync(p, JSON.stringify([], null, 2))] *)
Definition create_if_absent (W : World) (p : string) : M store unit :=
  exists_p <- gets (fun fs : store => bool_decide (is_Some (fs !! p))) ;;
  when (negb exists_p) (writeFileSync W p (Json (JArr []))).

(** [sanitizeBranchName] *)
Definition sanitizeBranchName (name : string) : string :=
  Str.map sanitize_char (if Str.is_empty name then "unknown" else name).

(** The name of the per-branch file in [BranchMain]. *)
Definition branch_file (b : string) : string :=
  path_join HISTORY_DIR ("commit-history-" ++ sanitizeBranchName b ++ ".json").

(** The tests on the sha and on the URL: the head of [saveCommitData] in
    [Tracker], the first three tests of [validateEntry] in [BranchMain]. *)
Definition check_head (e : entry) : result unit :=
  let u := Commit.url (commit e) in
  if String.eqb (sha e) "HEAD" then Throw (InvalidEntry ShaIsHead)
  else if negb (Str.is_empty u) && Str.ends_with "/commit/HEAD" u
       then Throw (InvalidEntry UrlEndsInHead)
  else if negb (Str.is_empty u) && negb (Str.ends_with (sha e) u)
       then Throw (InvalidEntry UrlNotSha)
  else Ok tt.

(** [validateEntry] *)
Definition validateEntry (e : entry) : result unit :=
  let* _ := check_head e in
  if Str.is_empty (branch e) then Throw (InvalidEntry MissingBranch)
  else Ok tt.

(** What each script does with the entry once it is built. *)
Definition persist (v : variant) (E : Engine) (W : World) (e : entry) : M store unit :=
  match v with
  | Tracker =>
      (* saveCommitData *)
      lift (check_head e) ;;;
      appendEntry E W DATA_FILE e
  | BranchMain =>
      lift (validateEntry e) ;;;
      create_if_absent W (branch_file (branch e)) ;;;
      appendEntry E W (branch_file (branch e)) e ;;;
      when (String.eqb (branch e) "main")
        (create_if_absent W MAIN_FILE ;;;
         appendEntry E W MAIN_FILE e)
  | GlobalBranch =>
      (* saveCommitData *)
      appendEntry E W DATA_FILE e ;;;
      when (negb (Str.is_empty (branch e)) && negb (String.eqb (branch e) "HEAD"))
        (appendEntry E W ("script/commit-history-" ++ branch e ++ ".json") e)
  end.

(** What each script does before it asks for the sha: [Tracker] and
    [GlobalBranch] create the global file, [BranchMain] only tries to make
    the directory. *)
Definition prepare (v : variant) (W : World) : M store unit :=
  match v with
  | Tracker | GlobalBranch => create_if_absent W DATA_FILE
  | BranchMain => ret tt
  end.

(** The body of the top-level [try]. *)
Definition script (v : variant) (E : Engine) (W : World) : M store unit :=
  prepare v W ;;;
  sha <- lift (match sh W "git rev-parse HEAD" with
               | Some s => Ok s
               | None => Throw CommandFailed
               end) ;;
  (if sha_gate sha then ret tt else throw InvalidSha) ;;;
  fs <- gets (fun fs : store => fs) ;;
  e <- lift (match getCommitInfo v E W fs sha with
             | Some e => Ok e
             | None => Throw NoEntry
             end) ;;
  persist v E W e.

(** The exit status and the files left: [process.exit(1)] in the [catch],
    status 0 when the script runs to its end. *)
Definition run (v : variant) (E : Engine) (W : World) (fs : store) : Z * store :=
  match script v E W fs with
  | (fs', Ok _) => (0%Z, fs')
  | (fs', Throw _) => (1%Z, fs')
  end.

Local Close Scope js_scope.

(** The store after a series of commits, each followed by a run of one of
    the scripts in the world of that moment. *)
Fixpoint run_all (E : Engine) (steps : list (variant * World)) (fs : store) : store :=
  match steps with
  | [] => fs
  | (v, W) :: steps' => run_all E steps' (snd (run v E W fs))
  end.

(** ** The properties, in the words of the specification *)

(** The character class [[A-Za-z0-9._-]], letter by letter. *)
Definition branch_alphabet : list ascii :=
  list_ascii_of_string
    "ABCDEFGHIJKLMNOPQRSTUVWXYZabcdefghijklmnopqrstuvwxyz0123456789._-".

Definition in_alphabet (abc : list ascii) (c : ascii) : bool :=
  List.existsb (Ascii.eqb c) abc.

(** The sanitized branch name as the specification words it: every
    character outside the class becomes an underscore. *)
Definition spec_sanitize (name : string) : string :=
  Str.map (fun c => if in_alphabet branch_alphabet c then c else "_"%char) name.

(** The hexadecimal digits, of either case. *)
Definition hex_alphabet : list ascii := list_ascii_of_string "0123456789abcdefABCDEF".

(** The shapes of an entry that must abort the run. *)
Definition head_forbidden (e : entry) : bool :=
  String.eqb (sha e) "HEAD"
  || Str.ends_with "/commit/HEAD" (Commit.url (commit e))
  || (negb (Str.is_empty (Commit.url (commit e)))
      && negb (Str.ends_with (sha e) (Commit.url (commit e)))).

Definition forbidden (e : entry) : bool :=
  head_forbidden e || Str.is_empty (branch e).

(** The parsed [commit.date] of an element of a history array: the time
    value the comparator computes for it, when there is one. *)
Definition date_key (E : Engine) (a : json) : option Z :=
  match commit_date a with
  | Ok d => Date_of E d
  | Throw _ => None
  end.

(** The element [a] may stand just before [b]: both dates parse, and the
    first is not later than the second. *)
Definition date_le (E : Engine) (a b : json) : Prop :=
  exists x y : Z, date_key E a = Some x /\ date_key E b = Some y /\ (x <= y)%Z.

Definition dated (E : Engine) (a : json) : Prop :=
  exists x : Z, date_key E a = Some x.

(** An element of a history array whose [commit.date] can be read (the
    comparator does not throw on it). *)
Definition readable (a : json) : Prop := exists d : value, commit_date a = Ok d.

(** How many of the counters [hits] were hit: [hits.filter((v) => v > 0).length]. *)
Definition covered_in (E : Engine) (hits : list json) : nat :=
  List.length (List.filter (gt0 E) hits).

(** The statement counters of one file of a coverage map, [file.s]. *)
Definition counters (file : json) : result (list json) :=
  let* s := get (Some file) "s" in
  let* _ := keys_length s in
  Object_values s.

(** A percentage rounded to two decimal places, halves upwards. *)
Definition round2 (x : Q) : Q := inject_Z (Qfloor (x * inject_Z 100 + (1 # 2))) / inject_Z 100.

(** The coverage as the specification words it, from all the counters of
    all the files: executed over total, times 100, to two decimals; 0
    without counters. *)
Definition spec_coverage (E : Engine) (all_counters : list json) : Q :=
  let total := List.length all_counters in
  let covered := covered_in E all_counters in
  if Nat.eqb total 0 then 0
  else round2 (inject_Z (Z.of_nat covered) / inject_Z (Z.of_nat total) * inject_Z 100).

(** The verdict as the specification words it. *)
Definition spec_conclusion (E : Engine) (test_count failed_tests : json) : string :=
  match test_count with
  | JNum q =>
      if Qeq_bool q 0 then "neutral"
      else if gt0 E failed_tests then "failure" else "success"
  | _ => if gt0 E failed_tests then "failure" else "success"
  end.



(** Between two states of the store, every array holds what it held, and
    copies of the element [x] besides. *)
Definition adds_copies (x : json) (fs fs' : store) : Prop :=
  forall p : string,
    exists news : list json,
      Permutation (loadHistory fs' p) (loadHistory fs p ++ news)
      /\ Forall (eq x) news.



(** ** A concrete engine and concrete worlds *)

(** Days since 1970-01-01 of a date of the proleptic Gregorian calendar. *)
Definition days_from_civil (y m d : Z) : Z :=
  let y' := if (m <=? 2)%Z then (y - 1)%Z else y in
  let era := (y' / 400)%Z in
  let yoe := (y' - era * 400)%Z in
  let mp := if (2 <? m)%Z then (m - 3)%Z else (m + 9)%Z in
  let doy := ((153 * mp + 2) / 5 + d - 1)%Z in
  let doe := (yoe * 365 + yoe / 4 - yoe / 100 + doy)%Z in
  (era * 146097 + doe - 719468)%Z.

Definition field (s : string) (from len : nat) (lo hi : Z) : option Z :=
  let ds := String.substring from len s in
  let n := Z.of_N (Str.parseInt ds) in
  if Str.all Str.is_digit ds && Nat.eqb (String.length ds) len
     && (lo <=? n)%Z && (n <=? hi)%Z
  then Some n else None.

Definition literal (s : string) (from : nat) (lit : string) : bool :=
  String.eqb (String.substring from (String.length lit) s) lit.

(** Timestamps as [git log --pretty=%cI] prints them,
    [YYYY-MM-DDThh:mm:ss+hh:mm] (or with [-hh:mm], or [Z]); every other
    string is refused. *)
Definition iso_date (s : string) : option Z :=
  match field s 0 4 0 9999, field s 5 2 1 12, field s 8 2 1 31,
        field s 11 2 0 23, field s 14 2 0 59, field s 17 2 0 59 with
  | Some y, Some mo, Some d, Some h, Some mi, Some sec =>
      if literal s 4 "-" && literal s 7 "-" && literal s 10 "T"
         && literal s 13 ":" && literal s 16 ":"
      then
        let local := ((((days_from_civil y mo d * 24 + h) * 60 + mi) * 60 + sec) * 1000)%Z in
        if String.eqb (String.substring 19 6 s) "Z" then Some local
        else
          match field s 20 2 0 23, field s 23 2 0 59 with
          | Some oh, Some om =>
              let off := ((oh * 60 + om) * 60000)%Z in
              if negb (literal s 22 ":") || negb (Nat.eqb (String.length s) 25) then None
              else if literal s 19 "+" then Some (local - off)%Z
              else if literal s 19 "-" then Some (local + off)%Z
              else None
          | _, _ => None
          end
      else None
  | _, _, _, _, _, _ => None
  end.

(** An engine that reads decimal digit strings as numbers and [%cI]
    timestamps as dates. *)
Definition iso_engine : Engine :=
  {| string_positive := fun s =>
       negb (Str.is_empty s) && Str.all Str.is_digit s
       && negb (N.eqb (Str.parseInt s) 0);
     Date_parse := iso_date;
     ToString_object := fun _ => "[object Object]" |}.

(** A world given by the table of the commands that succeed. *)
Fixpoint answer (table : list (string * string)) (cmd : string) : option string :=
  match table with
  | [] => None
  | (c, out) :: table' => if String.eqb cmd c then Some out else answer table' cmd
  end.

Definition sample_sha : string := "0123456789abcdef0123456789abcdef01234567".

Definition metadata (sha date : string) : list (string * string) :=
  [ ("git rev-parse HEAD", sha);
    ("git log -1 --pretty=%B " ++ sha, "first commit");
    ("git log -1 --pretty=%cI " ++ sha, date);
    ("git log -1 --pretty=%an " ++ sha, "Ada");
    ("git config --get remote.origin.url", "git@github.com:Oswi142/proyecto-base.git") ].

(** What [git show --stat] prints for a root commit that adds one file of
    ten lines; [msg] is the commit message. *)
Definition show_root (sha msg : string) : string :=
  "commit " ++ sha ++ "
Author: Ada <ada@example.org>
Date:   Wed May 1 10:00:00 2024 +0000

    " ++ msg ++ "

 notes.txt | 10 ++++++++++
 1 file changed, 10 insertions(+)".

(** A root commit on branch [b]: no parent is listed, [git diff] against
    [sha~1] fails, [git show] answers; every file can be written. *)
Definition root_world_on (b : string) (v : variant) (msg : string)
    (report : option content) : World :=
  {| sh := answer (metadata sample_sha "2024-05-01T10:00:00+00:00" ++
                   [ (parents_cmd sample_sha, EmptyString);
                     (show_cmd v sample_sha, show_root sample_sha msg);
                     ("git rev-parse --abbrev-ref HEAD", b) ])%list;
     jest_report := report;
     writable := fun _ => true |}.

(** The same on branch [feature/x-1]. *)
Definition root_world : variant -> string -> option content -> World :=
  root_world_on "feature/x-1".

(** The same commit when the branch cannot be read. *)
Definition branchless_world (v : variant) : World :=
  {| sh := answer (metadata sample_sha "2024-05-01T10:00:00+00:00" ++
                   [ (parents_cmd sample_sha, EmptyString);
                     (show_cmd v sample_sha, show_root sample_sha "first commit") ])%list;
     jest_report := None;
     writable := fun _ => true |}.

(** A world in which no command answers; every file can be written. *)
Definition silent_world : World :=
  {| sh := fun _ => None; jest_report := None; writable := fun _ => true |}.

(** The root commit on branch [feature/x-1], in a working tree where
    [script] has no subdirectory: a path below [script/commit-history-feature/]
    cannot be written. *)
Definition flat_script_dir (path : string) : bool :=
  negb (Str.starts_with "script/commit-history-feature/" path).

Definition no_subdir_world (v : variant) : World :=
  {| sh := sh (root_world v "first commit" None);
     jest_report := None;
     writable := flat_script_dir |}.

(** A world whose [git rev-parse HEAD] answers in capitals. *)
Definition capitals_world : World :=
  {| sh := answer (metadata "ABCDEF0" "2024-05-01T10:00:00+00:00" ++
                   [ ("git rev-parse --abbrev-ref HEAD", "main") ])%list;
     jest_report := None;
     writable := fun _ => true |}.

(** A report with three tests, one failed, whose coverage map has a file
    without statement counters. *)
Definition report_without_counters : content :=
  Json (JObj [ ("numTotalTests", JNum (3 # 1));
               ("numFailedTests", JNum (1 # 1));
               ("coverageMap", JObj [ ("src/a.js", JObj []) ]) ]).

(** A report with ten tests, two failed, and two files: three counters
    (two hit) and four counters (all hit). *)
Definition report_two_files : content :=
  Json (JObj [ ("numTotalTests", JNum (10 # 1));
               ("numFailedTests", JNum (2 # 1));
               ("coverageMap",
                JObj [ ("src/a.js", JObj [ ("s", JObj [ ("0", JNum (1 # 1));
                                                        ("1", JNum 0);
                                                        ("2", JNum (5 # 1)) ]) ]);
                       ("src/b.js", JObj [ ("s", JObj [ ("0", JNum (1 # 1));
                                                        ("1", JNum (1 # 1));
                                                        ("2", JNum (2 # 1));
                                                        ("3", JNum (7 # 1)) ]) ]) ]) ]).

(** An element of a history array, as an earlier run wrote it (the fields
    the scripts read back). *)
Definition old_record (h date : string) : json :=
  JObj [ ("sha", JStr h);
         ("commit", JObj [ ("date", JStr date); ("message", JStr "earlier work") ]) ].

(** A global history file whose two records are not in order of date. *)
Definition unsorted_history : store :=
  {[ DATA_FILE :=
       Json (JArr [ old_record "aaaaaaa" "2025-01-01T00:00:00+00:00";
                    old_record "bbbbbbb" "2023-06-01T12:00:00+02:00" ]) ]}.


(** A global history file that is JSON but not an array, and one that is
    not JSON. *)
Definition object_history : store := {[ DATA_FILE := Json (JObj [ ("commits", JArr []) ]) ]}.
Definition broken_history : store := {[ DATA_FILE := Malformed ]}.

(** An entry as [getCommitInfo] builds it. *)
Definition sample_entry (b : string) : entry :=
  {| sha := sample_sha;
     author := "Ada";
     branch := b;
     commit := {| Commit.date := "2024-05-01T10:00:00+00:00";
                  Commit.message := "first commit";
                  Commit.url := "https://github.com/Oswi142/proyecto-base/commit/" ++ sample_sha |};
     stats := {| Stats.total := 10; Stats.additions := 10; Stats.deletions := 0;
                 Stats.date := "2024-05-01" |};
     coverage := 0;
     test_count := JNum 0;
     failed_tests := JNum 0;
     conclusion := "neutral" |}.

(** The counters of a file, numbered from [key] on, with the given hit
    counts. *)
Fixpoint counters_from (key : nat) (hits : list Z) : list (string * json) :=
  match hits with
  | [] => []
  | n :: hits' =>
      (NilEmpty.string_of_uint (Nat.to_uint key), JNum (inject_Z n))
        :: counters_from (S key) hits'
  end.

(** A report with four tests, none failed, and one file of 160 statements
    of which the first 23 were executed once. *)
Definition hits_23_of_160 : list Z := (List.repeat 1%Z 23 ++ List.repeat 0%Z 137)%list.

Definition report_23_of_160 : content :=
  Json (JObj [ ("numTotalTests", JNum (4 # 1));
               ("numFailedTests", JNum 0);
               ("coverageMap",
                JObj [ ("src/big.js",
                        JObj [ ("s", JObj (counters_from 0 hits_23_of_160)) ]) ]) ]).

(** A project directory: a [package.json] and nothing else. *)
Definition project : store := {[ "package.json" := Json (JObj []) ]}.

(** * More of the scripts, and more worlds *)

(** ** The output of a command *)

(** [s.trim()]: the string without the white space and the line
    terminators at its two ends (for character codes below 256, the class
    of [\s]). *)
Fixpoint trim_end (s : string) : string :=
  match s with
  | EmptyString => EmptyString
  | String c s' =>
      let t := trim_end s' in
      if Str.is_space c && Str.is_empty t then EmptyString else String c t
  end.

Definition trim (s : string) : string :=
  trim_end (snd (Str.span Str.is_space s)).

(** The function [sh] of the scripts, over [execSync]: the output of the
    command, trimmed; [None] when the command fails. *)
Definition sh_of (execSync : string -> option string) (cmd : string) : option string :=
  option_map trim (execSync cmd).

(** ** The counts git prints *)

(** The decimal notation of a number, as git prints a count. *)
Definition decimal (n : nat) : string := NilEmpty.string_of_uint (Nat.to_uint n).

(** The summary line of [git diff --stat] and [git show --stat], for [f]
    files changed, [a] lines added and [d] lines removed, as git prints it
    (an input of the scripts, not a part of them): [file], [insertion] and
    [deletion] take an [s] unless the number is 1; the insertions are left
    out when there are none but there are deletions, and the other way
    round. *)
Definition plural (n : nat) : string := if Nat.eqb n 1 then EmptyString else "s".

Definition insertions_part (a d : nat) : string :=
  if negb (Nat.eqb a 0) || Nat.eqb d 0
  then ", " ++ decimal a ++ " insertion" ++ plural a ++ "(+)" else EmptyString.

Definition deletions_part (a d : nat) : string :=
  if negb (Nat.eqb d 0) || Nat.eqb a 0
  then ", " ++ decimal d ++ " deletion" ++ plural d ++ "(-)" else EmptyString.

Definition shortstat (f a d : nat) : string :=
  " " ++ decimal f ++ " file" ++ plural f ++ " changed"
      ++ insertions_part a d ++ deletions_part a d.

(** What must follow the digits for [/(\d+)\s+word/] to match: spaces,
    then the word. *)
Definition after_digits (word r : string) : bool :=
  let '(ws, r') := Str.span Str.is_space r in
  negb (Str.is_empty ws) && Str.starts_with word r'.

(** [/(\d+)\s+word/] matches [s] at the position after [pre], with [ds]
    for capture group 1: digits, then white space, then the word. *)
Definition matches_at (word pre ds ws post s : string) : Prop :=
  s = pre ++ ds ++ ws ++ word ++ post
  /\ Str.all Str.is_digit ds = true /\ Str.is_empty ds = false
  /\ Str.all Str.is_space ws = true /\ Str.is_empty ws = false.

(** ** The history files *)

(** The element [a] is dated strictly before [b]. *)
Definition date_lt (E : Engine) (a b : json) : Prop :=
  exists x y : Z, date_key E a = Some x /\ date_key E b = Some y /\ (x < y)%Z.

(** The names of the files the scripts write: the global file, and the
    names that start with [script/commit-history-]. *)
Definition history_path (p : string) : bool :=
  String.eqb p DATA_FILE || Str.starts_with "script/commit-history-" p.

(** ** More worlds and histories *)

(** The world over the raw answers of the commands. *)
Definition exec_world (execSync : string -> option string) (report : option content) : World :=
  {| sh := sh_of execSync; jest_report := report; writable := fun _ => true |}.

(** [git rev-parse HEAD] printing the sha and a line feed. *)
Definition raw_rev_parse (h : string) (cmd : string) : option string :=
  if String.eqb cmd "git rev-parse HEAD"
  then Some (h ++ String (ascii_of_nat 10) EmptyString) else None.

(** A world whose remote is given over https, or in the form [ssh://],
    and in which no other command answers. *)
Definition remote_world (remote : string) : World :=
  {| sh := answer [ ("git config --get remote.origin.url", remote) ];
     jest_report := None;
     writable := fun _ => true |}.

(** A merge commit with two parents, whose diff against the first parent
    adds 7 lines and removes 2. *)
Definition merge_world (v : variant) : World :=
  {| sh := answer (metadata sample_sha "2024-05-01T10:00:00+00:00" ++
                   [ (parents_cmd sample_sha, "1111111 2222222");
                     (diff_cmd v "1111111" sample_sha,
                      " 2 files changed, 7 insertions(+), 2 deletions(-)") ])%list;
     jest_report := None;
     writable := fun _ => true |}.

(** A world in which only the three [git log] commands for the message,
    the date and the author answer. *)
Definition log_only_world : World :=
  {| sh := answer [ ("git log -1 --pretty=%B " ++ sample_sha, "first commit");
                    ("git log -1 --pretty=%cI " ++ sample_sha, "2024-05-01T10:00:00+00:00");
                    ("git log -1 --pretty=%an " ++ sample_sha, "Ada") ];
     jest_report := None;
     writable := fun _ => true |}.

(** The root commit on branch [feature/x-1], in a working tree where no
    file can be written. *)
Definition read_only_world (v : variant) : World :=
  {| sh := sh (root_world v "first commit" None);
     jest_report := None;
     writable := fun _ => false |}.

(** A global history file with three records in order of date, the
    second of the same instant as [sample_entry]; and one with a record
    that has no [commit]. *)
Definition sorted_history : store :=
  {[ DATA_FILE :=
       Json (JArr [ old_record "bbbbbbb" "2023-06-01T12:00:00+02:00";
                    old_record "ccccccc" "2024-05-01T12:00:00+02:00";
                    old_record "aaaaaaa" "2025-01-01T00:00:00+00:00" ]) ]}.

Definition corrupt_history : store :=
  {[ DATA_FILE :=
       Json (JArr [ old_record "bbbbbbb" "2023-06-01T12:00:00+02:00";
                    JObj [ ("sha", JStr "ddddddd") ] ]) ]}.

(** * Proofs *)

(** ** Strings *)

Ltac sstep :=
  cbn [Str.ends_with Str.all Str.map String.length String.append].

Section StringFacts.

Lemma ends_with_refl (s : string) : Str.ends_with s s = true.
Proof. destruct s; sstep; rewrite String.eqb_refl; reflexivity. Qed.

Lemma append_assoc (a b c : string) : (a ++ b) ++ c = a ++ (b ++ c).
Proof.
  induction a as [|x a IH]; [reflexivity|].
  change (String x ((a ++ b) ++ c) = String x (a ++ (b ++ c))).
  f_equal. exact IH.
Qed.

Lemma ends_with_cons (suf s : string) (c : ascii) :
  Str.ends_with suf s = true -> Str.ends_with suf (String c s) = true.
Proof. intros H. sstep. rewrite H. apply orb_true_r. Qed.

Lemma ends_with_app (p suf : string) : Str.ends_with suf (p ++ suf) = true.
Proof.
  induction p as [|c p IH].
  - apply ends_with_refl.
  - change (String c p ++ suf) with (String c (p ++ suf)).
    apply ends_with_cons, IH.
Qed.

Lemma ends_with_length (suf s : string) :
  Str.ends_with suf s = true -> (String.length suf <= String.length s)%nat.
Proof.
  induction s as [|c s IH]; sstep; intros H.
  - rewrite orb_false_r in H. apply String.eqb_eq in H. subst. cbn [String.length]. lia.
  - apply orb_true_iff in H. destruct H as [H|H].
    + apply String.eqb_eq in H. subst. cbn [String.length]. lia.
    + specialize (IH H). lia.
Qed.

(** A suffix of a suffix is a suffix. *)
Lemma ends_with_trans (a b s : string) :
  Str.ends_with a b = true -> Str.ends_with b s = true -> Str.ends_with a s = true.
Proof.
  intros Hab. induction s as [|c s IH]; sstep; intros H.
  - rewrite orb_false_r in H. apply String.eqb_eq in H. subst. exact Hab.
  - apply orb_true_iff in H. destruct H as [H|H].
    + apply String.eqb_eq in H. subst b. exact Hab.
    + rewrite (IH H). apply orb_true_r.
Qed.

(** Of two suffixes of one string, the shorter ends the longer. *)
Lemma ends_with_chain (a b s : string) :
  Str.ends_with a s = true -> Str.ends_with b s = true ->
  (String.length a <= String.length b)%nat ->
  Str.ends_with a b = true.
Proof.
  induction s as [|c s IH]; sstep; intros Ha Hb Hlen.
  - rewrite orb_false_r in Ha, Hb.
    apply String.eqb_eq in Ha, Hb. subst. reflexivity.
  - apply orb_true_iff in Hb. destruct Hb as [Hb|Hb].
    + apply String.eqb_eq in Hb. subst b. sstep. exact Ha.
    + apply orb_true_iff in Ha. destruct Ha as [Ha|Ha].
      * apply String.eqb_eq in Ha. subst a.
        apply ends_with_length in Hb. cbn [String.length] in Hlen. lia.
      * apply IH; assumption.
Qed.

Lemma all_ends_with (p : ascii -> bool) (suf s : string) :
  Str.ends_with suf s = true -> Str.all p s = true -> Str.all p suf = true.
Proof.
  induction s as [|c s IH]; sstep; intros H Hall.
  - rewrite orb_false_r in H. apply String.eqb_eq in H. subst. reflexivity.
  - apply orb_true_iff in H. destruct H as [H|H].
    + apply String.eqb_eq in H. subst suf. exact Hall.
    + apply andb_true_iff in Hall. apply IH; tauto.
Qed.

Lemma is_empty_true (s : string) : Str.is_empty s = true <-> s = EmptyString.
Proof. destruct s; cbn [Str.is_empty]; split; congruence. Qed.

Lemma map_length (f : ascii -> ascii) (s : string) :
  String.length (Str.map f s) = String.length s.
Proof. induction s; sstep; congruence. Qed.

Lemma map_ext (f g : ascii -> ascii) (s : string) :
  (forall c, f c = g c) -> Str.map f s = Str.map g s.
Proof. intros H. induction s; sstep; congruence. Qed.

Lemma all_map (p : ascii -> bool) (f : ascii -> ascii) (s : string) :
  (forall c, p (f c) = true) -> Str.all p (Str.map f s) = true.
Proof. intros H. induction s; sstep; [reflexivity|]. rewrite H. assumption. Qed.

(** The class of [sanitizeBranchName], written with character codes in
    the model, is the class [[A-Za-z0-9._-]] of the specification. *)
Lemma sanitize_char_spec (c : ascii) :
  sanitize_char c = if in_alphabet branch_alphabet c then c else "_"%char.
Proof. destruct c as [[] [] [] [] [] [] [] []]; reflexivity. Qed.

Lemma sanitize_char_in (c : ascii) :
  in_alphabet branch_alphabet (sanitize_char c) = true.
Proof. destruct c as [[] [] [] [] [] [] [] []]; reflexivity. Qed.

(** The class of the gate is the hexadecimal digits of either case. *)
Lemma is_hex_i_spec (c : ascii) : Str.is_hex_i c = in_alphabet hex_alphabet c.
Proof. destruct c as [[] [] [] [] [] [] [] []]; reflexivity. Qed.

Lemma sha_gate_not_HEAD (s : string) : sha_gate s = true -> s <> "HEAD".
Proof. intros H ->. discriminate H. Qed.

Lemma sha_gate_hex (s : string) :
  sha_gate s = true ->
  Str.all Str.is_hex_i s = true /\ (7 <= String.length s <= 40)%nat.
Proof.
  unfold sha_gate. intros H.
  apply andb_true_iff in H. destruct H as [H H40].
  apply andb_true_iff in H. destruct H as [Hall H7].
  apply Nat.leb_le in H7, H40. auto.
Qed.

End StringFacts.

(** ** getCommitInfo *)

Section CommitInfoFacts.

Variables (v : variant) (E : Engine) (W : World) (fs : store).

(** What [getCommitInfo] puts in the entry it returns. *)
Lemma getCommitInfo_fields (h : string) (e : entry) :
  getCommitInfo v E W fs h = Some e ->
  sha e = h
  /\ Commit.url (commit e) =
       (if Str.is_empty (getRemoteHttpUrl W) then EmptyString
        else getRemoteHttpUrl W ++ "/commit/" ++ h)
  /\ Stats.additions (stats e) = fst (diff_stats v W h)
  /\ Stats.deletions (stats e) = snd (diff_stats v W h)
  /\ Stats.total (stats e) = (fst (diff_stats v W h) + snd (diff_stats v W h))%N
  /\ coverage e = Tests.coverage (run_tests v E W fs)
  /\ test_count e = Tests.testCount (run_tests v E W fs)
  /\ failed_tests e = Tests.failedTests (run_tests v E W fs)
  /\ conclusion e = Tests.conclusion (run_tests v E W fs)
  /\ branch e = match sh W "git rev-parse --abbrev-ref HEAD" with
                | Some b => b
                | None => EmptyString
                end.
Proof.
  unfold getCommitInfo.
  destruct (sh W ("git log -1 --pretty=%B " ++ h)); [|discriminate].
  destruct (sh W ("git log -1 --pretty=%cI " ++ h)); [|discriminate].
  destruct (sh W ("git log -1 --pretty=%an " ++ h)); [|discriminate].
  destruct (diff_stats v W h) as [a d].
  intros [= <-]. cbn. repeat split; reflexivity.
Qed.

(** An entry built for a sha that passed the gate passes the tests on
    the sha and on the URL. *)
Lemma built_entry_passes_head (h : string) (e : entry) :
  getCommitInfo v E W fs h = Some e ->
  sha_gate h = true ->
  check_head e = Ok tt.
Proof.
  intros He Hg.
  destruct (getCommitInfo_fields h e He) as (Hs & Hu & _).
  destruct (sha_gate_hex h Hg) as [Hhex Hlen].
  unfold check_head. rewrite Hs, Hu.
  destruct (String.eqb h "HEAD") eqn:Hh.
  { apply String.eqb_eq in Hh. now apply sha_gate_not_HEAD in Hg. }
  destruct (Str.is_empty (getRemoteHttpUrl W)); [reflexivity|].
  set (u := getRemoteHttpUrl W ++ "/commit/" ++ h).
  assert (Hend : Str.ends_with h u = true).
  { unfold u.
    rewrite <- append_assoc. apply ends_with_app. }
  destruct (Str.ends_with "/commit/HEAD" u) eqn:Hhead.
  { exfalso.
    assert (H4 : Str.ends_with "HEAD" u = true)
      by (apply (ends_with_trans "HEAD" "/commit/HEAD" u); [reflexivity | exact Hhead]).
    assert (Hin : Str.ends_with "HEAD" h = true)
      by (apply (ends_with_chain "HEAD" h u H4 Hend); cbn [String.length]; lia).
    pose proof (all_ends_with Str.is_hex_i "HEAD" h Hin Hhex) as Hbad.
    discriminate Hbad. }
  rewrite Hend.
  destruct (Str.is_empty u); reflexivity.
Qed.

End CommitInfoFacts.

(** C9.  For every record [getCommitInfo] returns, [commit.url] is empty or
    is the remote URL followed by [/commit/] and the record's sha; and when
    the sha passed the hexadecimal gate, the tests of the validation on the
    sha and on the URL all pass, so neither "the URL ends in /commit/HEAD"
    nor "the URL does not end in the sha" can be raised. *)
Theorem C9_commit_url_ends_in_sha
    (v : variant) (E : Engine) (W : World) (fs : store) (h : string) (e : entry) :
  getCommitInfo v E W fs h = Some e ->
  sha_gate h = true ->
  (Commit.url (commit e) = EmptyString
   \/ Commit.url (commit e) = getRemoteHttpUrl W ++ "/commit/" ++ sha e)
  /\ check_head e = Ok tt
  /\ validateEntry e <> Throw (InvalidEntry UrlEndsInHead)
  /\ validateEntry e <> Throw (InvalidEntry UrlNotSha).
Proof.
  intros He Hg.
  pose proof (built_entry_passes_head v E W fs h e He Hg) as Hok.
  destruct (getCommitInfo_fields v E W fs h e He) as (Hs & Hu & _).
  split; [|split; [exact Hok|]].
  - rewrite Hu, Hs. destruct (Str.is_empty (getRemoteHttpUrl W)); auto.
  - unfold validateEntry. rewrite Hok. cbn [rbind].
    destruct (Str.is_empty (branch e)); split; discriminate.
Qed.

Lemma C9_commit_url_ends_in_sha_witness :
  exists e : entry,
    getCommitInfo BranchMain iso_engine (root_world BranchMain "first commit" None) project sample_sha
      = Some e
    /\ Commit.url (commit e)
       = "https://github.com/Oswi142/proyecto-base/commit/0123456789abcdef0123456789abcdef01234567"
    /\ check_head e = Ok tt.
Proof.
  eexists. split; [vm_compute; reflexivity|].
  split; [reflexivity|].
  eapply (C9_commit_url_ends_in_sha BranchMain iso_engine
            (root_world BranchMain "first commit" None) project sample_sha);
    vm_compute; reflexivity.
Defined.

(** ** The test report *)

Section ReportFacts.

Variable E : Engine.

Lemma chars_length (s : string) : List.length (chars s) = String.length s.
Proof. induction s as [|c s IH]; cbn; [reflexivity | now rewrite IH]. Qed.

(** [Object.keys(s)] and [Object.values(s)] have the same length. *)
Lemma keys_values_length (s : value) (n : nat) (l : list json) :
  keys_length s = Ok n -> Object_values s = Ok l -> List.length l = n.
Proof.
  destruct s as [[| b | q | str | arr | kv]|]; cbn; intros [= <-] [= <-];
    try reflexivity.
  - apply chars_length.
  - apply List.length_map.
Qed.

Lemma counters_inv (file : json) (hits : list json) :
  counters file = Ok hits ->
  exists s, get (Some file) "s" = Ok s
            /\ keys_length s = Ok (List.length hits)
            /\ Object_values s = Ok hits.
Proof.
  unfold counters. destruct (get (Some file) "s") as [s|]; [|discriminate].
  cbn [rbind]. destruct (keys_length s) as [n|] eqn:Hk; [|discriminate].
  cbn [rbind]. intros Hv. exists s.
  rewrite <- (keys_values_length s n hits Hk Hv) in Hk. auto.
Qed.

Lemma covered_in_app (a b : list json) :
  covered_in E (a ++ b) = (covered_in E a + covered_in E b)%nat.
Proof. unfold covered_in. now rewrite List.filter_app, List.length_app. Qed.

Lemma covered_in_le (hits : list json) :
  (covered_in E hits <= List.length hits)%nat.
Proof. apply List.filter_length_le. Qed.

(** The loop, when it ends, has counted the counters of all the files. *)
Lemma count_files_ok (files : list json) (c0 t0 c t : nat) :
  count_files E files c0 t0 = Ok (c, t) ->
  exists hitss : list (list json),
    Forall2 (fun f h => counters f = Ok h) files hitss
    /\ c = (c0 + covered_in E (concat hitss))%nat
    /\ t = (t0 + List.length (concat hitss))%nat.
Proof.
  revert c0 t0. induction files as [|file rest IH]; intros c0 t0; cbn [count_files].
  - intros [= <- <-]. exists []. cbn. repeat split; [constructor | lia | lia].
  - destruct (get (Some file) "s") as [s|] eqn:Hs; [|discriminate]. cbn [rbind].
    destruct (keys_length s) as [n|] eqn:Hk; [|discriminate]. cbn [rbind].
    destruct (Object_values s) as [hits|] eqn:Hv; [|discriminate]. cbn [rbind].
    intros H. destruct (IH _ _ H) as (hitss & HF & Hc & Ht).
    exists (hits :: hitss). split; [|split].
    + constructor; [|exact HF].
      unfold counters. rewrite Hs. cbn [rbind]. rewrite Hk. cbn [rbind]. exact Hv.
    + cbn [concat]. rewrite covered_in_app. fold (covered_in E hits) in Hc. lia.
    + cbn [concat]. rewrite List.length_app.
      pose proof (keys_values_length s n hits Hk Hv). lia.
Qed.

(** The loop ends when every file has counters to read. *)
Lemma count_files_complete (files : list json) (hitss : list (list json)) :
  Forall2 (fun f h => counters f = Ok h) files hitss ->
  forall c0 t0,
    count_files E files c0 t0
    = Ok ((c0 + covered_in E (concat hitss))%nat, (t0 + List.length (concat hitss))%nat).
Proof.
  induction 1 as [|file hits files hitss Hf HF IH]; intros c0 t0; cbn [count_files concat].
  - unfold covered_in. cbn. do 2 f_equal; lia.
  - destruct (counters_inv file hits Hf) as (s & Hs & Hk & Hv).
    rewrite Hs. cbn [rbind]. rewrite Hk. cbn [rbind]. rewrite Hv. cbn [rbind].
    rewrite IH, covered_in_app, List.length_app.
    unfold covered_in. do 2 f_equal; lia.
Qed.

Lemma count_files_le (files : list json) (c t : nat) :
  count_files E files 0 0 = Ok (c, t) -> (c <= t)%nat.
Proof.
  intros H. destruct (count_files_ok _ _ _ _ _ H) as (hitss & _ & -> & ->).
  pose proof (covered_in_le (concat hitss)). lia.
Qed.

End ReportFacts.

(** ** Binary64 rounding *)

Section Binary64.

Local Open Scope Q_scope.

Lemma half_even_close (num den : Z) :
  (0 < den)%Z ->
  (- den <= 2 * (half_even num den * den - num) <= den)%Z.
Proof.
  intros Hd. unfold half_even.
  pose proof (Z.div_mod num den ltac:(lia)) as Hdm.
  pose proof (Z.mod_pos_bound num den Hd) as Hr.
  destruct (2 * (num mod den) ?= den)%Z eqn:Hc.
  - apply Z.compare_eq in Hc. destruct (Z.even (num / den)); nia.
  - rewrite Z.compare_lt_iff in Hc. nia.
  - rewrite Z.compare_gt_iff in Hc. nia.
Qed.

(** The nearest integer is within one half. *)
Lemma nearest_even_close (s : Q) :
  Qabs (inject_Z (nearest_even s) - s) <= 1 # 2.
Proof.
  unfold nearest_even. destruct s as [n d].
  pose proof (half_even_close n (Zpos d) ltac:(lia)) as H.
  cbn [Qnum Qden] in *. set (m := half_even n (Z.pos d)) in *.
  apply Qabs_Qle_condition. unfold Qle, Qminus, Qplus, Qopp, inject_Z. cbn.
  split; nia.
Qed.

Lemma pow2_pos (z : Z) : 0 < pow2 z.
Proof. apply Qpower_0_lt. reflexivity. Qed.

Lemma pow2_add (a b : Z) : pow2 (a + b) == pow2 a * pow2 b.
Proof. apply Qpower_plus. discriminate. Qed.

Lemma pow2_Z (z : Z) : (0 <= z)%Z -> pow2 z == inject_Z (2 ^ z).
Proof. intros H. unfold pow2. rewrite Zpower_Qpower by exact H. reflexivity. Qed.

Lemma Q_as_quotient (q : Q) : q == inject_Z (Qnum q) / inject_Z (Z.pos (Qden q)).
Proof. destruct q as [n d]. cbn [Qnum Qden]. rewrite Qmake_Qdiv. reflexivity. Qed.

(** [exponent q] is the exponent of the binade of [q]:
    [2 ^ exponent q <= q < 2 ^ (exponent q + 1)]. *)
Lemma exponent_le (q : Q) : 0 < q -> pow2 (exponent q) <= q.
Proof.
  intros Hq. unfold exponent.
  set (ln := Z.log2 (Qnum q)). set (ld := Z.log2 (Z.pos (Qden q))).
  destruct (Qle_bool (pow2 (ln - ld)) q) eqn:Ht.
  - apply Qle_bool_iff. exact Ht.
  - assert (Hn : (0 < Qnum q)%Z).
    { destruct q as [n d]. unfold Qlt in Hq. cbn in *. lia. }
    pose proof (Z.log2_spec (Qnum q) Hn) as [Hn1 _].
    pose proof (Z.log2_spec (Z.pos (Qden q)) ltac:(lia)) as [_ Hd2].
    pose proof (Z.log2_nonneg (Qnum q)) as Hln.
    pose proof (Z.log2_nonneg (Z.pos (Qden q))) as Hld.
    fold ln in Hn1, Hln. fold ld in Hd2, Hld.
    assert (Hp : pow2 (ln - ld - 1) * inject_Z (2 ^ Z.succ ld) == inject_Z (2 ^ ln)).
    { rewrite <- !pow2_Z by lia. rewrite <- pow2_add.
      replace (ln - ld - 1 + Z.succ ld)%Z with ln by lia. reflexivity. }
    rewrite (Q_as_quotient q).
    apply Qle_shift_div_l.
    { change 0 with (inject_Z 0). rewrite <- Zlt_Qlt. lia. }
    apply Qle_trans with (pow2 (ln - ld - 1) * inject_Z (2 ^ Z.succ ld)).
    + apply Qmult_le_l; [apply pow2_pos|]. rewrite <- Zle_Qle. lia.
    + rewrite Hp. rewrite <- Zle_Qle. exact Hn1.
Qed.

Lemma exponent_lt (q : Q) : 0 < q -> q < pow2 (exponent q + 1).
Proof.
  intros Hq. unfold exponent.
  set (ln := Z.log2 (Qnum q)). set (ld := Z.log2 (Z.pos (Qden q))).
  destruct (Qle_bool (pow2 (ln - ld)) q) eqn:Ht.
  - assert (Hn : (0 < Qnum q)%Z).
    { destruct q as [n d]. unfold Qlt in Hq. cbn in *. lia. }
    pose proof (Z.log2_spec (Qnum q) Hn) as [_ Hn2].
    pose proof (Z.log2_spec (Z.pos (Qden q)) ltac:(lia)) as [Hd1 _].
    pose proof (Z.log2_nonneg (Qnum q)) as Hln.
    pose proof (Z.log2_nonneg (Z.pos (Qden q))) as Hld.
    fold ln in Hn2, Hln. fold ld in Hd1, Hld.
    assert (Hp : pow2 (ln - ld + 1) * inject_Z (2 ^ ld) == inject_Z (2 ^ Z.succ ln)).
    { rewrite <- !pow2_Z by lia. rewrite <- pow2_add.
      replace (ln - ld + 1 + ld)%Z with (Z.succ ln) by lia. reflexivity. }
    rewrite (Q_as_quotient q) at 1.
    apply Qlt_shift_div_r.
    { change 0 with (inject_Z 0). rewrite <- Zlt_Qlt. lia. }
    apply Qlt_le_trans with (pow2 (ln - ld + 1) * inject_Z (2 ^ ld)).
    + rewrite Hp. rewrite <- Zlt_Qlt. exact Hn2.
    + apply Qmult_le_l; [apply pow2_pos|]. rewrite <- Zle_Qle. exact Hd1.
  - replace (ln - ld - 1 + 1)%Z with (ln - ld)%Z by lia.
    apply Qnot_le_lt. intros H. apply Qle_bool_iff in H. congruence.
Qed.

Lemma pow2_u53 : pow2 (-53) == u53.
Proof. reflexivity. Qed.

(** A rounding moves a number by at most its unit roundoff. *)
Lemma fl_error (q : Q) : Qabs (fl q - q) <= Qabs q * u53.
Proof.
  rewrite <- pow2_u53.
  unfold fl. destruct (Qeq_bool q 0) eqn:Hz.
  - apply Qeq_bool_iff in Hz. rewrite Hz. cbn. discriminate.
  - assert (Hne : ~ q == 0).
    { intros H. apply Qeq_bool_iff in H. congruence. }
    assert (Hpos : 0 < Qabs q).
    { destruct (Q_dec q 0) as [[Hlt|Hgt]|Heq]; [| |contradiction].
      - rewrite Qabs_neg by lra. lra.
      - rewrite Qabs_pos by lra. lra. }
    set (e := (exponent (Qabs q) - 52)%Z).
    set (s := q / pow2 e).
    pose proof (nearest_even_close s) as Hm.
    pose proof (pow2_pos e) as He.
    assert (Hq : q == s * pow2 e).
    { unfold s. field. lra. }
    assert (Hdiff : inject_Z (nearest_even s) * pow2 e - q
                    == (inject_Z (nearest_even s) - s) * pow2 e).
    { rewrite Hq at 1. ring. }
    rewrite Hdiff, Qabs_Qmult, (Qabs_pos (pow2 e)) by lra.
    pose proof (exponent_le (Qabs q) Hpos) as Hexp.
    assert (Hu : pow2 e * (1 # 2) == pow2 (exponent (Qabs q)) * pow2 (-53)).
    { unfold e. rewrite <- pow2_add.
      replace (exponent (Qabs q) + -53)%Z with ((exponent (Qabs q) - 52) + -1)%Z by lia.
      rewrite pow2_add. reflexivity. }
    apply Qle_trans with ((1 # 2) * pow2 e).
    + apply Qmult_le_compat_r; [exact Hm | lra].
    + rewrite Qmult_comm, Hu. apply Qmult_le_compat_r; [exact Hexp|].
      apply Qlt_le_weak. apply pow2_pos.
Qed.

Lemma fl_bounds (q : Q) :
  0 <= q -> q * (1 - u53) <= fl q /\ fl q <= q * (1 + u53).
Proof.
  intros Hq. pose proof (fl_error q) as H.
  rewrite (Qabs_pos q Hq) in H.
  apply Qabs_Qle_condition in H. destruct H as [H1 H2].
  split; lra.
Qed.

(** [fl] against the binary64 arithmetic of the proof assistant, on the
    products the examples below use. *)
Example fl_agrees_with_binary64 :
  fl (fl (ratio 23 160 * inject_Z 100) * inject_Z 100)
    == Q_of_float (float_product Tracker 23 160)
  /\ fl (ratio 57 800 * inject_Z 10000) == Q_of_float (float_product BranchMain 57 800)
  /\ fl (fl (ratio 6 7 * inject_Z 100) * inject_Z 100)
     == Q_of_float (float_product GlobalBranch 6 7)
  /\ fl (ratio 6 7 * inject_Z 10000) == Q_of_float (float_product BranchMain 6 7)
  /\ fl (ratio 1 3 * inject_Z 10000) == Q_of_float (float_product BranchMain 1 3).
Proof. repeat split; vm_compute; reflexivity. Qed.

End Binary64.

(** ** Rounding to two decimals *)

Section Rounding.

Local Open Scope Q_scope.

(** The exact quotient of the two counters. *)
Lemma quotient_bounds (c t : nat) :
  (c <= t)%nat -> (0 < t)%nat ->
  0 <= inject_Z (Z.of_nat c) / inject_Z (Z.of_nat t) <= 1.
Proof.
  intros Hle Hpos.
  assert (Ht : 0 < inject_Z (Z.of_nat t)).
  { change 0 with (inject_Z 0). rewrite <- Zlt_Qlt. lia. }
  split.
  - apply Qle_shift_div_l; [exact Ht|]. rewrite Qmult_0_l.
    change 0 with (inject_Z 0). rewrite <- Zle_Qle. lia.
  - apply Qle_shift_div_r; [exact Ht|]. rewrite Qmult_1_l.
    rewrite <- Zle_Qle. lia.
Qed.

(** [round2 x] is a whole number of hundredths, within half a hundredth
    of [x], halves upwards. *)
Lemma round2_close (x : Q) :
  x - (1 # 200) < round2 x /\ round2 x <= x + (1 # 200).
Proof.
  unfold round2.
  pose proof (Qfloor_le (x * inject_Z 100 + (1 # 2))) as Hlo.
  pose proof (Qlt_floor (x * inject_Z 100 + (1 # 2))) as Hhi.
  rewrite inject_Z_plus in Hhi.
  set (f := inject_Z (Qfloor (x * inject_Z 100 + (1 # 2)))) in *.
  change (inject_Z 100) with (100 # 1) in *. change (inject_Z 1) with 1 in *.
  split.
  - apply Qlt_shift_div_l; [reflexivity|]. lra.
  - apply Qle_shift_div_r; [reflexivity|]. lra.
Qed.

(** Two numbers less than one apart have floors at most one apart. *)
Lemma floor_near (x y : Q) : x <= y + 1 -> (Qfloor x <= Qfloor y + 1)%Z.
Proof.
  intros H.
  pose proof (Qfloor_le x) as Hx. pose proof (Qlt_floor y) as Hy.
  rewrite inject_Z_plus in Hy. change (inject_Z 1) with 1 in Hy.
  assert (Hlt : inject_Z (Qfloor x) < inject_Z (Qfloor y + 2)).
  { rewrite inject_Z_plus. change (inject_Z 2) with 2. lra. }
  rewrite <- Zlt_Qlt in Hlt. lia.
Qed.

(** The product the scripts round with [Math.round], against the exact
    product [10000 * covered / total]: three roundings at most lie between
    them. *)
Lemma product_near (v : variant) (c t : nat) :
  (c <= t)%nat -> (0 < t)%nat ->
  let exact := inject_Z (Z.of_nat c) / inject_Z (Z.of_nat t) * inject_Z 100 * inject_Z 100 in
  let computed :=
    match v with
    | BranchMain => fl (ratio c t * inject_Z 10000)
    | Tracker | GlobalBranch => fl (fl (ratio c t * inject_Z 100) * inject_Z 100)
    end in
  0 <= computed /\ Qabs (computed - exact) <= 1 # 1000000000.
Proof.
  intros Hle Hpos exact computed.
  destruct (quotient_bounds c t Hle Hpos) as [Hr0 Hr1].
  unfold ratio in computed.
  set (r := inject_Z (Z.of_nat c) / inject_Z (Z.of_nat t)) in *.
  destruct (fl_bounds r Hr0) as [Ha1 Ha2].
  set (x := fl r) in *.
  unfold u53 in *.
  assert (Hx0 : 0 <= x) by lra.
  subst exact computed.
  change (inject_Z 10000) with (10000 # 1). change (inject_Z 100) with (100 # 1).
  destruct v.
  - assert (Hy0 : 0 <= x * (100 # 1)) by lra.
    destruct (fl_bounds _ Hy0) as [Hb1 Hb2]. unfold u53 in *.
    set (y := fl (x * (100 # 1))) in *.
    assert (Hz0 : 0 <= y * (100 # 1)) by lra.
    destruct (fl_bounds _ Hz0) as [Hc1 Hc2]. unfold u53 in *.
    set (z := fl (y * (100 # 1))) in *.
    split; [lra|]. apply Qabs_Qle_condition. split; lra.
  - assert (Hy0 : 0 <= x * (10000 # 1)) by lra.
    destruct (fl_bounds _ Hy0) as [Hb1 Hb2]. unfold u53 in *.
    set (y := fl (x * (10000 # 1))) in *.
    split; [lra|]. apply Qabs_Qle_condition. split; lra.
  - assert (Hy0 : 0 <= x * (100 # 1)) by lra.
    destruct (fl_bounds _ Hy0) as [Hb1 Hb2]. unfold u53 in *.
    set (y := fl (x * (100 # 1))) in *.
    assert (Hz0 : 0 <= y * (100 # 1)) by lra.
    destruct (fl_bounds _ Hz0) as [Hc1 Hc2]. unfold u53 in *.
    set (z := fl (y * (100 # 1))) in *.
    split; [lra|]. apply Qabs_Qle_condition. split; lra.
Qed.

(** The hundredths the scripts compute lie between 0 and 10000, and at
    most one away from the hundredths of the exact percentage. *)
Lemma hundredths_spec (v : variant) (c t : nat) :
  (c <= t)%nat -> (0 < t)%nat ->
  let exact :=
    Qfloor (inject_Z (Z.of_nat c) / inject_Z (Z.of_nat t) * inject_Z 100 * inject_Z 100
            + (1 # 2)) in
  (0 <= hundredths v c t <= 10000)%Z
  /\ (exact - 1 <= hundredths v c t <= exact + 1)%Z.
Proof.
  intros Hle Hpos exact.
  destruct (quotient_bounds c t Hle Hpos) as [Hr0 Hr1].
  destruct (product_near v c t Hle Hpos) as [Hp0 Hnear].
  apply Qabs_Qle_condition in Hnear. destruct Hnear as [Hn1 Hn2].
  set (r := inject_Z (Z.of_nat c) / inject_Z (Z.of_nat t)) in *.
  assert (Hh : hundredths v c t
               = Math_round match v with
                            | BranchMain => fl (ratio c t * inject_Z 10000)
                            | Tracker | GlobalBranch =>
                                fl (fl (ratio c t * inject_Z 100) * inject_Z 100)
                            end)
    by (destruct v; reflexivity).
  rewrite Hh. clear Hh.
  set (p := match v with
            | BranchMain => fl (ratio c t * inject_Z 10000)
            | Tracker | GlobalBranch => fl (fl (ratio c t * inject_Z 100) * inject_Z 100)
            end) in *.
  unfold Math_round. subst exact.
  change (inject_Z 100) with (100 # 1) in *.
  repeat split.
  - change 0%Z with (Qfloor 0). apply Qfloor_resp_le. lra.
  - change 10000%Z with (Qfloor (10000 + (3 # 4))). apply Qfloor_resp_le. lra.
  - assert (H := floor_near (r * (100 # 1) * (100 # 1) + (1 # 2)) (p + (1 # 2))
                   ltac:(lra)). lia.
  - apply floor_near. lra.
Qed.

Lemma coverage_pct_bounds (v : variant) (c t : nat) :
  (c <= t)%nat -> (0 < t)%nat -> 0 <= coverage_pct v c t <= 100.
Proof.
  intros Hle Hpos. destruct (hundredths_spec v c t Hle Hpos) as [[H0 H1] _].
  unfold coverage_pct. split.
  - apply Qle_shift_div_l; [reflexivity|]. rewrite Qmult_0_l.
    change 0 with (inject_Z 0). rewrite <- Zle_Qle. exact H0.
  - apply Qle_shift_div_r; [reflexivity|].
    change (100 * inject_Z 100) with (inject_Z 10000). rewrite <- Zle_Qle. exact H1.
Qed.

(** The binary64 number nearest to a number of hundredths between 0 and
    10000, which is what the record holds in memory, lies between 0 and 100
    as well. *)
Lemma fl_hundredths_bounds (n : Z) :
  (0 <= n <= 10000)%Z -> 0 <= fl (inject_Z n / inject_Z 100) <= 100.
Proof.
  intros [H0 H1].
  destruct (Z.eq_dec n 10000%Z) as [->|Hn].
  - vm_compute. split; discriminate.
  - assert (Hq0 : 0 <= inject_Z n) by (change 0 with (inject_Z 0); rewrite <- Zle_Qle; lia).
    assert (Hq1 : inject_Z n <= inject_Z 9999) by (rewrite <- Zle_Qle; lia).
    change (inject_Z 9999) with (9999 # 1) in Hq1.
    assert (Hpos : 0 <= inject_Z n / inject_Z 100).
    { unfold Qdiv. change (/ inject_Z 100) with (1 # 100). lra. }
    destruct (fl_bounds _ Hpos) as [Hlo Hhi]. unfold u53 in *.
    unfold Qdiv in *. change (/ inject_Z 100) with (1 # 100) in *.
    split; lra.
Qed.

Lemma coverage_pct_fl_bounds (v : variant) (c t : nat) :
  (c <= t)%nat -> (0 < t)%nat -> 0 <= fl (coverage_pct v c t) <= 100.
Proof.
  intros Hle Hpos. destruct (hundredths_spec v c t Hle Hpos) as [H _].
  unfold coverage_pct. apply fl_hundredths_bounds. exact H.
Qed.

(** The coverage of the scripts is within one hundredth of the exact
    percentage rounded to two decimals. *)
Lemma coverage_pct_near (v : variant) (c t : nat) :
  (c <= t)%nat -> (0 < t)%nat ->
  Qabs (coverage_pct v c t
        - round2 (inject_Z (Z.of_nat c) / inject_Z (Z.of_nat t) * inject_Z 100))
  <= 1 # 100.
Proof.
  intros Hle Hpos. destruct (hundredths_spec v c t Hle Hpos) as [_ [H0 H1]].
  unfold coverage_pct, round2.
  set (n := hundredths v c t) in *.
  set (m := Qfloor (inject_Z (Z.of_nat c) / inject_Z (Z.of_nat t) * inject_Z 100 * inject_Z 100
                    + (1 # 2))) in *.
  assert (Hn1 : inject_Z (m + -1) <= inject_Z n) by (rewrite <- Zle_Qle; lia).
  assert (Hn2 : inject_Z n <= inject_Z (m + 1)) by (rewrite <- Zle_Qle; lia).
  rewrite inject_Z_plus in Hn1, Hn2.
  change (inject_Z (-1)) with (-1 # 1) in Hn1. change (inject_Z 1) with 1 in Hn2.
  change (inject_Z 100) with (100 # 1).
  unfold Qdiv. change (/ (100 # 1)) with (1 # 100).
  apply Qabs_Qle_condition. split; lra.
Qed.

End Rounding.

(** ** Reading the report *)

Ltac unfold_report :=
  unfold read_report, bind, lift, modify, gets, when, ret, throw;
  cbn [JSON_parse fst snd].

Ltac split_report :=
  repeat match goal with
         | |- context [match ?x with _ => _ end] =>
             lazymatch x with
             | context [match _ with _ => _ end] => fail
             | _ => destruct x eqn:?
             end
         | |- context [if ?b then _ else _] =>
             lazymatch b with
             | context [if _ then _ else _] => fail
             | context [match _ with _ => _ end] => fail
             | _ => destruct b eqn:?
             end
         end.

Section ReadReport.

Variables (v : variant) (E : Engine).

(** A value with one readable property is neither [null] nor [undefined]:
    all its properties can be read. *)
Lemma get_total (r : json) (k k' : string) (x : value) :
  get (Some r) k = Ok x -> exists y, get (Some r) k' = Ok y.
Proof. destruct r; cbn; intros H; try discriminate; eauto. Qed.

(** After the test section the coverage is 0, or it is the rounded
    percentage of two counters, the first at most the second. *)
Lemma read_report_coverage_cases (report : content) :
  let t := fst (read_report v E report Tests.initial) in
  Tests.coverage t = 0%Q
  \/ exists c tot : nat,
      (c <= tot)%nat /\ (0 < tot)%nat /\ Tests.coverage t = coverage_pct v c tot.
Proof.
  unfold_report. destruct report as [|r]; cbn [JSON_parse]; [left; reflexivity|].
  split_report; cbn; try (left; reflexivity).
  right.
  match goal with
  | H : count_files E _ 0 0 = Ok ?p |- _ =>
      destruct p as [c tot]; exists c, tot; cbn [fst snd] in *;
      split; [exact (count_files_le E _ _ _ H)|]
  end.
  split; [|reflexivity].
  match goal with H : Nat.ltb 0 _ = true |- _ => apply Nat.ltb_lt in H; exact H end.
Qed.

(** When the body of the [try] runs to its end, the verdict is the one
    computed from the two counts that are stored. *)
Lemma read_report_conclusion_ok (report : content) :
  snd (read_report v E report Tests.initial) = Ok tt ->
  let t := fst (read_report v E report Tests.initial) in
  Tests.conclusion t = conclude E (Tests.testCount t) (Tests.failedTests t).
Proof.
  unfold_report. destruct report as [|r]; cbn [JSON_parse]; [discriminate|].
  split_report; cbn; intros H; try discriminate; reflexivity.
Qed.

(** When it is left by an exception, the verdict is still the initial one. *)
Lemma read_report_conclusion_thrown (report : content) (err : error) :
  snd (read_report v E report Tests.initial) = Throw err ->
  Tests.conclusion (fst (read_report v E report Tests.initial)) = "neutral".
Proof.
  unfold_report. destruct report as [|r]; cbn [JSON_parse]; [reflexivity|].
  split_report; cbn; intros H; try discriminate; reflexivity.
Qed.

(** The coverage of a report whose files all have counters. *)
Lemma read_report_coverage
    (r : json) (cm : value) (files : list json) (hitss : list (list json)) :
  get (Some r) "coverageMap" = Ok cm ->
  truthy cm = true ->
  Object_values cm = Ok files ->
  Forall2 (fun f h => counters f = Ok h) files hitss ->
  Tests.coverage (fst (read_report v E (Json r) Tests.initial))
  = if Nat.ltb 0 (List.length (concat hitss))
    then coverage_pct v (covered_in E (concat hitss)) (List.length (concat hitss))
    else 0%Q.
Proof.
  intros Hcm Ht Hv HF.
  destruct (get_total r _ "numTotalTests" _ Hcm) as [n Hn].
  destruct (get_total r _ "numFailedTests" _ Hcm) as [f Hf].
  unfold_report. rewrite Hn, Hf, Hcm, Ht, Hv.
  rewrite (count_files_complete E files hitss HF 0 0). cbn [fst snd Nat.add].
  destruct (Nat.ltb 0 (List.length (concat hitss))); reflexivity.
Qed.

(** The coverage of a report without a usable coverage map. *)
Lemma read_report_no_map (report : content) :
  (forall r cm, report = Json r -> get (Some r) "coverageMap" = Ok cm ->
                truthy cm = false) ->
  Tests.coverage (fst (read_report v E report Tests.initial)) = 0%Q.
Proof.
  intros H. unfold_report. destruct report as [|r]; cbn [JSON_parse]; [reflexivity|].
  destruct (get (Some r) "numTotalTests"); [|reflexivity].
  destruct (get (Some r) "numFailedTests"); [|reflexivity].
  destruct (get (Some r) "coverageMap") as [cm|] eqn:Hcm; [|reflexivity].
  rewrite (H r cm eq_refl Hcm). reflexivity.
Qed.

End ReadReport.

(** On counts that are numbers and not negative, the verdict of the
    scripts is the verdict of the specification. *)
Lemma conclude_spec (E : Engine) (q : Q) (f : json) :
  (0 <= q)%Q -> conclude E (JNum q) f = spec_conclusion E (JNum q) f.
Proof.
  intros Hq. unfold conclude, spec_conclusion. cbn [gt0].
  destruct (Qeq_bool q 0) eqn:Hz.
  - apply Qeq_bool_iff in Hz.
    assert (Hle : Qle_bool q 0 = true) by (apply Qle_bool_iff; rewrite Hz; apply Qle_refl).
    now rewrite Hle.
  - assert (Hle : Qle_bool q 0 = false).
    { destruct (Qle_bool q 0) eqn:Hle; [|reflexivity].
      apply Qle_bool_iff in Hle.
      assert (Heq : (q == 0)%Q) by (apply Qle_antisym; assumption).
      apply Qeq_bool_iff in Heq. congruence. }
    now rewrite Hle.
Qed.

(** When the test section runs without an exception, the record carries
    the verdict computed from its own counts. *)
Lemma conclusion_without_exception
    (v : variant) (E : Engine) (W : World) (fs : store) (h : string) (e : entry)
    (report : content) :
  getCommitInfo v E W fs h = Some e ->
  is_Some (fs !! "package.json") ->
  jest_report W = Some report ->
  snd (read_report v E report Tests.initial) = Ok tt ->
  conclusion e = conclude E (test_count e) (failed_tests e).
Proof.
  intros He Hp Hr Hok.
  destruct (getCommitInfo_fields v E W fs h e He)
    as (_ & _ & _ & _ & _ & _ & Htc & Hft & Hc & _).
  rewrite Hc, Htc, Hft. unfold run_tests.
  rewrite bool_decide_eq_true_2 by exact Hp. rewrite Hr.
  apply read_report_conclusion_ok. exact Hok.
Qed.

(** C1.  The verdict is assigned after the loop over the coverage map, and
    the counts before it.  On a report with three tests, one of them
    failed, whose coverage map lists a file without statement counters,
    [Object.keys(undefined)] throws inside the loop: on branch [dev] every
    script returns, and writes to its history file, a record with
    [test_count = 3], [failed_tests = 1] and the verdict ["neutral"], where
    the rule of the specification gives ["failure"]. *)
Theorem C1_verdict_stale_after_exception (v : variant) (E : Engine) :
  let W := root_world_on "dev" v "first commit" (Some report_without_counters) in
  let file := match v with
              | Tracker | GlobalBranch => DATA_FILE
              | BranchMain => "script/commit-history-dev.json"
              end in
  exists e : entry,
    getCommitInfo v E W project sample_sha = Some e
    /\ test_count e = JNum (3 # 1)
    /\ failed_tests e = JNum (1 # 1)
    /\ conclusion e = "neutral"
    /\ spec_conclusion E (test_count e) (failed_tests e) = "failure"
    /\ fst (run v E W project) = 0%Z
    /\ snd (run v E W project) !! file = Some (Json (JArr [entry_json e])).
Proof.
  destruct v; cbv zeta; eexists;
    (split; [vm_compute; reflexivity|]); repeat split; vm_compute; reflexivity.
Qed.

(** C10.  In every record [getCommitInfo] returns the coverage lies
    between 0 and 100: the loop never counts more covered counters than
    counters, so the quotient is at most 1 and, through the binary64
    roundings and [Math.round], the hundredths are at most 10000 (and the
    binary64 number nearest to them is at most 100); without a
    [package.json] or without a report the coverage stays 0. *)
Theorem C10_coverage_between_0_and_100
    (v : variant) (E : Engine) (W : World) (fs : store) (h : string) (e : entry) :
  getCommitInfo v E W fs h = Some e ->
  (0 <= coverage e <= 100)%Q
  /\ (0 <= fl (coverage e) <= 100)%Q
  /\ (forall files c t, count_files E files 0 0 = Ok (c, t) -> (c <= t)%nat)
  /\ (fs !! "package.json" = None \/ jest_report W = None -> coverage e = 0%Q).
Proof.
  intros He.
  destruct (getCommitInfo_fields v E W fs h e He) as (_ & _ & _ & _ & _ & Hc & _).
  assert (Hcases : coverage e = 0%Q
                   \/ exists c tot : nat,
                       (c <= tot)%nat /\ (0 < tot)%nat /\ coverage e = coverage_pct v c tot).
  { rewrite Hc. unfold run_tests.
    destruct (bool_decide (is_Some (fs !! "package.json"))); [|now left].
    destruct (jest_report W) as [report|]; [|now left].
    apply read_report_coverage_cases. }
  split; [|split; [|split]].
  - destruct Hcases as [-> | (c & tot & Hle & Hpos & ->)]; [split; lra|].
    apply coverage_pct_bounds; assumption.
  - destruct Hcases as [-> | (c & tot & Hle & Hpos & ->)]; [vm_compute; split; discriminate|].
    apply coverage_pct_fl_bounds; assumption.
  - intros files c t. apply count_files_le.
  - rewrite Hc. unfold run_tests. intros [Hp | Hr].
    + rewrite bool_decide_eq_false_2; [reflexivity|].
      rewrite Hp. intros [x Hx]. discriminate Hx.
    + rewrite Hr. destruct (bool_decide _); reflexivity.
Qed.

Lemma C10_coverage_between_0_and_100_witness :
  exists e : entry,
    getCommitInfo BranchMain iso_engine
      (root_world BranchMain "first commit" (Some report_two_files)) project sample_sha = Some e
    /\ coverage e = (8571 # 100)%Q
    /\ (0 <= coverage e <= 100)%Q.
Proof.
  eexists. split; [vm_compute; reflexivity|].
  split; [vm_compute; reflexivity|].
  eapply (C10_coverage_between_0_and_100 BranchMain iso_engine
            (root_world BranchMain "first commit" (Some report_two_files)) project sample_sha).
  vm_compute; reflexivity.
Defined.

(** The coverage in the words of the specification is a whole number of
    hundredths within half a hundredth of the exact percentage. *)
Lemma spec_coverage_rounds (E : Engine) (cs : list json) :
  cs <> [] ->
  let x := (inject_Z (Z.of_nat (covered_in E cs)) / inject_Z (Z.of_nat (List.length cs))
            * inject_Z 100)%Q in
  (x - (1 # 200) < spec_coverage E cs)%Q
  /\ (spec_coverage E cs <= x + (1 # 200))%Q
  /\ exists n : Z, spec_coverage E cs = (inject_Z n / inject_Z 100)%Q.
Proof.
  intros Hne x. unfold spec_coverage.
  destruct cs as [|c cs]; [congruence|]. cbn [List.length Nat.eqb].
  fold (covered_in E (c :: cs)).
  change (S (List.length cs)) with (List.length (c :: cs)). fold x.
  destruct (round2_close x) as [Hlo Hhi].
  split; [exact Hlo | split; [exact Hhi|]].
  unfold round2. eexists. reflexivity.
Qed.

(** C7, as amended.  With a report whose coverage map gives counters for
    every file, the coverage of the record is [Math.round] of the binary64
    product of [covered / total] by 10000 (by 100 and by 100 again in
    [Tracker] and [GlobalBranch]), divided by 100, where [covered] and
    [total] count the counters hit and the counters of all files together:
    a whole number of hundredths, at most one hundredth away from the exact
    percentage rounded to two decimals, and 0 when there is no counter at
    all.  Without [package.json], without a report, or without a coverage
    map in the report, it is 0. *)
Theorem C7_coverage_near_rounded_percentage
    (v : variant) (E : Engine) (W : World) (fs : store) (h : string) (e : entry) :
  getCommitInfo v E W fs h = Some e ->
  (forall (r : json) (cm : value) (files : list json) (hitss : list (list json)),
      is_Some (fs !! "package.json") ->
      jest_report W = Some (Json r) ->
      get (Some r) "coverageMap" = Ok cm ->
      truthy cm = true ->
      Object_values cm = Ok files ->
      Forall2 (fun file hits => counters file = Ok hits) files hitss ->
      coverage e
      = (if Nat.ltb 0 (List.length (concat hitss))
         then coverage_pct v (covered_in E (concat hitss)) (List.length (concat hitss))
         else 0%Q)
      /\ (Qabs (coverage e - spec_coverage E (concat hitss)) <= 1 # 100)%Q
      /\ (concat hitss = [] -> coverage e = 0%Q))
  /\ (fs !! "package.json" = None
      \/ jest_report W = None
      \/ (exists report : content,
             jest_report W = Some report
             /\ forall r cm, report = Json r ->
                             get (Some r) "coverageMap" = Ok cm -> truthy cm = false)
      -> coverage e = 0%Q).
Proof.
  intros He.
  destruct (getCommitInfo_fields v E W fs h e He) as (_ & _ & _ & _ & _ & Hc & _).
  rewrite Hc. unfold run_tests. split.
  - intros r cm files hitss Hp Hr Hcm Ht Hv HF.
    rewrite bool_decide_eq_true_2 by exact Hp. rewrite Hr.
    rewrite (read_report_coverage v E r cm files hitss Hcm Ht Hv HF).
    split; [reflexivity|].
    unfold spec_coverage.
    destruct (concat hitss) as [|c cs] eqn:Hcs.
    + cbn. split; [discriminate | reflexivity].
    + cbn [List.length Nat.ltb Nat.leb Nat.eqb]. split; [|discriminate].
      apply coverage_pct_near; [apply covered_in_le | cbn; lia].
  - intros [Hp | [Hr | (report & Hr & Hno)]].
    + rewrite bool_decide_eq_false_2; [reflexivity|].
      rewrite Hp. intros [x Hx]. discriminate Hx.
    + rewrite Hr. destruct (bool_decide _); reflexivity.
    + rewrite Hr. destruct (bool_decide _); [|reflexivity].
      apply read_report_no_map. exact Hno.
Qed.

Lemma C7_coverage_near_rounded_percentage_witness :
  exists e : entry,
    getCommitInfo Tracker iso_engine
      (root_world Tracker "first commit" (Some report_two_files)) project sample_sha = Some e
    /\ coverage e = (8571 # 100)%Q
    /\ (Qabs (coverage e
              - spec_coverage iso_engine
                  [JNum (1 # 1); JNum 0; JNum (5 # 1);
                   JNum (1 # 1); JNum (1 # 1); JNum (2 # 1); JNum (7 # 1)]) <= 1 # 100)%Q.
Proof.
  eexists. split; [vm_compute; reflexivity|]. split; [vm_compute; reflexivity|].
  refine (proj1 (proj2 (proj1 (C7_coverage_near_rounded_percentage Tracker iso_engine
                   (root_world Tracker "first commit" (Some report_two_files))
                   project sample_sha _ _)
                 _ _ _
                 [[JNum (1 # 1); JNum 0; JNum (5 # 1)];
                  [JNum (1 # 1); JNum (1 # 1); JNum (2 # 1); JNum (7 # 1)]]
                 _ _ _ _ _ _))).
  - vm_compute; reflexivity.
  - unfold project. rewrite lookup_singleton_eq. eexists; reflexivity.
  - reflexivity.
  - reflexivity.
  - reflexivity.
  - reflexivity.
  - repeat constructor.
Defined.

(** C7, as stated, fails: with 23 counters hit out of 160 the exact
    percentage is 14.375, which rounds to 14.38, and [Tracker] records
    14.37: in binary64, [((23 / 160) * 100) * 100] is
    1437.4999999999997726..., below the half. *)
Lemma C7_counterexample :
  exists e : entry,
    getCommitInfo Tracker iso_engine
      (root_world Tracker "first commit" (Some report_23_of_160)) project sample_sha = Some e
    /\ coverage e = (1437 # 100)%Q
    /\ spec_coverage iso_engine (List.map (fun n => JNum (inject_Z n)) hits_23_of_160)
       = (1438 # 100)%Q
    /\ Qred (fl (fl (ratio 23 160 * inject_Z 100) * inject_Z 100))
       = (6322191859711999 # 4398046511104)%Q.
Proof.
  eexists. split; [vm_compute; reflexivity|]. repeat split; vm_compute; reflexivity.
Qed.

(** ** The sort *)

Section SortFacts.

Variable E : Engine.


Lemma entry_commit_date (e : entry) :
  commit_date (entry_json e) = Ok (Some (JStr (Commit.date (commit e)))).
Proof. reflexivity. Qed.

Lemma entry_readable (e : entry) : readable (entry_json e).
Proof. eexists. apply entry_commit_date. Qed.


Lemma by_date_readable (a b : json) :
  readable a -> readable b -> exists c, by_date E a b = Ok c.
Proof.
  intros [da Ha] [db Hb]. unfold by_date. rewrite Ha, Hb. cbn [rbind]. eauto.
Qed.

Lemma by_date_dated (a b : json) (x y : Z) :
  date_key E a = Some x -> date_key E b = Some y ->
  by_date E a b = Ok (Some (x - y)%Z).
Proof.
  unfold date_key, by_date. intros Ha Hb.
  destruct (commit_date a) as [da|]; [|discriminate].
  destruct (commit_date b) as [db|]; [|discriminate].
  cbn [rbind]. now rewrite Ha, Hb.
Qed.

(** The sort only moves elements. *)
Lemma sort_insert_perm (x : json) (l r : list json) :
  sort_insert E x l = Ok r -> Permutation (x :: l) r.
Proof.
  revert r. induction l as [|y l IH]; intros r; cbn [sort_insert].
  - intros [= <-]. apply Permutation_refl.
  - destruct (by_date E x y) as [c|]; [|discriminate]. cbn [rbind].
    destruct (is_positive c).
    + destruct (sort_insert E x l) as [r'|]; [|discriminate]. cbn [rbind].
      intros [= <-]. eapply perm_trans; [apply perm_swap|].
      apply perm_skip. apply IH. reflexivity.
    + intros [= <-]. apply Permutation_refl.
Qed.

Lemma sort_perm (l r : list json) : sort E l = Ok r -> Permutation l r.
Proof.
  revert r. induction l as [|x l IH]; intros r; cbn [sort].
  - intros [= <-]. apply perm_nil.
  - destruct (sort E l) as [s|]; [|discriminate]. cbn [rbind]. intros H.
    eapply perm_trans; [apply perm_skip, IH; reflexivity|].
    apply sort_insert_perm. exact H.
Qed.

(** A one-element array is left as it is, whatever the element. *)
Lemma sort_singleton (x : json) : sort E [x] = Ok [x].
Proof. reflexivity. Qed.

(** The sort does not throw when every element has a [commit.date]. *)
Lemma sort_insert_total (x : json) (l : list json) :
  readable x -> Forall readable l -> exists r, sort_insert E x l = Ok r.
Proof.
  intros Hx. induction 1 as [|y l Hy Hl IH]; cbn [sort_insert]; [eauto|].
  destruct (by_date_readable x y Hx Hy) as [c ->]. cbn [rbind].
  destruct (is_positive c); [|eauto].
  destruct IH as [r ->]. cbn [rbind]. eauto.
Qed.

Lemma sort_total (l : list json) :
  Forall readable l -> exists r, sort E l = Ok r.
Proof.
  induction 1 as [|x l Hx Hl IH]; cbn [sort]; [eauto|].
  destruct IH as [s Hs]. rewrite Hs. cbn [rbind].
  apply sort_insert_total; [exact Hx|].
  apply sort_perm in Hs.
  eapply Permutation_Forall; eassumption.
Qed.



Lemma date_le_trans (a b c : json) :
  date_le E a b -> date_le E b c -> date_le E a c.
Proof.
  intros (x & y & Hx & Hy & Hxy) (y' & z & Hy' & Hz & Hyz).
  exists x, z. rewrite Hy in Hy'. injection Hy' as <-.
  repeat split; [assumption | assumption | lia].
Qed.

End SortFacts.

(** ** The history files *)

Section StoreFacts.

Variables (E : Engine) (W : World).

Lemma appendEntry_unfold (p : string) (e : entry) (fs : store) :
  appendEntry E W p e fs
  = match sort E (loadHistory fs p ++ [entry_json e])%list with
    | Ok sorted =>
        if writable W p then (<[p := Json (JArr sorted)]> fs, Ok tt)
        else (fs, Throw WriteFailed)
    | Throw err => (fs, Throw err)
    end.
Proof.
  unfold appendEntry, saveHistory, writeFileSync, bind, gets, lift, modify, throw.
  destruct (sort E _); [|reflexivity]. destruct (writable W p); reflexivity.
Qed.

Lemma loadHistory_insert (fs : store) (p q : string) (l : list json) :
  loadHistory (<[p := Json (JArr l)]> fs) q
  = if decide (p = q) then l else loadHistory fs q.
Proof.
  unfold loadHistory. rewrite lookup_insert.
  destruct (decide (p = q)); reflexivity.
Qed.

Lemma loadHistory_None (fs : store) (p : string) :
  fs !! p = None -> loadHistory fs p = [].
Proof. unfold loadHistory. now intros ->. Qed.

Lemma create_if_absent_unfold (p : string) (fs : store) :
  create_if_absent W p fs
  = match fs !! p with
    | Some _ => (fs, Ok tt)
    | None =>
        if writable W p then (<[p := Json (JArr [])]> fs, Ok tt)
        else (fs, Throw WriteFailed)
    end.
Proof.
  unfold create_if_absent, writeFileSync, bind, gets, when, modify, throw, ret.
  destruct (fs !! p) as [c|] eqn:Hp.
  - rewrite bool_decide_eq_true_2; [reflexivity | eauto].
  - rewrite bool_decide_eq_false_2.
    + cbn [negb]. destruct (writable W p); reflexivity.
    + intros [x Hx]. discriminate Hx.
Qed.

Lemma loadHistory_create (p q : string) (fs : store) :
  loadHistory (fst (create_if_absent W p fs)) q = loadHistory fs q.
Proof.
  rewrite create_if_absent_unfold.
  destruct (fs !! p) as [c|] eqn:Hp; [reflexivity|].
  destruct (writable W p); [|reflexivity]. cbn [fst].
  rewrite loadHistory_insert. destruct (decide (p = q)) as [<-|]; [|reflexivity].
  symmetry. now apply loadHistory_None.
Qed.








End StoreFacts.

(** ** The scripts as a whole *)

Section ScriptFacts.

Variable E : Engine.


Lemma prepare_BranchMain (W : World) (fs : store) :
  prepare BranchMain W fs = (fs, Ok tt).
Proof. reflexivity. Qed.

(** The run, step by step: the files are prepared, the sha is read and
    gated, the entry is built, and the rest is [persist]. *)
Lemma script_unfold (v : variant) (W : World) (fs : store) :
  script v E W fs
  = match prepare v W fs with
    | (fs0, Throw err) => (fs0, Throw err)
    | (fs0, Ok _) =>
        match sh W "git rev-parse HEAD" with
        | None => (fs0, Throw CommandFailed)
        | Some h =>
            if sha_gate h then
              match getCommitInfo v E W fs0 h with
              | Some e => persist v E W e fs0
              | None => (fs0, Throw NoEntry)
              end
            else (fs0, Throw InvalidSha)
        end
    end.
Proof.
  unfold script, bind at 1.
  destruct (prepare v W fs) as [fs0 [[]|err]]; [|reflexivity].
  unfold bind, lift, gets, ret, throw.
  destruct (sh W "git rev-parse HEAD") as [h|]; [|reflexivity].
  destruct (sha_gate h); [|reflexivity].
  destruct (getCommitInfo v E W fs0 h); reflexivity.
Qed.






End ScriptFacts.

(** * The claims on the history files *)





(** What that append writes: the record of 2023, the new one, the record
    of 2025. *)
Example append_to_unsorted_history :
  fst (appendEntry iso_engine silent_world DATA_FILE (sample_entry "main") unsorted_history)
    !! DATA_FILE
  = Some (Json (JArr [ old_record "bbbbbbb" "2023-06-01T12:00:00+02:00";
                       entry_json (sample_entry "main");
                       old_record "aaaaaaa" "2025-01-01T00:00:00+00:00" ])).
Proof. vm_compute. reflexivity. Qed.


(** The per-branch file of [GlobalBranch] is never the global file. *)
Lemma raw_branch_file_not_global (b : string) :
  "script/commit-history-" ++ b ++ ".json" <> DATA_FILE.
Proof. unfold DATA_FILE. cbn [String.append]. discriminate. Qed.

(** On branch [feature/x-1] the per-branch file of [GlobalBranch] lies
    below [script/commit-history-feature/]: where that directory is missing,
    the run writes the record to the global file and then ends with
    status 1. *)
Example raw_branch_file_in_subdirectory :
  fst (run GlobalBranch iso_engine (no_subdir_world GlobalBranch) project) = 1%Z
  /\ (exists e : entry,
         getCommitInfo GlobalBranch iso_engine (no_subdir_world GlobalBranch) project sample_sha
         = Some e
         /\ snd (run GlobalBranch iso_engine (no_subdir_world GlobalBranch) project) !! DATA_FILE
            = Some (Json (JArr [entry_json e])))
  /\ snd (run GlobalBranch iso_engine (no_subdir_world GlobalBranch) project)
        !! "script/commit-history-feature/x-1.json" = None.
Proof.
  split; [vm_compute; reflexivity|]. split; [|vm_compute; reflexivity].
  eexists. split; vm_compute; reflexivity.
Qed.

(** C8.  When the history file exists and its content is not JSON, or is
    JSON but not an array, loading it gives the empty history, without an
    exception, and the append that follows writes (the file being writable)
    an array with the new record alone; so do [saveCommitData] of [Tracker]
    and of [GlobalBranch] on the global file, and the persistence of
    [BranchMain] on the file of the branch. *)
Theorem C8_unreadable_history_is_empty
    (E : Engine) (W : World) (p : string) (e : entry) (fs : store) :
  fs !! p = Some Malformed
  \/ (exists j : json, fs !! p = Some (Json j) /\ forall l, j <> JArr l) ->
  writable W p = true ->
  loadHistory fs p = []
  /\ appendEntry E W p e fs = (<[p := Json (JArr [entry_json e])]> fs, Ok tt)
  /\ (p = DATA_FILE -> check_head e = Ok tt ->
      persist Tracker E W e fs = (<[p := Json (JArr [entry_json e])]> fs, Ok tt))
  /\ (p = DATA_FILE ->
      fst (persist GlobalBranch E W e fs) !! p = Some (Json (JArr [entry_json e])))
  /\ (p = branch_file (branch e) -> validateEntry e = Ok tt ->
      String.eqb (branch e) "main" = false ->
      persist BranchMain E W e fs = (<[p := Json (JArr [entry_json e])]> fs, Ok tt)).
Proof.
  intros H Hw.
  assert (Hload : loadHistory fs p = []).
  { unfold loadHistory. destruct H as [-> | (j & -> & Hj)]; [reflexivity|].
    cbn [JSON_parse]. destruct j; try reflexivity. now destruct (Hj l). }
  assert (Happ : appendEntry E W p e fs
                 = (<[p := Json (JArr [entry_json e])]> fs, Ok tt)).
  { rewrite appendEntry_unfold, Hload. cbn [app sort sort_insert rbind].
    rewrite Hw. reflexivity. }
  split; [exact Hload|]. split; [exact Happ|]. split; [|split].
  - intros -> Hh. unfold persist, bind, lift. rewrite Hh. exact Happ.
  - intros ->. unfold persist, bind, when, ret. rewrite Happ.
    destruct (negb (Str.is_empty (branch e)) && negb (String.eqb (branch e) "HEAD"));
      [|apply lookup_insert_eq].
    rewrite appendEntry_unfold.
    destruct (sort E _); [|apply lookup_insert_eq].
    destruct (writable W ("script/commit-history-" ++ branch e ++ ".json"));
      cbn [fst]; [|apply lookup_insert_eq].
    rewrite lookup_insert_ne by apply raw_branch_file_not_global.
    apply lookup_insert_eq.
  - intros Hp Hv Hm. unfold persist, bind, lift, when, ret. rewrite Hv, <- Hp.
    rewrite create_if_absent_unfold.
    assert (Hsome : exists c, fs !! p = Some c)
      by (destruct H as [-> | (j & -> & _)]; eauto).
    destruct Hsome as [c ->]. rewrite Happ, Hm. reflexivity.
Qed.

Lemma C8_unreadable_history_is_empty_witness :
  loadHistory broken_history DATA_FILE = []
  /\ appendEntry iso_engine silent_world DATA_FILE (sample_entry "main") object_history
     = (<[DATA_FILE := Json (JArr [entry_json (sample_entry "main")])]> object_history, Ok tt).
Proof.
  split.
  - refine (proj1 (C8_unreadable_history_is_empty iso_engine silent_world DATA_FILE
                     (sample_entry "main") broken_history _ _)).
    + left. vm_compute. reflexivity.
    + reflexivity.
  - refine (proj1 (proj2 (C8_unreadable_history_is_empty iso_engine silent_world DATA_FILE
                            (sample_entry "main") object_history _ _))).
    + right. exists (JObj [ ("commits", JArr []) ]).
      split; [vm_compute; reflexivity | discriminate].
    + reflexivity.
Defined.

(** ** The per-branch file *)

Section BranchFile.

Variable E : Engine.

Lemma sanitize_spec (b : string) :
  b <> EmptyString -> sanitizeBranchName b = spec_sanitize b.
Proof.
  intros Hb. unfold sanitizeBranchName, spec_sanitize.
  destruct b; [congruence|]. cbn [Str.is_empty].
  apply map_ext, sanitize_char_spec.
Qed.

Lemma sanitize_alphabet (b : string) :
  Str.all (in_alphabet branch_alphabet) (sanitizeBranchName b) = true.
Proof. unfold sanitizeBranchName. apply all_map, sanitize_char_in. Qed.

Lemma branch_file_name (b : string) :
  branch_file b = "script/commit-history-" ++ sanitizeBranchName b ++ ".json".
Proof. reflexivity. Qed.

Lemma validateEntry_ok (e : entry) :
  validateEntry e = Ok tt -> check_head e = Ok tt /\ branch e <> EmptyString.
Proof.
  unfold validateEntry. destruct (check_head e) as [[]|]; [|discriminate].
  cbn [rbind]. destruct (branch e); [discriminate|]. split; [reflexivity | discriminate].
Qed.

(** An append to an array of readable records, in a file that can be
    written, succeeds and only adds the entry. *)
Lemma appendEntry_readable (W : World) (p : string) (e : entry) (fs : store) :
  writable W p = true ->
  Forall readable (loadHistory fs p) ->
  exists l : list json,
    appendEntry E W p e fs = (<[p := Json (JArr l)]> fs, Ok tt)
    /\ Permutation (loadHistory fs p ++ [entry_json e]) l
    /\ Forall readable l.
Proof.
  intros Hw Hl.
  assert (HF : Forall readable (loadHistory fs p ++ [entry_json e])).
  { apply Forall_app. split; [exact Hl | repeat constructor; apply entry_readable]. }
  destruct (sort_total E _ HF) as [l Hs].
  exists l. rewrite appendEntry_unfold, Hs, Hw.
  pose proof (sort_perm E _ _ Hs) as Hp.
  repeat split; [exact Hp|]. eapply Permutation_Forall; eassumption.
Qed.

Lemma create_if_absent_lookup (W : World) (p q : string) (fs : store) :
  q <> p -> fst (create_if_absent W p fs) !! q = fs !! q.
Proof.
  intros Hq. rewrite create_if_absent_unfold.
  destruct (fs !! p); [reflexivity|].
  destruct (writable W p); [|reflexivity]. cbn [fst]. now rewrite lookup_insert_ne.
Qed.

Lemma create_if_absent_writable (W : World) (p : string) (fs : store) :
  writable W p = true ->
  create_if_absent W p fs
  = (match fs !! p with Some _ => fs | None => <[p := Json (JArr [])]> fs end, Ok tt).
Proof.
  intros Hw. rewrite create_if_absent_unfold, Hw. destruct (fs !! p); reflexivity.
Qed.

(** What [BranchMain] does with a valid entry: the entry joins the file
    of its branch (twice over when the branch is [main], whose file is
    also the main file), and no other file changes. *)
Lemma persist_BranchMain_valid (W : World) (e : entry) (fs : store) :
  validateEntry e = Ok tt ->
  writable W (branch_file (branch e)) = true ->
  Forall readable (loadHistory fs (branch_file (branch e))) ->
  exists (fs' : store) (l : list json),
    persist BranchMain E W e fs = (fs', Ok tt)
    /\ fs' !! branch_file (branch e) = Some (Json (JArr l))
    /\ Permutation
         (loadHistory fs (branch_file (branch e))
          ++ (if String.eqb (branch e) "main"
              then [entry_json e; entry_json e] else [entry_json e]))
         l
    /\ forall q, q <> branch_file (branch e) -> fs' !! q = fs !! q.
Proof.
  intros Hv Hw Hl. set (p := branch_file (branch e)) in *.
  unfold persist, bind, lift, when, ret. rewrite Hv. fold p.
  pose proof (loadHistory_create W p p fs) as Hload0.
  pose proof (fun q => create_if_absent_lookup W p q fs) as Hother0.
  rewrite (create_if_absent_writable W p fs Hw) in Hload0, Hother0 |- *.
  cbn [fst] in Hload0, Hother0.
  set (fs0 := match fs !! p with Some _ => fs | None => <[p := Json (JArr [])]> fs end) in *.
  rewrite <- Hload0 in Hl.
  destruct (appendEntry_readable W p e fs0 Hw Hl) as (l1 & -> & Hp1 & Hr1).
  rewrite Hload0 in Hp1.
  destruct (String.eqb (branch e) "main") eqn:Hm.
  - apply String.eqb_eq in Hm.
    assert (Hmain : MAIN_FILE = p) by (unfold p; rewrite Hm; reflexivity).
    rewrite Hmain, (create_if_absent_writable W p _ Hw), lookup_insert_eq.
    assert (Hl1 : Forall readable (loadHistory (<[p := Json (JArr l1)]> fs0) p)).
    { rewrite loadHistory_insert. destruct (decide (p = p)); [exact Hr1 | congruence]. }
    destruct (appendEntry_readable W p e _ Hw Hl1) as (l2 & -> & Hp2 & _).
    rewrite loadHistory_insert in Hp2.
    destruct (decide (p = p)); [|congruence].
    exists (<[p := Json (JArr l2)]> (<[p := Json (JArr l1)]> fs0)), l2.
    split; [reflexivity|]. split; [apply lookup_insert_eq|]. split.
    + eapply perm_trans; [|exact Hp2].
      change [entry_json e; entry_json e] with ([entry_json e] ++ [entry_json e])%list.
      rewrite List.app_assoc. apply Permutation_app_tail. exact Hp1.
    + intros q Hq. rewrite !lookup_insert_ne by congruence. apply Hother0, Hq.
  - exists (<[p := Json (JArr l1)]> fs0), l1.
    split; [reflexivity|]. split; [apply lookup_insert_eq|]. split; [exact Hp1|].
    intros q Hq. rewrite lookup_insert_ne by congruence. apply Hother0, Hq.
Qed.

(** The same when the file of the branch does not exist yet. *)
Lemma persist_BranchMain_fresh (W : World) (e : entry) (fs : store) :
  validateEntry e = Ok tt ->
  writable W (branch_file (branch e)) = true ->
  fs !! branch_file (branch e) = None ->
  String.eqb (branch e) "main" = false ->
  fst (create_if_absent W (branch_file (branch e)) fs) !! branch_file (branch e)
  = Some (Json (JArr []))
  /\ persist BranchMain E W e fs
     = (<[branch_file (branch e) := Json (JArr [entry_json e])]> fs, Ok tt).
Proof.
  intros Hv Hw Hnone Hm. split.
  - rewrite (create_if_absent_writable W _ fs Hw), Hnone. cbn [fst]. apply lookup_insert_eq.
  - unfold persist, bind, lift, when, ret. rewrite Hv.
    rewrite (create_if_absent_writable W _ fs Hw), Hnone, appendEntry_unfold.
    rewrite loadHistory_insert.
    destruct (decide (branch_file (branch e) = branch_file (branch e))); [|congruence].
    cbn [app sort sort_insert rbind]. rewrite Hw, Hm, insert_insert_eq. reflexivity.
Qed.

End BranchFile.

(** C3, as amended.  In [BranchMain], the script that has
    [sanitizeBranchName] and [validateEntry], a valid record is appended to
    [script/commit-history-<sanitized-branch>.json], where the sanitized
    name is the branch with every character outside [[A-Za-z0-9._-]]
    replaced by an underscore; the file is created as an empty array when
    absent; the branch [feature/x-1] gives [commit-history-feature_x-1.json].
    The file must be writable, and the records already in it must have a
    [commit.date] to read. *)
Theorem C3_branch_file_of_BranchMain (E : Engine) (W : World) (e : entry) (fs : store) :
  validateEntry e = Ok tt ->
  writable W (branch_file (branch e)) = true ->
  Forall readable (loadHistory fs (branch_file (branch e))) ->
  branch_file (branch e) = "script/commit-history-" ++ spec_sanitize (branch e) ++ ".json"
  /\ Str.all (in_alphabet branch_alphabet) (sanitizeBranchName (branch e)) = true
  /\ (exists (fs' : store) (l : list json),
         persist BranchMain E W e fs = (fs', Ok tt)
         /\ fs' !! branch_file (branch e) = Some (Json (JArr l))
         /\ Permutation
              (loadHistory fs (branch_file (branch e))
               ++ (if String.eqb (branch e) "main"
                   then [entry_json e; entry_json e] else [entry_json e]))
              l
         /\ forall q, q <> branch_file (branch e) -> fs' !! q = fs !! q)
  /\ (fs !! branch_file (branch e) = None ->
      String.eqb (branch e) "main" = false ->
      fst (create_if_absent W (branch_file (branch e)) fs) !! branch_file (branch e)
      = Some (Json (JArr []))
      /\ persist BranchMain E W e fs
         = (<[branch_file (branch e) := Json (JArr [entry_json e])]> fs, Ok tt))
  /\ branch_file "feature/x-1" = "script/commit-history-feature_x-1.json".
Proof.
  intros Hv Hw Hl.
  destruct (validateEntry_ok e Hv) as [_ Hb].
  split; [|split; [|split; [|split]]].
  - rewrite branch_file_name, sanitize_spec by exact Hb. reflexivity.
  - apply sanitize_alphabet.
  - apply persist_BranchMain_valid; assumption.
  - intros Hnone Hm. apply persist_BranchMain_fresh; assumption.
  - reflexivity.
Qed.

Lemma C3_branch_file_of_BranchMain_witness :
  persist BranchMain iso_engine silent_world (sample_entry "feature/x-1") project
  = (<["script/commit-history-feature_x-1.json" :=
         Json (JArr [entry_json (sample_entry "feature/x-1")])]> project, Ok tt).
Proof.
  refine (proj2 (proj1 (proj2 (proj2 (proj2
            (C3_branch_file_of_BranchMain iso_engine silent_world
               (sample_entry "feature/x-1") project _ _ _)))) _ _)).
  - vm_compute. reflexivity.
  - reflexivity.
  - vm_compute. constructor.
  - vm_compute. reflexivity.
  - vm_compute. reflexivity.
Defined.

(** C3, as stated, fails on [Tracker]: for a record on branch
    [feature/x-1] that passes its validation, the run ends with status 0,
    the record is in [script/commit-history.json], and there is no
    [script/commit-history-feature_x-1.json]. *)
Lemma C3_counterexample :
  exists e : entry,
    getCommitInfo Tracker iso_engine (root_world Tracker "first commit" None) ∅ sample_sha = Some e
    /\ branch e = "feature/x-1"
    /\ validateEntry e = Ok tt
    /\ fst (run Tracker iso_engine (root_world Tracker "first commit" None) ∅) = 0%Z
    /\ snd (run Tracker iso_engine (root_world Tracker "first commit" None) ∅) !! DATA_FILE
       = Some (Json (JArr [entry_json e]))
    /\ snd (run Tracker iso_engine (root_world Tracker "first commit" None) ∅)
         !! "script/commit-history-feature_x-1.json" = None.
Proof.
  eexists. split; [vm_compute; reflexivity|].
  repeat split; vm_compute; reflexivity.
Qed.

(** ** The validation *)

Section Validation.

Variable E : Engine.

Lemma ends_with_empty (suf : string) :
  Str.ends_with suf EmptyString = true -> suf = EmptyString.
Proof.
  cbn [Str.ends_with]. rewrite orb_false_r. intros H.
  apply String.eqb_eq in H. now subst.
Qed.

(** [head_forbidden] is what the three tests on the sha and the URL
    refuse. *)
Lemma check_head_forbidden (e : entry) :
  head_forbidden e = true ->
  exists why, check_head e = Throw (InvalidEntry why) /\ why <> MissingBranch.
Proof.
  unfold head_forbidden, check_head.
  destruct (String.eqb (sha e) "HEAD"); [intros _; eexists; split; [reflexivity | discriminate]|].
  cbn [orb].
  destruct (Str.is_empty (Commit.url (commit e))) eqn:Hu.
  - apply is_empty_true in Hu. rewrite Hu. cbn. discriminate.
  - cbn [negb andb].
    destruct (Str.ends_with "/commit/HEAD" (Commit.url (commit e)));
      [intros _; eexists; split; [reflexivity | discriminate]|].
    cbn [orb].
    destruct (Str.ends_with (sha e) (Commit.url (commit e))); [discriminate|].
    intros _; eexists; split; [reflexivity | discriminate].
Qed.

Lemma check_head_allowed (e : entry) :
  head_forbidden e = false -> check_head e = Ok tt.
Proof.
  unfold head_forbidden, check_head.
  destruct (String.eqb (sha e) "HEAD"); [discriminate|]. cbn [orb].
  destruct (Str.is_empty (Commit.url (commit e))) eqn:Hu; [reflexivity|].
  cbn [negb andb].
  destruct (Str.ends_with "/commit/HEAD" (Commit.url (commit e))); [discriminate|].
  cbn [orb].
  destruct (Str.ends_with (sha e) (Commit.url (commit e))); [reflexivity | discriminate].
Qed.

Lemma validateEntry_forbidden (e : entry) :
  forbidden e = true -> exists why, validateEntry e = Throw (InvalidEntry why).
Proof.
  unfold forbidden, validateEntry. destruct (head_forbidden e) eqn:Hh.
  - destruct (check_head_forbidden e Hh) as (why & -> & _). eauto.
  - rewrite (check_head_allowed e Hh). cbn [orb rbind]. intros ->. eauto.
Qed.

(** Once the sha has passed the gate and the entry is built, the run is
    [persist], and its status tells whether [persist] threw. *)
Lemma run_after_gate (v : variant) (W : World) (fs fs0 : store) (h : string) (e : entry) :
  prepare v W fs = (fs0, Ok tt) ->
  sh W "git rev-parse HEAD" = Some h ->
  sha_gate h = true ->
  getCommitInfo v E W fs0 h = Some e ->
  run v E W fs
  = match persist v E W e fs0 with
    | (fs', Ok _) => (0%Z, fs')
    | (fs', Throw _) => (1%Z, fs')
    end.
Proof.
  intros Hp Hh Hg He. unfold run. rewrite script_unfold, Hp, Hh, Hg, He. reflexivity.
Qed.

Lemma bind_ret_tt (m : M store unit) (fs : store) :
  bind m (fun _ => ret tt) fs = m fs.
Proof. unfold bind, ret. destruct (m fs) as [fs' [[]|err]]; reflexivity. Qed.

End Validation.

(** C2, as amended.  In [BranchMain] every entry whose sha is ["HEAD"],
    whose URL ends in [/commit/HEAD], whose non-empty URL does not end in the
    sha, or whose branch is empty is refused by [validateEntry] before
    anything is written, and the run exits with status 1 and the store as
    it was.  [Tracker] refuses the same entries but for the empty branch:
    an entry that passes its three tests is appended to
    [script/commit-history.json], branch or no branch.  [GlobalBranch], for
    an entry without a branch, appends to the global file and skips only the
    per-branch file. *)
Theorem C2_forbidden_entry_aborts (E : Engine) (W : World) (e : entry) (fs : store) :
  forbidden e = true ->
  (exists why : rejection,
      validateEntry e = Throw (InvalidEntry why)
      /\ persist BranchMain E W e fs = (fs, Throw (InvalidEntry why)))
  /\ (forall h : string,
         sh W "git rev-parse HEAD" = Some h ->
         sha_gate h = true ->
         getCommitInfo BranchMain E W fs h = Some e ->
         run BranchMain E W fs = (1%Z, fs))
  /\ (head_forbidden e = true ->
      exists why : rejection, persist Tracker E W e fs = (fs, Throw (InvalidEntry why)))
  /\ (head_forbidden e = false ->
      persist Tracker E W e fs = appendEntry E W DATA_FILE e fs)
  /\ (Str.is_empty (branch e) = true ->
      persist GlobalBranch E W e fs = appendEntry E W DATA_FILE e fs).
Proof.
  intros Hf.
  destruct (validateEntry_forbidden e Hf) as [why Hv].
  assert (Hp : persist BranchMain E W e fs = (fs, Throw (InvalidEntry why))).
  { unfold persist, bind, lift. rewrite Hv. reflexivity. }
  split; [exists why; auto|]. split; [|split; [|split]].
  - intros h Hh Hg He.
    rewrite (run_after_gate E BranchMain W fs fs h e (prepare_BranchMain W fs) Hh Hg He).
    rewrite Hp. reflexivity.
  - intros Hh. destruct (check_head_forbidden e Hh) as (why' & Hc & _).
    exists why'. unfold persist, bind, lift. rewrite Hc. reflexivity.
  - intros Hh. unfold persist, bind, lift.
    rewrite (check_head_allowed e Hh). reflexivity.
  - intros Hb. unfold persist. rewrite Hb. cbn [negb andb when].
    apply bind_ret_tt.
Qed.

Lemma C2_forbidden_entry_aborts_witness :
  forbidden (sample_entry EmptyString) = true
  /\ run BranchMain iso_engine (branchless_world BranchMain) project = (1%Z, project).
Proof.
  split; [vm_compute; reflexivity|].
  refine (proj1 (proj2 (C2_forbidden_entry_aborts iso_engine (branchless_world BranchMain)
                          (sample_entry EmptyString) project _))
            sample_sha _ _ _);
    vm_compute; reflexivity.
Defined.

(** C2, as stated, fails on [Tracker]: when the branch cannot be read the
    record has an empty branch, and the run ends with status 0 and the
    record in [script/commit-history.json]. *)
Lemma C2_counterexample :
  exists e : entry,
    getCommitInfo Tracker iso_engine (branchless_world Tracker) ∅ sample_sha = Some e
    /\ branch e = EmptyString
    /\ forbidden e = true
    /\ fst (run Tracker iso_engine (branchless_world Tracker) ∅) = 0%Z
    /\ snd (run Tracker iso_engine (branchless_world Tracker) ∅) !! DATA_FILE
       = Some (Json (JArr [entry_json e])).
Proof.
  eexists. split; [vm_compute; reflexivity|].
  repeat split; vm_compute; reflexivity.
Qed.

(** ** The gate on the sha *)

Lemma all_ext (p q : ascii -> bool) (s : string) :
  (forall c, p c = q c) -> Str.all p s = Str.all q s.
Proof.
  intros H. induction s as [|c s IH]; sstep; [reflexivity | now rewrite H, IH].
Qed.

Lemma all_weaken (p q : ascii -> bool) (s : string) :
  (forall c, p c = true -> q c = true) -> Str.all p s = true -> Str.all q s = true.
Proof.
  intros H. induction s as [|c s IH]; sstep; [reflexivity|].
  intros Hs. apply andb_true_iff in Hs. destruct Hs as [Hc Hs].
  rewrite (H c Hc). now apply IH.
Qed.

(** What the specification's pattern accepts, the gate accepts. *)
Lemma sha_lower_hex_gate (h : string) : sha_lower_hex h = true -> sha_gate h = true.
Proof.
  unfold sha_lower_hex, sha_gate. intros H.
  apply andb_true_iff in H. destruct H as [H H40].
  apply andb_true_iff in H. destruct H as [Hall H7].
  rewrite H7, H40, (all_weaken Str.is_hex_lower Str.is_hex_i h); [reflexivity | | exact Hall].
  intros c Hc. unfold Str.is_hex_i. unfold Str.is_hex_lower in Hc.
  rewrite Hc. reflexivity.
Qed.

(** *** What a run adds to the files *)

Section Persisted.

Variables (E : Engine) (W : World).

Lemma adds_refl (x : json) (fs : store) : adds_copies x fs fs.
Proof. intros p. exists []. rewrite app_nil_r. split; [apply Permutation_refl | constructor]. Qed.

Lemma adds_trans (x : json) (a b c : store) :
  adds_copies x a b -> adds_copies x b c -> adds_copies x a c.
Proof.
  intros Hab Hbc p.
  destruct (Hab p) as (n1 & P1 & F1). destruct (Hbc p) as (n2 & P2 & F2).
  exists (n1 ++ n2)%list. split.
  - rewrite app_assoc. eapply perm_trans; [exact P2|].
    apply Permutation_app_tail. exact P1.
  - apply Forall_app. split; assumption.
Qed.

Lemma adds_append (p : string) (e : entry) (fs : store) :
  adds_copies (entry_json e) fs (fst (appendEntry E W p e fs)).
Proof.
  rewrite appendEntry_unfold.
  destruct (sort E _) as [l|] eqn:Hs; [|apply adds_refl].
  destruct (writable W p); [|apply adds_refl]. cbn [fst].
  intros q. rewrite loadHistory_insert. destruct (decide (p = q)) as [<-|].
  - exists [entry_json e]. split; [|repeat constructor].
    apply Permutation_sym. exact (sort_perm E _ _ Hs).
  - exists []. rewrite app_nil_r. split; [apply Permutation_refl | constructor].
Qed.

Lemma adds_create (x : json) (p : string) (fs : store) :
  adds_copies x fs (fst (create_if_absent W p fs)).
Proof.
  intros q. exists []. rewrite loadHistory_create, app_nil_r.
  split; [apply Permutation_refl | constructor].
Qed.

Lemma persist_adds (v : variant) (e : entry) (fs : store) :
  adds_copies (entry_json e) fs (fst (persist v E W e fs)).
Proof.
  destruct v; unfold persist, bind, lift, when, ret.
  - destruct (check_head e); [|apply adds_refl]. apply adds_append.
  - destruct (validateEntry e); [|apply adds_refl].
    pose proof (adds_create (entry_json e) (branch_file (branch e)) fs) as H0.
    destruct (create_if_absent W (branch_file (branch e)) fs) as [fs0 [[]|err0]];
      cbn [fst] in *; [|exact H0].
    pose proof (adds_append (branch_file (branch e)) e fs0) as H1.
    destruct (appendEntry E W (branch_file (branch e)) e fs0) as [fs1 [[]|err1]];
      cbn [fst] in *; [|eauto using adds_trans].
    destruct (String.eqb (branch e) "main"); [|eauto using adds_trans].
    pose proof (adds_create (entry_json e) MAIN_FILE fs1) as H2.
    destruct (create_if_absent W MAIN_FILE fs1) as [fs2 [[]|err2]];
      cbn [fst] in *; [|eauto using adds_trans].
    pose proof (adds_append MAIN_FILE e fs2) as H3.
    destruct (appendEntry E W MAIN_FILE e fs2) as [fs3 r3]; cbn [fst] in *.
    eauto using adds_trans.
  - pose proof (adds_append DATA_FILE e fs) as H1.
    destruct (appendEntry E W DATA_FILE e fs) as [fs1 [[]|err1]]; cbn [fst] in *; [|exact H1].
    destruct (negb (Str.is_empty (branch e)) && negb (String.eqb (branch e) "HEAD"));
      [|exact H1].
    pose proof (adds_append ("script/commit-history-" ++ branch e ++ ".json") e fs1) as H2.
    destruct (appendEntry E W _ e fs1) as [fs2 r2]; cbn [fst] in *.
    eauto using adds_trans.
Qed.

Lemma prepare_arrays (v : variant) (fs : store) (p : string) :
  loadHistory (fst (prepare v W fs)) p = loadHistory fs p.
Proof. destruct v; cbn [prepare]; try apply loadHistory_create. reflexivity. Qed.

(** What a run leaves in the files, whatever its status: the records that
    were there, and copies of the record built for the sha that passed the
    gate. *)
Lemma run_adds (v : variant) (fs : store) (p : string) :
  exists news : list json,
    Permutation (loadHistory (snd (run v E W fs)) p) (loadHistory fs p ++ news)
    /\ forall a : json,
         In a news ->
         exists (h : string) (e : entry),
           a = entry_json e
           /\ sh W "git rev-parse HEAD" = Some h
           /\ sha_gate h = true
           /\ getCommitInfo v E W (fst (prepare v W fs)) h = Some e.
Proof.
  assert (Hnone : exists news : list json,
             Permutation (loadHistory (fst (prepare v W fs)) p) (loadHistory fs p ++ news)
             /\ forall a : json,
                  In a news ->
                  exists (h : string) (e : entry),
                    a = entry_json e
                    /\ sh W "git rev-parse HEAD" = Some h
                    /\ sha_gate h = true
                    /\ getCommitInfo v E W (fst (prepare v W fs)) h = Some e).
  { exists []. rewrite prepare_arrays, app_nil_r.
    split; [apply Permutation_refl | intros a []]. }
  unfold run. rewrite script_unfold.
  pose proof (prepare_arrays v fs p) as Hprep.
  destruct (prepare v W fs) as [fs0 [[]|err0]]; cbn [fst snd] in *; [|exact Hnone].
  destruct (sh W "git rev-parse HEAD") as [h|]; [|exact Hnone].
  destruct (sha_gate h) eqn:Hg; [|exact Hnone].
  destruct (getCommitInfo v E W fs0 h) as [e|] eqn:He; [|exact Hnone].
  destruct (persist_adds v e fs0 p) as (news & Hp & Hall).
  exists news. split.
  - rewrite <- Hprep.
    destruct (persist v E W e fs0) as [fs1 [[]|err]]; exact Hp.
  - intros a Ha. exists h, e.
    rewrite List.Forall_forall in Hall. rewrite <- (Hall a Ha). auto.
Qed.

End Persisted.

(** C4, as amended.  The gate is [/^[0-9a-f]{7,40}$/i]: case is ignored.
    Whatever the status a run ends with, each array of the store holds
    after it the records it held before and, besides, only copies of a
    record whose sha is the string [git rev-parse HEAD] printed, made of 7
    to 40 hexadecimal digits of either case and not ["HEAD"] (so for the
    record [GlobalBranch] leaves in the global file when its second write
    fails).  When the run ends with status 0 that record was built and
    persisted; a string that does not pass the gate ends the run with
    status 1 before [getCommitInfo] is called, the store being as
    [prepare] left it. *)
Theorem C4_persisted_sha_passes_gate
    (v : variant) (E : Engine) (W : World) (fs : store) :
  (forall p : string,
      exists news : list json,
        Permutation (loadHistory (snd (run v E W fs)) p) (loadHistory fs p ++ news)
        /\ forall a : json,
             In a news ->
             exists e : entry,
               a = entry_json e
               /\ sh W "git rev-parse HEAD" = Some (sha e)
               /\ sha e <> "HEAD"
               /\ Str.all (in_alphabet hex_alphabet) (sha e) = true
               /\ (7 <= String.length (sha e) <= 40)%nat)
  /\ (forall fs' : store,
      run v E W fs = (0%Z, fs') ->
      exists (h : string) (e : entry),
        sh W "git rev-parse HEAD" = Some h
        /\ getCommitInfo v E W (fst (prepare v W fs)) h = Some e
        /\ persist v E W e (fst (prepare v W fs)) = (fs', Ok tt)
        /\ sha e = h
        /\ h <> "HEAD"
        /\ Str.all (in_alphabet hex_alphabet) h = true
        /\ (7 <= String.length h <= 40)%nat)
  /\ (forall h : string,
         sh W "git rev-parse HEAD" = Some h ->
         sha_gate h = false ->
         run v E W fs = (1%Z, fst (prepare v W fs)))
  /\ (forall h : string, sha_lower_hex h = true -> sha_gate h = true).
Proof.
  split; [|split; [|split]].
  - intros p. destruct (run_adds E W v fs p) as (news & Hp & Hall).
    exists news. split; [exact Hp|].
    intros a Ha. destruct (Hall a Ha) as (h & e & -> & Hh & Hg & He).
    destruct (getCommitInfo_fields v E W _ h e He) as (Hs & _).
    destruct (sha_gate_hex h Hg) as [Hhex Hlen].
    exists e. rewrite Hs. repeat split; try assumption; try lia.
    + now apply sha_gate_not_HEAD.
    + rewrite <- Hhex. apply all_ext. intros c. symmetry. apply is_hex_i_spec.
  - intros fs'. unfold run. rewrite script_unfold.
    destruct (prepare v W fs) as [fs0 [[]|err0]]; [|discriminate]. cbn [fst].
    destruct (sh W "git rev-parse HEAD") as [h|]; [|discriminate].
    destruct (sha_gate h) eqn:Hg; [|discriminate].
    destruct (getCommitInfo v E W fs0 h) as [e|] eqn:He; [|discriminate].
    destruct (persist v E W e fs0) as [fs1 [[]|err]] eqn:Hp; [|discriminate].
    intros [= <-]. exists h, e.
    destruct (getCommitInfo_fields v E W _ h e He) as (Hs & _).
    destruct (sha_gate_hex h Hg) as [Hhex Hlen].
    repeat split; try assumption; try lia.
    + now apply sha_gate_not_HEAD.
    + rewrite <- Hhex. apply all_ext. intros c. symmetry. apply is_hex_i_spec.
  - intros h Hh Hg. unfold run. rewrite script_unfold.
    destruct (prepare v W fs) as [fs0 [[]|err0]]; [|reflexivity].
    rewrite Hh, Hg. reflexivity.
  - apply sha_lower_hex_gate.
Qed.

Lemma C4_persisted_sha_passes_gate_witness :
  (exists (h : string) (e : entry),
      sh (root_world BranchMain "first commit" None) "git rev-parse HEAD" = Some h
      /\ sha e = h
      /\ h <> "HEAD"
      /\ (7 <= String.length h <= 40)%nat)
  /\ (exists news : list json,
         Permutation
           (loadHistory (snd (run GlobalBranch iso_engine (no_subdir_world GlobalBranch) project))
              DATA_FILE)
           (loadHistory project DATA_FILE ++ news)
         /\ forall a : json,
              In a news -> exists e : entry, a = entry_json e /\ sha e <> "HEAD").
Proof.
  split.
  - destruct (proj1 (proj2 (C4_persisted_sha_passes_gate BranchMain iso_engine
                       (root_world BranchMain "first commit" None) ∅))
                (snd (run BranchMain iso_engine (root_world BranchMain "first commit" None) ∅)))
      as (h & e & Hh & _ & _ & Hs & Hne & _ & Hlen).
    + vm_compute. reflexivity.
    + exists h, e. auto.
  - destruct (proj1 (C4_persisted_sha_passes_gate GlobalBranch iso_engine
                       (no_subdir_world GlobalBranch) project) DATA_FILE)
      as (news & Hp & Hall).
    exists news. split; [exact Hp|].
    intros a Ha. destruct (Hall a Ha) as (e & He & _ & Hne & _). exists e. auto.
Defined.

(** C4, as stated, fails: when [git rev-parse HEAD] prints [ABCDEF0], the
    string passes the gate though it is not lowercase hexadecimal, the run
    ends with status 0, and the record persisted carries that sha. *)
Lemma C4_counterexample :
  exists e : entry,
    sh capitals_world "git rev-parse HEAD" = Some "ABCDEF0"
    /\ sha_lower_hex "ABCDEF0" = false
    /\ sha_gate "ABCDEF0" = true
    /\ getCommitInfo Tracker iso_engine capitals_world ∅ "ABCDEF0" = Some e
    /\ sha e = "ABCDEF0"
    /\ fst (run Tracker iso_engine capitals_world ∅) = 0%Z
    /\ snd (run Tracker iso_engine capitals_world ∅) !! DATA_FILE
       = Some (Json (JArr [entry_json e])).
Proof.
  eexists. repeat split; vm_compute; reflexivity.
Qed.

(** ** The diff statistics *)

(** C6.  In the fallback the counts are read off the output of
    [git show --stat], and that output begins with the commit message.
    For a root commit that adds one file of ten lines, on branch [dev]:
    when the message reads "restore 3 deletions", the two scripts of
    [part_000] take the deletions from it and record 10 additions, 3
    deletions, total 13 ([Tracker] sets the deletions to 0); when the
    message reads "revert 7 insertions", every script takes the additions
    from it and records 7 additions, total 7.  Each run ends with status 0
    and writes that record. *)
Theorem C6_fallback_reads_the_commit_message (v : variant) (E : Engine) :
  let W3 := root_world_on "dev" v "restore 3 deletions" None in
  let W7 := root_world_on "dev" v "revert 7 insertions" None in
  let file := match v with
              | Tracker | GlobalBranch => DATA_FILE
              | BranchMain => "script/commit-history-dev.json"
              end in
  (sh W3 (parents_cmd sample_sha) = Some EmptyString
   /\ sh W3 (diff_cmd v (parentRef W3 sample_sha) sample_sha) = None
   /\ exists e : entry,
        getCommitInfo v E W3 ∅ sample_sha = Some e
        /\ Stats.additions (stats e) = 10%N
        /\ Stats.deletions (stats e)
           = match v with Tracker => 0%N | BranchMain | GlobalBranch => 3%N end
        /\ Stats.total (stats e)
           = match v with Tracker => 10%N | BranchMain | GlobalBranch => 13%N end
        /\ fst (run v E W3 ∅) = 0%Z
        /\ snd (run v E W3 ∅) !! file = Some (Json (JArr [entry_json e])))
  /\ (sh W7 (parents_cmd sample_sha) = Some EmptyString
      /\ sh W7 (diff_cmd v (parentRef W7 sample_sha) sample_sha) = None
      /\ exists e : entry,
           getCommitInfo v E W7 ∅ sample_sha = Some e
           /\ Stats.additions (stats e) = 7%N
           /\ Stats.deletions (stats e) = 0%N
           /\ Stats.total (stats e) = 7%N
           /\ fst (run v E W7 ∅) = 0%Z
           /\ snd (run v E W7 ∅) !! file = Some (Json (JArr [entry_json e]))).
Proof.
  destruct v; cbv zeta;
    (split; (split; [vm_compute; reflexivity|]); (split; [vm_compute; reflexivity|]);
     eexists; (split; [vm_compute; reflexivity|]); repeat split; vm_compute; reflexivity).
Qed.

(** * Further properties of the scripts *)

(** ** More on strings *)

Section MoreStrings.

Lemma append_cons (c : ascii) (a b : string) : String c a ++ b = String c (a ++ b).
Proof. reflexivity. Qed.

Lemma append_nil (b : string) : EmptyString ++ b = b.
Proof. reflexivity. Qed.

Lemma length_append (a b : string) :
  String.length (a ++ b) = (String.length a + String.length b)%nat.
Proof.
  induction a as [|c a IH]; [reflexivity|].
  rewrite append_cons. cbn [String.length Nat.add]. now rewrite IH.
Qed.

Lemma append_empty_r (a : string) : a ++ EmptyString = a.
Proof. induction a as [|c a IH]; [reflexivity|]. now rewrite append_cons, IH. Qed.

(** What [span] returns: the two parts of the string, the first made of
    characters that satisfy [p], the second not starting with one. *)
Lemma span_spec (p : ascii -> bool) (s a b : string) :
  Str.span p s = (a, b) ->
  s = a ++ b /\ Str.all p a = true
  /\ match b with EmptyString => True | String c _ => p c = false end.
Proof.
  revert a b. induction s as [|c s IH]; intros a b; cbn [Str.span].
  - intros [= <- <-]. auto.
  - destruct (p c) eqn:Hc.
    + destruct (Str.span p s) as [a' b'] eqn:Hs. intros [= <- <-].
      destruct (IH a' b' eq_refl) as (-> & Ha & Hb).
      repeat split; [sstep; rewrite Hc, Ha; reflexivity | exact Hb].
    + intros [= <- <-]. repeat split. exact Hc.
Qed.

Lemma span_app (p : ascii -> bool) (a b : string) :
  Str.all p a = true ->
  match b with EmptyString => True | String c _ => p c = false end ->
  Str.span p (a ++ b) = (a, b).
Proof.
  induction a as [|c a IH]; sstep.
  - intros _. rewrite append_nil. destruct b as [|c b]; cbn [Str.span]; [reflexivity|].
    now intros ->.
  - intros H Hb. apply andb_true_iff in H. destruct H as [Hc Ha].
    rewrite append_cons. cbn [Str.span]. rewrite Hc, (IH Ha Hb). reflexivity.
Qed.

Lemma starts_with_app (p s t : string) :
  Str.starts_with p s = true -> Str.starts_with p (s ++ t) = true.
Proof.
  revert s. induction p as [|a p IH]; intros s; [reflexivity|].
  destruct s as [|b s]; [discriminate|].
  rewrite append_cons. cbn [Str.starts_with].
  intros H. apply andb_true_iff in H. destruct H as [-> H]. now rewrite IH.
Qed.

Lemma starts_with_prefix (p t : string) : Str.starts_with p (p ++ t) = true.
Proof.
  induction p as [|a p IH]; [reflexivity|].
  rewrite append_cons. cbn [Str.starts_with]. now rewrite Ascii.eqb_refl.
Qed.

(** [s.replace(/suf$/, empty)] removes the suffix, once. *)
Lemma strip_suffix_app (suf s : string) : Str.strip_suffix suf (s ++ suf) = s.
Proof.
  induction s as [|c s IH].
  - rewrite append_nil. destruct suf; cbn [Str.strip_suffix]; [reflexivity|].
    now rewrite String.eqb_refl.
  - rewrite append_cons. cbn [Str.strip_suffix].
    destruct (String.eqb (String c (s ++ suf)) suf) eqn:Heq.
    + apply String.eqb_eq in Heq. apply (f_equal String.length) in Heq.
      cbn [String.length] in Heq. rewrite length_append in Heq. lia.
    + now rewrite IH.
Qed.

(** ... and leaves alone a string that does not end in it. *)
Lemma strip_suffix_none (suf s : string) :
  Str.ends_with suf s = false -> Str.strip_suffix suf s = s.
Proof.
  induction s as [|c s IH]; cbn [Str.ends_with Str.strip_suffix]; intros H;
    apply orb_false_iff in H; destruct H as [-> H]; [reflexivity|].
  now rewrite IH.
Qed.

Lemma all_app (p : ascii -> bool) (a b : string) :
  Str.all p (a ++ b) = Str.all p a && Str.all p b.
Proof.
  induction a as [|c a IH]; [reflexivity|].
  rewrite append_cons. sstep. now rewrite IH, andb_assoc.
Qed.

End MoreStrings.

(** ** The remote URL *)

Section RemoteUrl.

Variable W : World.

Lemma substring_all (s : string) : String.substring 0 (String.length s) s = s.
Proof. induction s as [|c s IH]; cbn [String.substring String.length]; congruence. Qed.

Lemma is_empty_app (a b : string) :
  Str.is_empty a = false -> Str.is_empty (a ++ b) = false.
Proof. destruct a; [discriminate | reflexivity]. Qed.

(** The pattern [/^git@([^:]+):(.+)$/] on [git@host:path]. *)
Lemma match_git_ssh_scp (host path : string) :
  Str.is_empty host = false ->
  Str.all (fun c => negb (Ascii.eqb c ":"%char)) host = true ->
  Str.is_empty path = false ->
  Str.all (fun c => negb (Str.is_newline c)) path = true ->
  match_git_ssh ("git@" ++ host ++ ":" ++ path) = Some (host, path).
Proof.
  intros Hh Hc Hp Hn. unfold match_git_ssh.
  rewrite starts_with_prefix.
  rewrite !append_cons, !append_nil. cbn [String.length Nat.sub String.substring].
  rewrite Nat.sub_0_r, substring_all.
  rewrite (span_app _ host (String ":" path) Hc eq_refl).
  rewrite Hh, Hp, Hn. reflexivity.
Qed.

(** The URL of a record, from the URL of the repository. *)
Lemma commit_url_of (v : variant) (E : Engine) (fs : store) (h : string) (e : entry)
    (repo : string) :
  getRemoteHttpUrl W = repo ->
  Str.is_empty repo = false ->
  getCommitInfo v E W fs h = Some e ->
  Commit.url (commit e) = repo ++ "/commit/" ++ h.
Proof.
  intros Hr Hne He.
  destruct (getCommitInfo_fields v E W fs h e He) as (_ & Hu & _).
  now rewrite Hu, Hr, Hne.
Qed.

End RemoteUrl.

(** X1.  A remote in the scp-like form [git@host:path], with or without a
    final [.git], is turned into [https://host/path]; the URL of the record
    is that address followed by [/commit/] and the sha. *)
Theorem X1_ssh_remote_becomes_https (W : World) (host path : string) :
  Str.is_empty host = false ->
  Str.all (fun c => negb (Ascii.eqb c ":"%char)) host = true ->
  Str.is_empty path = false ->
  Str.all (fun c => negb (Str.is_newline c)) path = true ->
  sh W "git config --get remote.origin.url" = Some (("git@" ++ host ++ ":" ++ path) ++ ".git")
  \/ (sh W "git config --get remote.origin.url" = Some ("git@" ++ host ++ ":" ++ path)
      /\ Str.ends_with ".git" ("git@" ++ host ++ ":" ++ path) = false) ->
  getRemoteHttpUrl W = "https://" ++ host ++ "/" ++ path
  /\ forall (v : variant) (E : Engine) (fs : store) (h : string) (e : entry),
       getCommitInfo v E W fs h = Some e ->
       Commit.url (commit e) = ("https://" ++ host ++ "/" ++ path) ++ "/commit/" ++ h.
Proof.
  intros Hh Hc Hp Hn Hsh.
  assert (Hurl : getRemoteHttpUrl W = "https://" ++ host ++ "/" ++ path).
  { unfold getRemoteHttpUrl.
    assert (Hraw : exists out, sh W "git config --get remote.origin.url" = Some out
                               /\ Str.strip_suffix ".git" out = "git@" ++ host ++ ":" ++ path).
    { destruct Hsh as [H | [H Hend]]; eexists; (split; [exact H|]).
      - apply strip_suffix_app.
      - apply strip_suffix_none, Hend. }
    destruct Hraw as (out & -> & ->).
    rewrite (match_git_ssh_scp host path Hh Hc Hp Hn). reflexivity. }
  split; [exact Hurl|].
  intros v E fs h e He. apply (commit_url_of W v E fs h e _ Hurl); [reflexivity | exact He].
Qed.

Lemma X1_ssh_remote_becomes_https_witness :
  getRemoteHttpUrl (root_world Tracker "first commit" None)
  = "https://github.com/Oswi142/proyecto-base".
Proof.
  refine (proj1 (X1_ssh_remote_becomes_https (root_world Tracker "first commit" None)
                   "github.com" "Oswi142/proyecto-base" _ _ _ _ _));
    try reflexivity.
  left. reflexivity.
Defined.

(** X2.  A remote that starts with [http] is kept as it is, less one final
    [.git]; the URL of the record is that address followed by [/commit/]
    and the sha. *)
Theorem X2_http_remote_kept (W : World) (u : string) :
  Str.starts_with "http" u = true ->
  sh W "git config --get remote.origin.url" = Some (u ++ ".git")
  \/ (sh W "git config --get remote.origin.url" = Some u
      /\ Str.ends_with ".git" u = false) ->
  getRemoteHttpUrl W = u
  /\ forall (v : variant) (E : Engine) (fs : store) (h : string) (e : entry),
       getCommitInfo v E W fs h = Some e ->
       Commit.url (commit e) = u ++ "/commit/" ++ h.
Proof.
  intros Hu Hsh.
  assert (Hurl : getRemoteHttpUrl W = u).
  { unfold getRemoteHttpUrl.
    assert (Hraw : exists out, sh W "git config --get remote.origin.url" = Some out
                               /\ Str.strip_suffix ".git" out = u).
    { destruct Hsh as [H | [H Hend]]; eexists; (split; [exact H|]).
      - apply strip_suffix_app.
      - apply strip_suffix_none, Hend. }
    destruct Hraw as (out & -> & ->). now rewrite Hu. }
  split; [exact Hurl|].
  intros v E fs h e He. apply (commit_url_of W v E fs h e _ Hurl); [|exact He].
  destruct u; [discriminate Hu | reflexivity].
Qed.

Lemma X2_http_remote_kept_witness :
  getRemoteHttpUrl (remote_world "https://github.com/Oswi142/proyecto-base.git")
  = "https://github.com/Oswi142/proyecto-base".
Proof.
  refine (proj1 (X2_http_remote_kept
                   (remote_world "https://github.com/Oswi142/proyecto-base.git")
                   "https://github.com/Oswi142/proyecto-base" _ _)).
  - reflexivity.
  - left. reflexivity.
Defined.

(** X3.  The address [getRemoteHttpUrl] returns is empty or starts with
    [http]: it is empty when the command fails and when the remote has
    neither the form [http...] nor the form [git@host:path] (an [ssh://]
    remote, for one).  So the URL of a record is empty, or starts with
    [http] and ends in [/commit/] and the sha. *)
Theorem X3_commit_url_empty_or_http
    (v : variant) (E : Engine) (W : World) (fs : store) (h : string) (e : entry) :
  getCommitInfo v E W fs h = Some e ->
  (Commit.url (commit e) = EmptyString
   \/ (Str.starts_with "http" (Commit.url (commit e)) = true
       /\ Str.ends_with ("/commit/" ++ h) (Commit.url (commit e)) = true))
  /\ (sh W "git config --get remote.origin.url" = None ->
      Commit.url (commit e) = EmptyString)
  /\ (forall out : string,
         sh W "git config --get remote.origin.url" = Some out ->
         Str.starts_with "http" (Str.strip_suffix ".git" out) = false ->
         Str.starts_with "git@" (Str.strip_suffix ".git" out) = false ->
         Commit.url (commit e) = EmptyString).
Proof.
  intros He.
  destruct (getCommitInfo_fields v E W fs h e He) as (_ & Hu & _).
  rewrite Hu. unfold getRemoteHttpUrl. split; [|split].
  - destruct (sh W "git config --get remote.origin.url") as [out|]; [|now left].
    destruct (Str.starts_with "http" (Str.strip_suffix ".git" out)) eqn:Hhttp.
    + destruct (Str.is_empty (Str.strip_suffix ".git" out)); [now left|].
      right. split; [now apply starts_with_app | apply ends_with_app].
    + destruct (match_git_ssh (Str.strip_suffix ".git" out)) as [[host repo]|];
        [|now left].
      right. split; [reflexivity | apply ends_with_app].
  - intros ->. reflexivity.
  - intros out -> Hhttp Hgit. rewrite Hhttp. unfold match_git_ssh. rewrite Hgit.
    reflexivity.
Qed.

Lemma X3_commit_url_empty_or_http_witness :
  exists e : entry,
    getCommitInfo Tracker iso_engine (root_world Tracker "first commit" None) ∅ sample_sha
    = Some e
    /\ Str.starts_with "http" (Commit.url (commit e)) = true
    /\ getRemoteHttpUrl (remote_world "ssh://git@github.com/Oswi142/proyecto-base.git")
       = EmptyString.
Proof.
  eexists. split; [vm_compute; reflexivity|].
  destruct (proj1 (X3_commit_url_empty_or_http Tracker iso_engine
                     (root_world Tracker "first commit" None) ∅ sample_sha _ eq_refl))
    as [H | [H _]].
  - discriminate H.
  - split; [exact H | reflexivity].
Defined.

(** ** The parent of the diff *)

(** X4.  When [git log --pretty=%P] lists parents, the diff is taken
    against the first of them (the first parent of a merge), and the two
    counts of the record are read off the output of that diff; the
    reference is never the empty string. *)
Theorem X4_diff_against_first_parent
    (v : variant) (W : World) (h first others : string) :
  Str.is_empty first = false ->
  Str.all (fun c => negb (Ascii.eqb c " "%char)) first = true ->
  others = EmptyString \/ Str.starts_with " " others = true ->
  sh W (parents_cmd h) = Some (first ++ others) ->
  parentRef W h = first
  /\ (forall out : string,
         sh W (diff_cmd v first h) = Some out ->
         diff_stats v W h = (count_of "insertion" out, count_of "deletion" out))
  /\ (forall (W' : World) (h' : string), Str.is_empty (parentRef W' h') = false).
Proof.
  intros Hne Hns Hothers Hp.
  assert (Href : parentRef W h = first).
  { unfold parentRef. rewrite Hp, (is_empty_app first others Hne). unfold Str.before.
    rewrite (span_app _ first others Hns).
    - cbn [fst]. now rewrite Hne.
    - destruct Hothers as [-> | Hsp]; [exact I|].
      destruct others as [|c others]; [exact I|].
      cbn [Str.starts_with] in Hsp. rewrite andb_true_r in Hsp.
      apply Ascii.eqb_eq in Hsp. subst c. reflexivity. }
  split; [exact Href|]. split.
  - intros out Hout. unfold diff_stats. rewrite Href, Hout. reflexivity.
  - intros W' h'. unfold parentRef.
    assert (Hdef : Str.is_empty (h' ++ "~1") = false) by (destruct h'; reflexivity).
    destruct (sh W' (parents_cmd h')) as [parents|]; [|exact Hdef].
    destruct (Str.is_empty parents); [exact Hdef|].
    destruct (Str.is_empty (Str.before " " parents)) eqn:Hb; [exact Hdef | exact Hb].
Qed.

Lemma X4_diff_against_first_parent_witness :
  parentRef (merge_world Tracker) sample_sha = "1111111"
  /\ diff_stats Tracker (merge_world Tracker) sample_sha = (7%N, 2%N).
Proof.
  pose proof (X4_diff_against_first_parent Tracker (merge_world Tracker) sample_sha
                "1111111" " 2222222" eq_refl eq_refl (or_intror eq_refl) eq_refl)
    as (Href & Hdiff & _).
  split; [exact Href|].
  exact (Hdiff " 2 files changed, 7 insertions(+), 2 deletions(-)" eq_refl).
Defined.

(** ** The counts of the diff *)

Section Counts.

Lemma digits_value_decimal (d : Decimal.uint) (acc : N) :
  Str.digits_value acc (NilEmpty.string_of_uint d)
  = N.of_nat (Nat.of_uint_acc d (N.to_nat acc)).
Proof.
  revert acc. induction d; intros acc;
    cbn [NilEmpty.string_of_uint Str.digits_value Nat.of_uint_acc];
    [now rewrite N2Nat.id | ..].
  all: rewrite IHd; f_equal.
  all: rewrite Nat.tail_mul_spec, N2Nat.inj_add, N2Nat.inj_mul, Nat2N.id.
  all: f_equal.
  all: match goal with
    | |- context [Str.code ?c] =>
        let n := eval vm_compute in (Str.code c) in change (Str.code c) with n
    end;
    cbn [Nat.sub]; change (N.to_nat 10) with 10%nat; lia.
Qed.

(** [parseInt] reads a decimal notation back. *)
Lemma parseInt_decimal (n : nat) : Str.parseInt (decimal n) = N.of_nat n.
Proof.
  unfold Str.parseInt, decimal. rewrite digits_value_decimal.
  change (Nat.of_uint_acc (Nat.to_uint n) (N.to_nat 0)) with (Nat.of_uint (Nat.to_uint n)).
  now rewrite DecimalNat.Unsigned.of_to.
Qed.

Lemma string_of_uint_digits (d : Decimal.uint) :
  Str.all Str.is_digit (NilEmpty.string_of_uint d) = true.
Proof. induction d; cbn [NilEmpty.string_of_uint]; sstep; auto. Qed.

Lemma decimal_digits (n : nat) : Str.all Str.is_digit (decimal n) = true.
Proof. apply string_of_uint_digits. Qed.

Lemma decimal_nonempty (n : nat) : Str.is_empty (decimal n) = false.
Proof.
  unfold decimal.
  assert (H : Nat.to_uint n <> Decimal.Nil).
  { rewrite <- (DecimalNat.Unsigned.of_to n), DecimalNat.Unsigned.to_of.
    apply DecimalFacts.unorm_nonnil. }
  destruct (Nat.to_uint n); [congruence | reflexivity ..].
Qed.

End Counts.

Lemma starts_with_stop (word z t : string) :
  Str.all (fun c => negb (Ascii.eqb c " "%char)) word = true ->
  Str.starts_with word (z ++ String " " t) = Str.starts_with word z.
Proof.
  revert z. induction word as [|a w IH]; intros z Hw; [reflexivity|].
  cbn [Str.all] in Hw. apply andb_true_iff in Hw. destruct Hw as [Ha Hw].
  apply negb_true_iff in Ha.
  destruct z as [|b z].
  - rewrite append_nil. cbn [Str.starts_with]. now rewrite Ha.
  - rewrite append_cons. cbn [Str.starts_with]. now rewrite IH.
Qed.

Lemma span_append (p : ascii -> bool) (a b x y : string) :
  Str.span p a = (x, y) ->
  Str.span p (a ++ b)
  = match y with
    | EmptyString => let '(x', y') := Str.span p b in (x ++ x', y')
    | String _ _ => (x, y ++ b)
    end.
Proof.
  revert x y. induction a as [|c a IH]; intros x y.
  - cbn [Str.span]. intros [= <- <-]. rewrite !append_nil.
    destruct (Str.span p b); reflexivity.
  - rewrite append_cons. cbn [Str.span]. destruct (p c) eqn:Hc.
    + destruct (Str.span p a) as [x0 y0]. intros [= <- <-].
      rewrite (IH x0 y0 eq_refl).
      destruct y0; [destruct (Str.span p b); reflexivity | reflexivity].
    + intros [= <- <-]. reflexivity.
Qed.

Lemma digit_not_space (c : ascii) : Str.is_digit c = true -> Str.is_space c = false.
Proof. destruct c as [[] [] [] [] [] [] [] []]; (discriminate || reflexivity). Qed.

Section CountMatch.

Variable word : string.

Lemma count_here_nondigit (c : ascii) (s : string) :
  Str.is_digit c = false -> count_here word (String c s) = None.
Proof. intros H. unfold count_here. cbn [Str.span]. rewrite H. reflexivity. Qed.

Lemma count_match_skip (c : ascii) (s : string) :
  Str.is_digit c = false -> count_match word (String c s) = count_match word s.
Proof. intros H. cbn [count_match]. now rewrite count_here_nondigit. Qed.

(** A stretch without digits holds no match. *)
Lemma count_match_skip_all (pre s : string) :
  Str.all (fun c => negb (Str.is_digit c)) pre = true ->
  count_match word (pre ++ s) = count_match word s.
Proof.
  induction pre as [|c pre IH]; [reflexivity|].
  sstep. intros H. apply andb_true_iff in H. destruct H as [Hc H].
  rewrite append_cons, count_match_skip; [auto | now apply negb_true_iff].
Qed.

Lemma count_here_digits (ds r : string) :
  Str.all Str.is_digit ds = true -> Str.is_empty ds = false ->
  match r with EmptyString => True | String c _ => Str.is_digit c = false end ->
  count_here word (ds ++ r) = if after_digits word r then Some ds else None.
Proof.
  intros Hd Hne Hr. unfold count_here, after_digits.
  rewrite (span_app _ ds r Hd Hr), Hne.
  destruct (Str.span Str.is_space r) as [ws r'].
  destruct (Str.is_empty ws); cbn [negb andb]; [reflexivity|].
  destruct (Str.starts_with word r'); reflexivity.
Qed.

(** A run of digits is the count when spaces and the word follow it; when
    they do not, the search goes on behind it. *)
Lemma count_match_digits (ds r : string) :
  Str.all Str.is_digit ds = true -> Str.is_empty ds = false ->
  match r with EmptyString => True | String c _ => Str.is_digit c = false end ->
  count_match word (ds ++ r)
  = if after_digits word r then Some ds else count_match word r.
Proof.
  intros Hd Hne Hr. induction ds as [|c ds IH]; [discriminate|].
  pose proof Hd as Hd'. cbn [Str.all] in Hd'. apply andb_true_iff in Hd'. destruct Hd' as [Hc Hds].
  rewrite append_cons. cbn [count_match].
  change (String c (ds ++ r)) with (String c ds ++ r).
  rewrite (count_here_digits (String c ds) r Hd eq_refl Hr).
  destruct (after_digits word r) eqn:Ha; [reflexivity|].
  destruct ds as [|c' ds]; [reflexivity|].
  apply (IH Hds eq_refl).
Qed.

Hypothesis word_nonempty : Str.is_empty word = false.
Hypothesis word_no_space : Str.all (fun c => negb (Ascii.eqb c " "%char)) word = true.
Hypothesis word_no_digit :
  match word with EmptyString => True | String c _ => Str.is_digit c = false end.

Lemma starts_with_digit (t : string) :
  match t with EmptyString => True | String c _ => Str.is_digit c = true end ->
  Str.starts_with word t = false.
Proof.
  destruct word as [|a w]; [discriminate|].
  destruct t as [|c t]; [reflexivity|]. intros Hc. cbn [Str.starts_with].
  destruct (Ascii.eqb a c) eqn:Hac; [|reflexivity].
  apply Ascii.eqb_eq in Hac. subst c. congruence.
Qed.

Lemma span_space_digit (t : string) :
  match t with EmptyString => True | String c _ => Str.is_digit c = true end ->
  Str.span Str.is_space (String " " t) = (" ", t).
Proof.
  intros Ht. change (Str.span Str.is_space (String " " t))
    with (let '(a, b) := Str.span Str.is_space t in (String " "%char a, b)).
  destruct t as [|c t]; [reflexivity|].
  cbn [Str.span]. now rewrite (digit_not_space c Ht).
Qed.

(** Whether the pattern matches at the head of a text that a space cuts
    is settled before the space. *)
Lemma count_here_local (q t : string) :
  match t with EmptyString => True | String c _ => Str.is_digit c = true end ->
  count_here word (q ++ " ") = None ->
  count_here word (q ++ String " " t) = None.
Proof.
  intros Ht. unfold count_here.
  destruct (Str.span Str.is_digit q) as [x y] eqn:Hq.
  rewrite (span_append _ q " " x y Hq), (span_append _ q (String " " t) x y Hq).
  destruct y as [|c y].
  - intros _.
    change (Str.span Str.is_digit (String " " t)) with (EmptyString, String " " t).
    cbv beta iota zeta.
    destruct (Str.is_empty (x ++ EmptyString)); [reflexivity|].
    rewrite (span_space_digit t Ht), (starts_with_digit t Ht). reflexivity.
  - destruct (Str.is_empty x); [reflexivity|].
    destruct (Str.span Str.is_space (String c y)) as [ws z] eqn:Hy.
    rewrite (span_append _ _ " " ws z Hy), (span_append _ _ (String " " t) ws z Hy).
    destruct z as [|d z].
    + intros _. rewrite (span_space_digit t Ht). cbv beta iota zeta.
      destruct (Str.is_empty (ws ++ " ")); [reflexivity|].
      now rewrite (starts_with_digit t Ht).
    + destruct (Str.is_empty ws); [reflexivity|].
      now rewrite !(starts_with_stop word _ _ word_no_space).
Qed.

(** A text that holds no match when a space follows it holds none when a
    space and a number follow it. *)
Lemma count_match_quiet (pre t : string) :
  match t with EmptyString => True | String c _ => Str.is_digit c = true end ->
  count_match word (pre ++ " ") = None ->
  count_match word (pre ++ String " " t) = count_match word (String " " t).
Proof.
  intros Ht. induction pre as [|c pre IH]; [reflexivity|].
  rewrite !append_cons. cbn [count_match].
  destruct (count_here word (String c (pre ++ " "))) eqn:Hh; [discriminate|].
  intros Hm.
  change (String c (pre ++ String " " t)) with (String c pre ++ String " " t).
  rewrite (count_here_local (String c pre) t Ht Hh).
  apply IH, Hm.
Qed.

End CountMatch.

Lemma decimal_head (n : nat) (r : string) :
  match decimal n ++ r with
  | EmptyString => True
  | String c _ => Str.is_digit c = true
  end.
Proof.
  pose proof (decimal_digits n) as Hd. pose proof (decimal_nonempty n) as Hne.
  destruct (decimal n) as [|c s]; [discriminate|].
  rewrite append_cons. cbn [Str.all] in Hd. now apply andb_true_iff in Hd.
Qed.

Lemma count_match_number (word : string) (n : nat) (r : string) :
  match r with EmptyString => True | String c _ => Str.is_digit c = false end ->
  count_match word (decimal n ++ r)
  = if after_digits word r then Some (decimal n) else count_match word r.
Proof. apply count_match_digits; [apply decimal_digits | apply decimal_nonempty]. Qed.

Lemma plural_no_digit (n : nat) :
  Str.all (fun c => negb (Str.is_digit c)) (plural n) = true.
Proof. unfold plural. destruct (Nat.eqb n 1); reflexivity. Qed.

(** The head of the summary line, [ N file(s) changed], holds no count of
    insertions or deletions. *)
Lemma count_match_summary_head (word pre rest : string) (f : nat) :
  Str.is_empty word = false ->
  Str.all (fun c => negb (Ascii.eqb c " "%char)) word = true ->
  match word with EmptyString => True | String c _ => Str.is_digit c = false end ->
  after_digits word (" file" ++ plural f ++ " changed" ++ rest) = false ->
  count_match word (pre ++ " ") = None ->
  count_match word (pre ++ " " ++ decimal f ++ " file" ++ plural f ++ " changed" ++ rest)
  = count_match word rest.
Proof.
  intros Hne Hsp Hd Hafter Hpre.
  change (" " ++ decimal f ++ " file" ++ plural f ++ " changed" ++ rest)
    with (String " "%char (decimal f ++ " file" ++ plural f ++ " changed" ++ rest)).
  rewrite (count_match_quiet word Hne Hsp Hd pre
             (decimal f ++ " file" ++ plural f ++ " changed" ++ rest)
             (decimal_head f _) Hpre).
  rewrite (count_match_skip word " "%char) by reflexivity.
  rewrite count_match_number by exact eq_refl. rewrite Hafter.
  rewrite (count_match_skip_all word " file") by reflexivity.
  rewrite (count_match_skip_all word (plural f)) by apply plural_no_digit.
  rewrite (count_match_skip_all word " changed") by reflexivity.
  reflexivity.
Qed.

(** X5.  On the summary line git prints at the end of [--stat], for
    numbers of lines up to 2^53 (the integers a JavaScript number holds
    without rounding, on which [parseInt] is exact), the two patterns read
    back the lines added and the lines removed, 0 for the part git leaves
    out; the text before the summary line may be any text in which, a
    space put after it, neither pattern matches. *)
Theorem X5_counts_read_back_from_summary (pre : string) (f a d : nat) :
  (N.of_nat a <= 2 ^ 53)%N ->
  (N.of_nat d <= 2 ^ 53)%N ->
  count_match "insertion" (pre ++ " ") = None ->
  count_match "deletion" (pre ++ " ") = None ->
  count_of "insertion" (pre ++ shortstat f a d) = N.of_nat a
  /\ count_of "deletion" (pre ++ shortstat f a d) = N.of_nat d.
Proof.
  intros _ _ Hi Hd. unfold count_of, shortstat.
  rewrite (count_match_summary_head "insertion" pre _ f eq_refl eq_refl eq_refl eq_refl Hi).
  rewrite (count_match_summary_head "deletion" pre _ f eq_refl eq_refl eq_refl eq_refl Hd).
  unfold insertions_part, deletions_part.
  destruct (Nat.eqb a 0) eqn:Ha, (Nat.eqb d 0) eqn:Hd0; cbn [negb orb];
    rewrite ?append_nil, ?append_empty_r, ?append_assoc;
    repeat first
      [ rewrite (count_match_skip_all _ ", ") by reflexivity
      | rewrite (count_match_skip_all _ " insertion") by reflexivity
      | rewrite (count_match_skip_all _ " deletion") by reflexivity
      | rewrite (count_match_skip_all _ (plural _)) by apply plural_no_digit
      | rewrite (count_match_skip_all _ "(+)") by reflexivity
      | rewrite (count_match_skip_all _ "(-)") by reflexivity
      | rewrite count_match_number by exact eq_refl;
        match goal with
        | |- context [after_digits ?w ?r] =>
            let b := eval lazy in (after_digits w r) in
            change (after_digits w r) with b
        end; cbv iota ];
    rewrite ?parseInt_decimal;
    try apply Nat.eqb_eq in Ha; try apply Nat.eqb_eq in Hd0; subst;
    split; reflexivity.
Qed.

Lemma X5_counts_read_back_from_summary_witness :
  count_of "insertion" ("src/a1.js | 12 ++++++++++--
" ++ shortstat 1 10 2) = 10%N
  /\ count_of "deletion" ("src/a1.js | 12 ++++++++++--
" ++ shortstat 1 10 2) = 2%N.
Proof.
  apply (X5_counts_read_back_from_summary "src/a1.js | 12 ++++++++++--
" 1 10 2); vm_compute; (reflexivity || discriminate).
Defined.

Lemma starts_with_inv (p s : string) :
  Str.starts_with p s = true -> exists t, s = p ++ t.
Proof.
  revert s. induction p as [|a p IH]; intros s; [exists s; reflexivity|].
  destruct s as [|b s]; cbn [Str.starts_with]; [discriminate|].
  intros H. apply andb_true_iff in H. destruct H as [Hab H].
  apply Ascii.eqb_eq in Hab. subst b.
  destruct (IH s H) as [t ->]. exists t. reflexivity.
Qed.

Lemma count_here_sound (word s ds : string) :
  count_here word s = Some ds ->
  exists ws post : string,
    s = ds ++ ws ++ word ++ post
    /\ Str.all Str.is_digit ds = true /\ Str.is_empty ds = false
    /\ Str.all Str.is_space ws = true /\ Str.is_empty ws = false.
Proof.
  unfold count_here.
  destruct (Str.span Str.is_digit s) as [x r] eqn:Hx.
  destruct (Str.is_empty x) eqn:Hne; [discriminate|].
  destruct (Str.span Str.is_space r) as [ws r'] eqn:Hws.
  destruct (Str.is_empty ws) eqn:Hwne; [discriminate|].
  destruct (Str.starts_with word r') eqn:Hw; [|discriminate].
  intros [= <-].
  destruct (span_spec _ _ _ _ Hx) as (-> & Hd & _).
  destruct (span_spec _ _ _ _ Hws) as (-> & Hs & _).
  destruct (starts_with_inv _ _ Hw) as [post ->].
  exists ws, post. auto.
Qed.

Lemma count_here_complete (word ds ws post : string) :
  match word with EmptyString => False | String c _ => Str.is_space c = false end ->
  Str.all Str.is_digit ds = true -> Str.is_empty ds = false ->
  Str.all Str.is_space ws = true -> Str.is_empty ws = false ->
  count_here word (ds ++ ws ++ word ++ post) = Some ds.
Proof.
  intros Hw Hd Hne Hs Hwne. unfold count_here.
  rewrite (span_app _ ds (ws ++ word ++ post) Hd), Hne.
  - rewrite (span_app _ ws (word ++ post) Hs), Hwne.
    + now rewrite starts_with_prefix.
    + destruct word as [|c w]; [contradiction | exact Hw].
  - destruct ws as [|c ws]; [discriminate|].
    rewrite append_cons. cbn [Str.all] in Hs. apply andb_true_iff in Hs.
    destruct Hs as [Hc _].
    destruct (Str.is_digit c) eqn:Hdc; [|reflexivity].
    apply digit_not_space in Hdc. congruence.
Qed.

Lemma count_match_here (word s ds : string) :
  count_here word s = Some ds -> count_match word s = Some ds.
Proof. intros H. destruct s; cbn [count_match]; now rewrite H. Qed.

(** The search stops at the first position where the pattern matches. *)
Lemma count_match_first (word s ds : string) :
  count_match word s = Some ds ->
  exists pre rest : string,
    s = pre ++ rest /\ count_here word rest = Some ds
    /\ forall pre' rest' : string,
         s = pre' ++ rest' -> (String.length pre' < String.length pre)%nat ->
         count_here word rest' = None.
Proof.
  induction s as [|c s IH]; cbn [count_match].
  - destruct (count_here word EmptyString) as [x|] eqn:Hh; [|discriminate].
    intros [= ->]. exists EmptyString, EmptyString.
    repeat split; [exact Hh|]. intros pre' rest' _ Hlt. cbn in Hlt. lia.
  - destruct (count_here word (String c s)) as [x|] eqn:Hh.
    + intros [= ->]. exists EmptyString, (String c s).
      repeat split; [exact Hh|]. intros pre' rest' _ Hlt. cbn in Hlt. lia.
    + intros H. destruct (IH H) as (pre & rest & -> & Hr & Hbefore).
      exists (String c pre), rest. repeat split; [exact Hr|].
      intros pre' rest' Heq Hlt. destruct pre' as [|c' pre'].
      * rewrite append_nil in Heq. now rewrite <- Heq.
      * rewrite !append_cons in Heq. injection Heq as _ Heq.
        apply (Hbefore pre' rest' Heq). cbn [String.length] in Hlt. lia.
Qed.

(** It passes every position where the pattern does not match. *)
Lemma count_match_later (word pre rest : string) :
  (forall pre' rest' : string,
      pre ++ rest = pre' ++ rest' -> (String.length pre' < String.length pre)%nat ->
      count_here word rest' = None) ->
  count_match word (pre ++ rest) = count_match word rest.
Proof.
  induction pre as [|c pre IH]; intros H; [reflexivity|].
  rewrite append_cons. cbn [count_match].
  rewrite (H EmptyString (String c (pre ++ rest))); [|reflexivity | cbn; lia].
  apply IH. intros pre' rest' Heq Hlt.
  apply (H (String c pre') rest'); [rewrite !append_cons; now rewrite Heq | cbn; lia].
Qed.

(** X6.  What [/(\d+)\s+word/] captures is a run of digits of the text
    that white space and the word follow, at the leftmost position where
    digits, white space and the word stand in a row: the pattern yields
    [ds] exactly when the text matches there with [ds] and matches at no
    earlier position, and it yields nothing exactly when the text matches
    nowhere, in which case the count is 0.  (The word does not start with
    white space: the two words of the scripts do not.) *)
Theorem X6_capture_is_the_leftmost_match (word s : string) :
  match word with EmptyString => False | String c _ => Str.is_space c = false end ->
  (forall ds : string,
      count_match word s = Some ds <->
      exists pre ws post : string,
        matches_at word pre ds ws post s
        /\ forall pre' ds' ws' post' : string,
             matches_at word pre' ds' ws' post' s ->
             (String.length pre <= String.length pre')%nat)
  /\ (count_match word s = None <->
      forall pre ds ws post : string, ~ matches_at word pre ds ws post s)
  /\ (count_match word s = None -> count_of word s = 0%N).
Proof.
  intros Hw.
  assert (Hfwd : forall ds : string,
             count_match word s = Some ds ->
             exists pre ws post : string,
               matches_at word pre ds ws post s
               /\ forall pre' ds' ws' post' : string,
                    matches_at word pre' ds' ws' post' s ->
                    (String.length pre <= String.length pre')%nat).
  { intros ds H.
    destruct (count_match_first word s ds H) as (pre & rest & Hs & Hr & Hbefore).
    destruct (count_here_sound _ _ _ Hr) as (ws & post & Hrest & Hd & Hne & Hsp & Hwne).
    exists pre, ws, post. split; [unfold matches_at; subst; auto|].
    intros pre' ds' ws' post' (Hs' & Hd' & Hne' & Hsp' & Hwne').
    destruct (le_lt_dec (String.length pre) (String.length pre')) as [|Hlt]; [assumption|].
    pose proof (Hbefore pre' _ Hs' Hlt) as Hnone.
    rewrite (count_here_complete word ds' ws' post' Hw Hd' Hne' Hsp' Hwne') in Hnone.
    discriminate Hnone. }
  assert (Hbwd : forall pre ds ws post : string,
             matches_at word pre ds ws post s ->
             (forall pre' ds' ws' post' : string,
                 matches_at word pre' ds' ws' post' s ->
                 (String.length pre <= String.length pre')%nat) ->
             count_match word s = Some ds).
  { intros pre ds ws post (Hs & Hd & Hne & Hsp & Hwne) Hleft.
    rewrite Hs. rewrite count_match_later.
    - apply count_match_here. now apply count_here_complete.
    - intros pre' rest' Heq Hlt.
      destruct (count_here word rest') as [ds'|] eqn:Hh; [|reflexivity].
      destruct (count_here_sound _ _ _ Hh) as (ws' & post' & Hrest' & Hd' & Hne' & Hsp' & Hwne').
      assert (Hm : matches_at word pre' ds' ws' post' s).
      { unfold matches_at. rewrite Hs, Heq, Hrest'. auto. }
      pose proof (Hleft _ _ _ _ Hm). lia. }
  split; [|split].
  - intros ds. split; [apply Hfwd|].
    intros (pre & ws & post & Hm & Hleft). exact (Hbwd pre ds ws post Hm Hleft).
  - split.
    + intros Hnone pre ds ws post (Hs & Hd & Hne & Hsp & Hwne).
      revert Hnone. rewrite Hs. clear Hs Hfwd Hbwd.
      induction pre as [|c pre IH].
      * rewrite append_nil.
        rewrite (count_match_here word _ ds
                   (count_here_complete word ds ws post Hw Hd Hne Hsp Hwne)).
        discriminate.
      * rewrite append_cons. cbn [count_match].
        destruct (count_here word _); [discriminate | exact IH].
    + intros Hno. destruct (count_match word s) as [ds|] eqn:Hm; [|reflexivity].
      destruct (Hfwd ds eq_refl) as (pre & ws & post & Hmatch & _).
      destruct (Hno _ _ _ _ Hmatch).
  - intros H. unfold count_of. now rewrite H.
Qed.

Lemma X6_capture_is_the_leftmost_match_witness :
  exists pre ws post : string,
    matches_at "insertion" pre "3" ws post
      "    add 3 insertion points

 1 file changed, 10 insertions(+), 12 deletions(-)"
    /\ forall pre' ds' ws' post' : string,
         matches_at "insertion" pre' ds' ws' post'
           "    add 3 insertion points

 1 file changed, 10 insertions(+), 12 deletions(-)" ->
         (String.length pre <= String.length pre')%nat.
Proof.
  apply (proj1 (proj1 (X6_capture_is_the_leftmost_match "insertion"
     "    add 3 insertion points

 1 file changed, 10 insertions(+), 12 deletions(-)" eq_refl) "3")).
  vm_compute. reflexivity.
Defined.

(** ** The fields of the record *)

Section RecordFields.

Variables (v : variant) (E : Engine) (W : World) (fs : store).

(** The texts of the record are the answers of git, as they come. *)
Lemma getCommitInfo_texts (h : string) (e : entry) :
  getCommitInfo v E W fs h = Some e ->
  sh W ("git log -1 --pretty=%B " ++ h) = Some (Commit.message (commit e))
  /\ sh W ("git log -1 --pretty=%cI " ++ h) = Some (Commit.date (commit e))
  /\ sh W ("git log -1 --pretty=%an " ++ h) = Some (author e)
  /\ Stats.date (stats e) = Str.before "T" (Commit.date (commit e)).
Proof.
  unfold getCommitInfo.
  destruct (sh W ("git log -1 --pretty=%B " ++ h)); [|discriminate].
  destruct (sh W ("git log -1 --pretty=%cI " ++ h)); [|discriminate].
  destruct (sh W ("git log -1 --pretty=%an " ++ h)); [|discriminate].
  destruct (diff_stats v W h) as [a d].
  intros [= <-]. cbn. auto.
Qed.

Lemma getCommitInfo_built (h m d a : string) :
  sh W ("git log -1 --pretty=%B " ++ h) = Some m ->
  sh W ("git log -1 --pretty=%cI " ++ h) = Some d ->
  sh W ("git log -1 --pretty=%an " ++ h) = Some a ->
  exists e : entry, getCommitInfo v E W fs h = Some e.
Proof.
  intros Hm Hd Ha. unfold getCommitInfo. rewrite Hm, Hd, Ha.
  destruct (diff_stats v W h). eauto.
Qed.

End RecordFields.

(** X7.  [stats.date] is the part of [commit.date] that precedes its first
    [T]: it holds no [T], and [commit.date] is that part alone or that part
    followed by [T] and the rest; for a timestamp [<day>T<time>] it is the
    day. *)
Theorem X7_stats_date_is_the_day
    (v : variant) (E : Engine) (W : World) (fs : store) (h : string) (e : entry) :
  getCommitInfo v E W fs h = Some e ->
  Str.all (fun c => negb (Ascii.eqb c "T"%char)) (Stats.date (stats e)) = true
  /\ (Commit.date (commit e) = Stats.date (stats e)
      \/ exists time : string,
           Commit.date (commit e) = Stats.date (stats e) ++ "T" ++ time)
  /\ (forall day time : string,
         Commit.date (commit e) = day ++ "T" ++ time ->
         Str.all (fun c => negb (Ascii.eqb c "T"%char)) day = true ->
         Stats.date (stats e) = day).
Proof.
  intros He. destruct (getCommitInfo_texts v E W fs h e He) as (_ & _ & _ & Hday).
  rewrite Hday. unfold Str.before.
  destruct (Str.span (fun c => negb (Ascii.eqb c "T"%char)) (Commit.date (commit e)))
    as [day rest] eqn:Hspan.
  destruct (span_spec _ _ _ _ Hspan) as (Hd & Hall & Hrest). cbn [fst].
  split; [exact Hall|]. split.
  - destruct rest as [|c rest].
    + left. now rewrite Hd, append_empty_r.
    + right. exists rest. rewrite Hd. apply negb_false_iff, Ascii.eqb_eq in Hrest.
      now subst c.
  - intros day' time Hd' Hall'. rewrite Hd' in Hspan.
    rewrite (span_app _ day' ("T" ++ time) Hall' eq_refl) in Hspan. congruence.
Qed.

Lemma X7_stats_date_is_the_day_witness :
  exists e : entry,
    getCommitInfo Tracker iso_engine (root_world Tracker "first commit" None) ∅ sample_sha
    = Some e
    /\ Commit.date (commit e) = "2024-05-01T10:00:00+00:00"
    /\ Stats.date (stats e) = "2024-05-01".
Proof.
  eexists. split; [vm_compute; reflexivity|]. split; [reflexivity|].
  refine (proj2 (proj2 (X7_stats_date_is_the_day Tracker iso_engine
                          (root_world Tracker "first commit" None) ∅ sample_sha _ eq_refl))
            "2024-05-01" "10:00:00+00:00" eq_refl eq_refl).
Defined.

(** X8.  [getCommitInfo] returns [null] exactly when one of the three
    [git log] commands for the message, the date and the author fails.
    When the three answer, a record is built whatever else fails (the
    remote, the parents, the diff, the tests, the branch), and it carries
    the three answers and the sha it was asked for. *)
Theorem X8_record_built_iff_metadata_read
    (v : variant) (E : Engine) (W : World) (fs : store) (h : string) :
  (getCommitInfo v E W fs h = None
   <-> sh W ("git log -1 --pretty=%B " ++ h) = None
       \/ sh W ("git log -1 --pretty=%cI " ++ h) = None
       \/ sh W ("git log -1 --pretty=%an " ++ h) = None)
  /\ (forall m d a : string,
         sh W ("git log -1 --pretty=%B " ++ h) = Some m ->
         sh W ("git log -1 --pretty=%cI " ++ h) = Some d ->
         sh W ("git log -1 --pretty=%an " ++ h) = Some a ->
         exists e : entry,
           getCommitInfo v E W fs h = Some e
           /\ sha e = h /\ author e = a
           /\ Commit.message (commit e) = m /\ Commit.date (commit e) = d).
Proof.
  split.
  - split.
    + intros Hnone.
      destruct (sh W ("git log -1 --pretty=%B " ++ h)) as [m|] eqn:Hm; [|auto].
      destruct (sh W ("git log -1 --pretty=%cI " ++ h)) as [d|] eqn:Hd; [|auto].
      destruct (sh W ("git log -1 --pretty=%an " ++ h)) as [a|] eqn:Ha; [|auto].
      destruct (getCommitInfo_built v E W fs h m d a Hm Hd Ha) as [e He]. congruence.
    + intros H. destruct (getCommitInfo v E W fs h) as [e|] eqn:He; [|reflexivity].
      destruct (getCommitInfo_texts v E W fs h e He) as (Hm & Hd & Ha & _).
      destruct H as [H | [H | H]]; congruence.
  - intros m d a Hm Hd Ha.
    destruct (getCommitInfo_built v E W fs h m d a Hm Hd Ha) as [e He].
    exists e. split; [exact He|].
    destruct (getCommitInfo_texts v E W fs h e He) as (Hm' & Hd' & Ha' & _).
    destruct (getCommitInfo_fields v E W fs h e He) as (Hs & _).
    repeat split; congruence.
Qed.

Lemma X8_record_built_iff_metadata_read_witness :
  (exists e : entry,
      getCommitInfo Tracker iso_engine log_only_world ∅ sample_sha = Some e
      /\ author e = "Ada" /\ Commit.date (commit e) = "2024-05-01T10:00:00+00:00")
  /\ getCommitInfo Tracker iso_engine silent_world ∅ sample_sha = None.
Proof.
  split.
  - destruct (proj2 (X8_record_built_iff_metadata_read Tracker iso_engine log_only_world
                       ∅ sample_sha) _ _ _ eq_refl eq_refl eq_refl)
      as (e & He & _ & Ha & _ & Hd).
    exists e. auto.
  - apply (proj1 (X8_record_built_iff_metadata_read Tracker iso_engine silent_world
                    ∅ sample_sha)).
    left. reflexivity.
Defined.

(** ** The test section *)

(** X9.  Without a [package.json], without a report file after the test
    run, or with a report that is not JSON or is JSON but not an object,
    the record has the initial values: no tests, no failed tests, coverage
    0, verdict ["neutral"]. *)
Theorem X9_no_report_gives_defaults
    (v : variant) (E : Engine) (W : World) (fs : store) (h : string) (e : entry) :
  getCommitInfo v E W fs h = Some e ->
  fs !! "package.json" = None
  \/ jest_report W = None
  \/ jest_report W = Some Malformed
  \/ (exists j : json, jest_report W = Some (Json j) /\ forall kv, j <> JObj kv) ->
  test_count e = JNum 0
  /\ failed_tests e = JNum 0
  /\ coverage e = 0%Q
  /\ conclusion e = "neutral".
Proof.
  intros He H.
  destruct (getCommitInfo_fields v E W fs h e He)
    as (_ & _ & _ & _ & _ & Hc & Htc & Hft & Hcl & _).
  rewrite Hc, Htc, Hft, Hcl.
  assert (Hinit : run_tests v E W fs = Tests.initial
                  \/ exists j, (forall kv, j <> JObj kv)
                               /\ run_tests v E W fs
                                  = fst (read_report v E (Json j) Tests.initial)).
  { unfold run_tests. destruct H as [Hp | [Hr | [Hr | (j & Hr & Hj)]]].
    - left. rewrite bool_decide_eq_false_2; [reflexivity|].
      rewrite Hp. intros [x Hx]. discriminate Hx.
    - left. rewrite Hr. destruct (bool_decide _); reflexivity.
    - left. rewrite Hr. destruct (bool_decide _); reflexivity.
    - rewrite Hr. destruct (bool_decide _); [|now left].
      right. exists j. auto. }
  destruct Hinit as [-> | (j & Hj & ->)]; [repeat split|].
  destruct j as [| b | q | s | l | kv]; try (repeat split; reflexivity).
  exfalso. exact (Hj kv eq_refl).
Qed.

Lemma X9_no_report_gives_defaults_witness :
  exists e : entry,
    getCommitInfo Tracker iso_engine
      (root_world Tracker "first commit" (Some (Json (JArr [])))) project sample_sha = Some e
    /\ test_count e = JNum 0 /\ conclusion e = "neutral".
Proof.
  eexists. split; [vm_compute; reflexivity|].
  destruct (X9_no_report_gives_defaults Tracker iso_engine
              (root_world Tracker "first commit" (Some (Json (JArr [])))) project sample_sha
              _ eq_refl) as (Ht & _ & _ & Hc).
  - right. right. right. exists (JArr []). split; [reflexivity | discriminate].
  - split; assumption.
Defined.

(** The report of an object whose coverage map, if it has one, gives
    counters for every file is read to the end. *)
Lemma read_report_object (v : variant) (E : Engine) (kv : list (string * json)) :
  truthy (assoc "coverageMap" kv) = false
  \/ (exists (files : list json) (hitss : list (list json)),
         Object_values (assoc "coverageMap" kv) = Ok files
         /\ Forall2 (fun file hits => counters file = Ok hits) files hitss) ->
  let t := read_report v E (Json (JObj kv)) Tests.initial in
  snd t = Ok tt
  /\ Tests.testCount (fst t) = or_zero (assoc "numTotalTests" kv)
  /\ Tests.failedTests (fst t) = or_zero (assoc "numFailedTests" kv).
Proof.
  intros H. unfold_report. cbn [get].
  destruct H as [-> | (files & hitss & Hv & HF)]; [repeat split|].
  destruct (truthy (assoc "coverageMap" kv)); [|repeat split].
  rewrite Hv, (count_files_complete E files hitss HF 0 0). cbn [fst snd Nat.add].
  destruct (Nat.ltb 0 (List.length (concat hitss))); repeat split.
Qed.

(** X10.  When the report is a JSON object whose coverage map, if any,
    gives statement counters for every file, the two counts of the record
    are [numTotalTests || 0] and [numFailedTests || 0], and the verdict is
    the one of these counts: ["neutral"] without tests, else ["failure"]
    with a failed test, else ["success"]. *)
Theorem X10_verdict_follows_counts
    (v : variant) (E : Engine) (W : World) (fs : store) (h : string) (e : entry)
    (kv : list (string * json)) :
  getCommitInfo v E W fs h = Some e ->
  is_Some (fs !! "package.json") ->
  jest_report W = Some (Json (JObj kv)) ->
  truthy (assoc "coverageMap" kv) = false
  \/ (exists (files : list json) (hitss : list (list json)),
         Object_values (assoc "coverageMap" kv) = Ok files
         /\ Forall2 (fun file hits => counters file = Ok hits) files hitss) ->
  test_count e = or_zero (assoc "numTotalTests" kv)
  /\ failed_tests e = or_zero (assoc "numFailedTests" kv)
  /\ conclusion e
     = (if gt0 E (test_count e)
        then (if gt0 E (failed_tests e) then "failure" else "success")
        else "neutral")
  /\ (forall n : Q,
         test_count e = JNum n -> (0 <= n)%Q ->
         conclusion e = spec_conclusion E (test_count e) (failed_tests e)).
Proof.
  intros He Hp Hr Hmap.
  destruct (getCommitInfo_fields v E W fs h e He)
    as (_ & _ & _ & _ & _ & _ & Htc & Hft & Hcl & _).
  destruct (read_report_object v E kv Hmap) as (Hok & Hn & Hf).
  assert (Hrun : run_tests v E W fs = fst (read_report v E (Json (JObj kv)) Tests.initial)).
  { unfold run_tests. rewrite bool_decide_eq_true_2 by exact Hp. now rewrite Hr. }
  assert (Hverdict : conclusion e = conclude E (test_count e) (failed_tests e)).
  { rewrite Hcl, Htc, Hft, Hrun. apply read_report_conclusion_ok. exact Hok. }
  split; [now rewrite Htc, Hrun|]. split; [now rewrite Hft, Hrun|].
  split; [exact Hverdict|].
  intros n Hnum Hpos. rewrite Hverdict, Hnum. apply conclude_spec. exact Hpos.
Qed.

Lemma X10_verdict_follows_counts_witness :
  exists e : entry,
    getCommitInfo Tracker iso_engine
      (root_world Tracker "first commit" (Some report_two_files)) project sample_sha = Some e
    /\ test_count e = JNum (10 # 1)
    /\ failed_tests e = JNum (2 # 1)
    /\ conclusion e = "failure".
Proof.
  eexists. split; [vm_compute; reflexivity|].
  eassert (H : _ /\ _ /\ _ /\ _).
  { eapply (X10_verdict_follows_counts Tracker iso_engine
              (root_world Tracker "first commit" (Some report_two_files))
              project sample_sha).
    - vm_compute. reflexivity.
    - unfold project. rewrite lookup_singleton_eq. eexists; reflexivity.
    - reflexivity.
    - right. eexists. exists [[JNum (1 # 1); JNum 0; JNum (5 # 1)];
                          [JNum (1 # 1); JNum (1 # 1); JNum (2 # 1); JNum (7 # 1)]].
      split; [reflexivity | repeat constructor]. }
  destruct H as (Ht & Hf & Hc & _).
  split; [exact Ht|]. split; [exact Hf | exact Hc].
Defined.

(** ** The coverage, when the percentage is a whole number of hundredths *)

Section ExactCoverage.

Local Open Scope Q_scope.

Lemma Qfloor_between (x : Q) (k : Z) :
  inject_Z k <= x -> x < inject_Z (k + 1) -> Qfloor x = k.
Proof.
  intros Hlo Hhi.
  pose proof (Qfloor_le x) as H1. pose proof (Qlt_floor x) as H2.
  assert (Ha : inject_Z (Qfloor x) < inject_Z (k + 1)) by lra.
  assert (Hb : inject_Z k < inject_Z (Qfloor x + 1)) by lra.
  rewrite <- Zlt_Qlt in Ha, Hb. lia.
Qed.

Lemma hundredths_exact (v : variant) (c t : nat) (k : Z) :
  (c <= t)%nat -> (0 < t)%nat ->
  (10000 * Z.of_nat c = k * Z.of_nat t)%Z ->
  hundredths v c t = k.
Proof.
  intros Hle Hpos Hk.
  destruct (product_near v c t Hle Hpos) as [_ Hnear].
  apply Qabs_Qle_condition in Hnear. destruct Hnear as [Hn1 Hn2].
  assert (Ht : 0 < inject_Z (Z.of_nat t)).
  { change 0 with (inject_Z 0). rewrite <- Zlt_Qlt. lia. }
  assert (Hexact : inject_Z (Z.of_nat c) / inject_Z (Z.of_nat t) * inject_Z 100 * inject_Z 100
                   == inject_Z k).
  { assert (Hq : inject_Z 10000 * inject_Z (Z.of_nat c) == inject_Z k * inject_Z (Z.of_nat t))
      by (rewrite <- !inject_Z_mult, Hk; reflexivity).
    change (inject_Z 100) with (100 # 1). change (inject_Z 10000) with (10000 # 1) in Hq.
    field_simplify_eq; [|lra]. lra. }
  rewrite Hexact in Hn1, Hn2.
  assert (Hh : hundredths v c t
               = Math_round match v with
                            | BranchMain => fl (ratio c t * inject_Z 10000)
                            | Tracker | GlobalBranch =>
                                fl (fl (ratio c t * inject_Z 100) * inject_Z 100)
                            end)
    by (destruct v; reflexivity).
  rewrite Hh. unfold Math_round. apply Qfloor_between.
  - lra.
  - rewrite inject_Z_plus. change (inject_Z 1) with 1. lra.
Qed.

End ExactCoverage.

(** X11.  When the exact percentage is a whole number of hundredths (the
    counters hit, times 10000, are a multiple of the counters), the binary64
    arithmetic of the scripts gives exactly that number: all counters hit
    give 100, none hit gives 0, half of them 50. *)
Theorem X11_coverage_exact_on_whole_hundredths (v : variant) (c t : nat) (k : Z) :
  (c <= t)%nat -> (0 < t)%nat ->
  (10000 * Z.of_nat c = k * Z.of_nat t)%Z ->
  hundredths v c t = k
  /\ coverage_pct v c t = (inject_Z k / inject_Z 100)%Q
  /\ (coverage_pct v c t == inject_Z (Z.of_nat c) / inject_Z (Z.of_nat t) * inject_Z 100)%Q
  /\ (c = t -> coverage_pct v c t = (inject_Z 10000 / inject_Z 100)%Q)
  /\ (c = 0%nat -> coverage_pct v c t = (inject_Z 0 / inject_Z 100)%Q).
Proof.
  intros Hle Hpos Hk.
  pose proof (hundredths_exact v c t k Hle Hpos Hk) as Hh.
  split; [exact Hh|]. split; [unfold coverage_pct; now rewrite Hh|]. split; [|split].
  - unfold coverage_pct. rewrite Hh.
    assert (Ht : (0 < inject_Z (Z.of_nat t))%Q).
    { change 0%Q with (inject_Z 0). rewrite <- Zlt_Qlt. lia. }
    assert (Hq : (inject_Z 10000 * inject_Z (Z.of_nat c) == inject_Z k * inject_Z (Z.of_nat t))%Q)
      by (rewrite <- !inject_Z_mult, Hk; reflexivity).
    change (inject_Z 100) with (100 # 1)%Q. change (inject_Z 10000) with (10000 # 1)%Q in Hq.
    field_simplify_eq; [|lra]. lra.
  - intros ->. unfold coverage_pct.
    rewrite (hundredths_exact v t t 10000 (le_n t) Hpos); [reflexivity | lia].
  - intros ->. unfold coverage_pct.
    rewrite (hundredths_exact v 0 t 0 Hle Hpos); [reflexivity | lia].
Qed.

Lemma X11_coverage_exact_on_whole_hundredths_witness :
  hundredths Tracker 80 160 = 5000%Z /\ hundredths BranchMain 7 7 = 10000%Z.
Proof.
  split.
  - apply (X11_coverage_exact_on_whole_hundredths Tracker 80 160 5000); lia.
  - apply (X11_coverage_exact_on_whole_hundredths BranchMain 7 7 10000); lia.
Defined.

(** ** Where the sort puts the new record *)

Section Placement.

Variable E : Engine.

Lemma sort_insert_head (x y : json) (l : list json) :
  date_le E x y -> sort_insert E x (y :: l) = Ok (x :: y :: l).
Proof.
  intros (kx & ky & Hx & Hy & Hle). cbn [sort_insert].
  rewrite (by_date_dated E x y kx ky Hx Hy). cbn [rbind is_positive].
  destruct (0 <? kx - ky)%Z eqn:Hc; [|reflexivity].
  apply Z.ltb_lt in Hc. lia.
Qed.

(** An element not later than the first of the array goes in front. *)
Lemma sort_insert_front (x : json) (l : list json) :
  HdRel (date_le E) x l -> sort_insert E x l = Ok (x :: l).
Proof.
  intros H. destruct l as [|y l]; [reflexivity|].
  apply sort_insert_head. now inversion H.
Qed.

Lemma dated_total (a b : json) :
  dated E a -> dated E b -> date_le E a b \/ date_lt E b a.
Proof.
  intros [ka Ha] [kb Hb]. destruct (Z.le_gt_cases ka kb).
  - left. exists ka, kb. auto.
  - right. exists kb, ka. auto.
Qed.

Lemma sort_insert_later (x y : json) (l : list json) :
  date_lt E y x -> sort_insert E x (y :: l) = (let* r := sort_insert E x l in Ok (y :: r)).
Proof.
  intros (ky & kx & Hy & Hx & Hlt). cbn [sort_insert].
  rewrite (by_date_dated E x y kx ky Hx Hy). cbn [rbind is_positive].
  destruct (0 <? kx - ky)%Z eqn:Hc; [reflexivity|].
  apply Z.ltb_ge in Hc. lia.
Qed.

(** The sort of an array in order of date to which an element was pushed:
    the array is cut in two, the elements not later than the new one and
    the elements later than it, and the new element goes in between. *)
Lemma sort_places (l : list json) (x : json) :
  Forall (dated E) l -> Sorted (date_le E) l -> dated E x ->
  exists l1 l2 : list json,
    l = (l1 ++ l2)%list
    /\ sort E (l ++ [x]) = Ok (l1 ++ x :: l2)%list
    /\ Forall (fun y => date_le E y x) l1
    /\ Forall (fun y => date_lt E x y) l2.
Proof.
  intros HF HS Hx. induction l as [|a l IH].
  - exists [], []. repeat split; constructor.
  - inversion HF as [|? ? Ha HF']; subst. inversion HS as [|? ? HS' Hhd]; subst.
    destruct (IH HF' HS') as (l1 & l2 & -> & Hsort & H1 & H2).
    cbn [app sort]. rewrite Hsort. cbn [rbind].
    destruct l1 as [|y l1].
    + cbn [app] in *. destruct (dated_total a x Ha Hx) as [Hle | Hlt].
      * exists [a], l2. rewrite (sort_insert_head a x l2 Hle).
        repeat split; [repeat constructor; exact Hle | exact H2].
      * exists [], (a :: l2). rewrite (sort_insert_later a x l2 Hlt).
        rewrite (sort_insert_front a l2 Hhd). cbn [rbind].
        repeat split; [constructor | constructor; assumption].
    + cbn [app] in *. inversion Hhd as [|? ? Hay]; subst.
      inversion H1 as [|? ? Hyx H1']; subst.
      exists (a :: y :: l1), l2. rewrite (sort_insert_head a y _ Hay).
      repeat split; [|exact H2].
      constructor; [|exact H1]. exact (date_le_trans E a y x Hay Hyx).
Qed.

Lemma le_not_lt (a b : json) : date_le E a b -> date_lt E b a -> False.
Proof.
  intros (x & y & Hx & Hy & Hle) (y' & x' & Hy' & Hx' & Hlt).
  rewrite Hx in Hx'. rewrite Hy in Hy'. injection Hx' as <-. injection Hy' as <-. lia.
Qed.

End Placement.

(** X12.  An append to a history in order of date puts the new record
    behind every record that is not later than it (behind those of the same
    date too) and before the later ones, and leaves the old records in the
    order they had; a record that is not earlier than any other goes to the
    end. *)
Theorem X12_new_record_placed_by_date
    (E : Engine) (W : World) (p : string) (e : entry) (fs : store) (l : list json) :
  fs !! p = Some (Json (JArr l)) ->
  Forall (dated E) l -> Sorted (date_le E) l ->
  dated E (entry_json e) ->
  writable W p = true ->
  (exists l1 l2 : list json,
      l = (l1 ++ l2)%list
      /\ appendEntry E W p e fs
         = (<[p := Json (JArr (l1 ++ entry_json e :: l2))]> fs, Ok tt)
      /\ Forall (fun y => date_le E y (entry_json e)) l1
      /\ Forall (fun y => date_lt E (entry_json e) y) l2)
  /\ (Forall (fun y => date_le E y (entry_json e)) l ->
      appendEntry E W p e fs = (<[p := Json (JArr (l ++ [entry_json e]))]> fs, Ok tt)).
Proof.
  intros Hp HF HS He Hw.
  assert (Hload : loadHistory fs p = l) by (unfold loadHistory; now rewrite Hp).
  destruct (sort_places E l (entry_json e) HF HS He) as (l1 & l2 & Hl & Hsort & H1 & H2).
  assert (Happ : appendEntry E W p e fs
                 = (<[p := Json (JArr (l1 ++ entry_json e :: l2))]> fs, Ok tt))
    by (now rewrite appendEntry_unfold, Hload, Hsort, Hw).
  split; [exists l1, l2; auto|].
  intros Hall. rewrite Happ. destruct l2 as [|y l2].
  - now rewrite Hl, List.app_nil_r.
  - exfalso. rewrite Hl in Hall. apply Forall_app in Hall. destruct Hall as [_ Hall].
    apply Forall_inv in H2. apply Forall_inv in Hall.
    exact (le_not_lt E _ _ Hall H2).
Qed.

Lemma X12_new_record_placed_by_date_witness :
  exists l1 l2 : list json,
    [ old_record "bbbbbbb" "2023-06-01T12:00:00+02:00";
      old_record "ccccccc" "2024-05-01T12:00:00+02:00";
      old_record "aaaaaaa" "2025-01-01T00:00:00+00:00" ] = (l1 ++ l2)%list
    /\ appendEntry iso_engine silent_world DATA_FILE (sample_entry "main") sorted_history
       = (<[DATA_FILE := Json (JArr (l1 ++ entry_json (sample_entry "main") :: l2))]>
            sorted_history, Ok tt).
Proof.
  destruct (proj1 (X12_new_record_placed_by_date iso_engine silent_world DATA_FILE
                     (sample_entry "main") sorted_history _ eq_refl
                     ltac:(repeat constructor; eexists; vm_compute; reflexivity)
                     ltac:(repeat constructor; do 2 eexists; vm_compute; repeat split;
                           discriminate)
                     ltac:(eexists; vm_compute; reflexivity)
                     eq_refl))
    as (l1 & l2 & Hl & Happ & _).
  exists l1, l2. split; assumption.
Defined.

(** What that append writes: the new record behind the record of the same
    instant, before the record of 2025. *)
Example append_to_sorted_history :
  fst (appendEntry iso_engine silent_world DATA_FILE (sample_entry "main") sorted_history)
    !! DATA_FILE
  = Some (Json (JArr [ old_record "bbbbbbb" "2023-06-01T12:00:00+02:00";
                       old_record "ccccccc" "2024-05-01T12:00:00+02:00";
                       entry_json (sample_entry "main");
                       old_record "aaaaaaa" "2025-01-01T00:00:00+00:00" ])).
Proof. vm_compute. reflexivity. Qed.

(** ** A record without a date to read *)

Section Unreadable.

Variable E : Engine.

Lemma get_error (x : value) (k : string) (err : error) :
  get x k = Throw err -> err = TypeError.
Proof. destruct x as [[]|]; cbn; congruence. Qed.

Lemma commit_date_error (a : json) (err : error) :
  commit_date a = Throw err -> err = TypeError.
Proof.
  unfold commit_date. destruct (get (Some a) "commit") as [c|err'] eqn:Hc; cbn [rbind].
  - apply get_error.
  - intros [= <-]. exact (get_error _ _ _ Hc).
Qed.

Lemma readable_dec (a : json) : readable a \/ commit_date a = Throw TypeError.
Proof.
  unfold readable. destruct (commit_date a) as [d|err] eqn:Hd; [eauto|].
  right. now rewrite (commit_date_error a err Hd).
Qed.

Lemma not_readable (a : json) : ~ readable a -> commit_date a = Throw TypeError.
Proof. intros H. destruct (readable_dec a); [contradiction | assumption]. Qed.

(** The comparator throws as soon as one of its two arguments has no
    [commit.date] to read. *)
Lemma by_date_throws (a b : json) :
  ~ readable a \/ ~ readable b -> by_date E a b = Throw TypeError.
Proof.
  intros H. unfold by_date.
  destruct (readable_dec a) as [[da Ha] | Ha]; rewrite Ha; cbn [rbind]; [|reflexivity].
  destruct H as [H | H]; [exfalso; apply H; eexists; exact Ha|].
  now rewrite (not_readable b H).
Qed.

Lemma sort_insert_throws (x y : json) (l : list json) :
  ~ readable x \/ ~ readable y -> sort_insert E x (y :: l) = Throw TypeError.
Proof. intros H. cbn [sort_insert]. now rewrite (by_date_throws x y H). Qed.

Lemma sort_insert_error (x : json) (l : list json) (err : error) :
  sort_insert E x l = Throw err -> err = TypeError.
Proof.
  induction l as [|y l IH]; cbn [sort_insert]; [discriminate|].
  destruct (by_date E x y) as [c|err'] eqn:Hc; cbn [rbind].
  - destruct (is_positive c); [|discriminate].
    destruct (sort_insert E x l); cbn [rbind]; [discriminate|].
    intros [= <-]. now apply IH.
  - intros [= <-]. unfold by_date in Hc.
    destruct (commit_date x) as [dx|ex] eqn:Hx; cbn [rbind] in Hc.
    + destruct (commit_date y) as [dy|ey] eqn:Hy; cbn [rbind] in Hc; [discriminate|].
      injection Hc as <-. exact (commit_date_error y _ Hy).
    + injection Hc as <-. exact (commit_date_error x _ Hx).
Qed.

Lemma sort_error (l : list json) (err : error) :
  sort E l = Throw err -> err = TypeError.
Proof.
  revert err. induction l as [|x l IH]; intros err; cbn [sort]; [discriminate|].
  destruct (sort E l) as [s|err'] eqn:Hs; cbn [rbind].
  - apply sort_insert_error.
  - intros [= <-]. now apply IH.
Qed.

(** The sort of an array of two elements or more throws when one of them
    has no [commit.date] to read. *)
Lemma sort_unreadable (l : list json) :
  (2 <= List.length l)%nat ->
  Exists (fun u => ~ readable u) l ->
  sort E l = Throw TypeError.
Proof.
  intros Hlen Hex.
  assert (H : exists err, sort E l = Throw err).
  { induction l as [|x l IH]; [cbn in Hlen; lia|].
    cbn [sort]. destruct (sort E l) as [s|err] eqn:Hs; cbn [rbind]; [|eauto].
    pose proof (Permutation_length (sort_perm E l s Hs)) as Hperm.
    destruct s as [|y s]; [cbn in Hlen, Hperm; lia|].
    destruct (readable_dec x) as [Hx | Hx].
    - destruct l as [|u l]; [cbn in Hlen; lia|].
      destruct l as [|u' l].
      + cbn [sort rbind sort_insert] in Hs. injection Hs as <- <-.
        apply Exists_cons in Hex. destruct Hex as [Hex | Hex]; [contradiction|].
        apply Exists_cons in Hex. destruct Hex as [Hex | Hex]; [|inversion Hex].
        exists TypeError. apply sort_insert_throws. now right.
      + apply Exists_cons in Hex. destruct Hex as [Hex | Hex]; [contradiction|].
        destruct (IH ltac:(cbn; lia) Hex) as [err Herr]. congruence.
    - exists TypeError. apply sort_insert_throws. left.
      intros [d Hd]. congruence. }
  destruct H as [err Herr]. now rewrite Herr, (sort_error l err Herr).
Qed.

(** The other way round: a sort of two elements or more that succeeds
    has read the date of each. *)
Lemma sort_ok_readable (l s : list json) :
  (2 <= List.length l)%nat -> sort E l = Ok s -> Forall readable l.
Proof.
  intros Hlen Hs. apply List.Forall_forall. intros u Hu.
  destruct (readable_dec u) as [H | H]; [exact H|].
  assert (Hex : Exists (fun u => ~ readable u) l).
  { apply List.Exists_exists. exists u. split; [exact Hu|]. intros [d Hd]. congruence. }
  rewrite (sort_unreadable l Hlen Hex) in Hs. discriminate.
Qed.

(** An append to a history that holds such a record throws, and writes
    nothing. *)
Lemma appendEntry_unreadable (W : World) (p : string) (e : entry) (fs : store) (u : json) :
  In u (loadHistory fs p) -> ~ readable u ->
  appendEntry E W p e fs = (fs, Throw TypeError).
Proof.
  intros Hin Hu. rewrite appendEntry_unfold, sort_unreadable; [reflexivity | |].
  - rewrite List.length_app. destruct (loadHistory fs p); [contradiction|]. cbn. lia.
  - apply List.Exists_exists. exists u. split; [apply in_or_app; now left | exact Hu].
Qed.

End Unreadable.

(** X13.  One record without a [commit] (or with a [commit] that is
    [null]) in a history file blocks every later append to it: the
    comparator throws a [TypeError] inside the sort, nothing is written, and
    the run ends with status 1 and the files as they were. *)
Theorem X13_unreadable_record_blocks_append
    (E : Engine) (W : World) (p : string) (e : entry) (fs : store) (u : json) :
  In u (loadHistory fs p) ->
  ~ readable u ->
  appendEntry E W p e fs = (fs, Throw TypeError)
  /\ (p = DATA_FILE -> check_head e = Ok tt ->
      persist Tracker E W e fs = (fs, Throw TypeError))
  /\ (p = DATA_FILE -> persist GlobalBranch E W e fs = (fs, Throw TypeError))
  /\ (p = DATA_FILE ->
      forall h : string,
        sh W "git rev-parse HEAD" = Some h ->
        sha_gate h = true ->
        getCommitInfo Tracker E W fs h = Some e ->
        run Tracker E W fs = (1%Z, fs)).
Proof.
  intros Hin Hu.
  pose proof (appendEntry_unreadable E W p e fs u Hin Hu) as Happ.
  split; [exact Happ|]. split; [|split].
  - intros -> Hc. unfold persist, bind, lift. now rewrite Hc, Happ.
  - intros ->. unfold persist, bind. now rewrite Happ.
  - intros -> h Hh Hg He.
    assert (Hprep : prepare Tracker W fs = (fs, Ok tt)).
    { cbn [prepare]. rewrite create_if_absent_unfold.
      destruct (fs !! DATA_FILE) eqn:Hf; [reflexivity|].
      rewrite (loadHistory_None fs DATA_FILE Hf) in Hin. contradiction. }
    rewrite (run_after_gate E Tracker W fs fs h e Hprep Hh Hg He).
    unfold persist, bind, lift.
    now rewrite (built_entry_passes_head Tracker E W fs h e He Hg), Happ.
Qed.

Lemma X13_unreadable_record_blocks_append_witness :
  appendEntry iso_engine silent_world DATA_FILE (sample_entry "main") corrupt_history
  = (corrupt_history, Throw TypeError).
Proof.
  refine (proj1 (X13_unreadable_record_blocks_append iso_engine silent_world DATA_FILE
                   (sample_entry "main") corrupt_history
                   (JObj [ ("sha", JStr "ddddddd") ]) _ _)).
  - right. left. reflexivity.
  - intros [d Hd]. discriminate Hd.
Defined.

(** ** What a run keeps *)

(** A relation between two states of the store that holds across every
    append to, and every creation of, a history file holds across a whole
    run, and across a series of runs. *)
Section Preservation.

Variables (E : Engine) (R : store -> store -> Prop).

Hypothesis R_refl : forall fs, R fs fs.
Hypothesis R_trans : forall a b c, R a b -> R b c -> R a c.
Hypothesis R_append :
  forall W p e fs, history_path p = true -> R fs (fst (appendEntry E W p e fs)).
Hypothesis R_create :
  forall W p fs, history_path p = true -> R fs (fst (create_if_absent W p fs)).

Lemma branch_file_history (b : string) : history_path (branch_file b) = true.
Proof. reflexivity. Qed.

Lemma raw_branch_file_history (b : string) :
  history_path ("script/commit-history-" ++ b ++ ".json") = true.
Proof. reflexivity. Qed.

Lemma persist_preserves (v : variant) (W : World) (e : entry) (fs : store) :
  R fs (fst (persist v E W e fs)).
Proof.
  destruct v; unfold persist, bind, lift, when, ret.
  - destruct (check_head e); [|apply R_refl]. now apply R_append.
  - destruct (validateEntry e); [|apply R_refl].
    pose proof (R_create W (branch_file (branch e)) fs (branch_file_history _)) as H0.
    destruct (create_if_absent W (branch_file (branch e)) fs) as [fs0 [[]|err0]];
      cbn [fst] in *; [|exact H0].
    pose proof (R_append W (branch_file (branch e)) e fs0 (branch_file_history _)) as H1.
    destruct (appendEntry E W (branch_file (branch e)) e fs0) as [fs1 [[]|err1]];
      cbn [fst] in *; [|eauto].
    destruct (String.eqb (branch e) "main"); [|eauto].
    pose proof (R_create W MAIN_FILE fs1 eq_refl) as H2.
    destruct (create_if_absent W MAIN_FILE fs1) as [fs2 [[]|err2]];
      cbn [fst] in *; [|eauto].
    pose proof (R_append W MAIN_FILE e fs2 eq_refl) as H3.
    destruct (appendEntry E W MAIN_FILE e fs2) as [fs3 r3]; cbn [fst] in *. eauto.
  - pose proof (R_append W DATA_FILE e fs eq_refl) as H1.
    destruct (appendEntry E W DATA_FILE e fs) as [fs1 [[]|err1]]; cbn [fst] in *; [|exact H1].
    destruct (negb (Str.is_empty (branch e)) && negb (String.eqb (branch e) "HEAD"));
      [|exact H1].
    pose proof (R_append W ("script/commit-history-" ++ branch e ++ ".json") e fs1
                  (raw_branch_file_history _)) as H2.
    destruct (appendEntry E W _ e fs1) as [fs2 r2]; cbn [fst] in *. eauto.
Qed.

Lemma prepare_preserves (v : variant) (W : World) (fs : store) :
  R fs (fst (prepare v W fs)).
Proof. destruct v; cbn [prepare]; try (now apply R_create). apply R_refl. Qed.

Lemma run_preserves (v : variant) (W : World) (fs : store) :
  R fs (snd (run v E W fs)).
Proof.
  assert (H : R fs (fst (script v E W fs))).
  { rewrite script_unfold. pose proof (prepare_preserves v W fs) as H0.
    destruct (prepare v W fs) as [fs0 [[]|err]]; cbn [fst] in *; [|exact H0].
    destruct (sh W "git rev-parse HEAD") as [h|]; [|exact H0].
    destruct (sha_gate h); [|exact H0].
    destruct (getCommitInfo v E W fs0 h) as [e|]; [|exact H0].
    exact (R_trans _ _ _ H0 (persist_preserves v W e fs0)). }
  unfold run. destruct (script v E W fs) as [fs' [u|err]]; exact H.
Qed.

Lemma run_all_preserves (steps : list (variant * World)) (fs : store) :
  R fs (run_all E steps fs).
Proof.
  revert fs. induction steps as [|[v W] steps IH]; intros fs; cbn [run_all]; [apply R_refl|].
  exact (R_trans _ _ _ (run_preserves v W fs) (IH _)).
Qed.

End Preservation.

Section KeptByAppend.

Variables (E : Engine) (W : World).

(** What a successful append has done. *)
Lemma appendEntry_ok (p : string) (e : entry) (fs fs' : store) :
  appendEntry E W p e fs = (fs', Ok tt) ->
  exists l : list json,
    sort E (loadHistory fs p ++ [entry_json e]) = Ok l
    /\ writable W p = true
    /\ fs' = <[p := Json (JArr l)]> fs.
Proof.
  rewrite appendEntry_unfold.
  destruct (sort E _) as [l|]; [|discriminate].
  destruct (writable W p); [|discriminate].
  intros [= <-]. eauto.
Qed.

(** An append drops no record, of the file it writes or of another. *)
Lemma appendEntry_keeps (p q : string) (e : entry) (fs : store) (x : json) :
  In x (loadHistory fs q) -> In x (loadHistory (fst (appendEntry E W p e fs)) q).
Proof.
  intros Hin. rewrite appendEntry_unfold.
  destruct (sort E _) as [l|] eqn:Hs; [|exact Hin].
  destruct (writable W p); [|exact Hin]. cbn [fst].
  rewrite loadHistory_insert. destruct (decide (p = q)) as [->|]; [|exact Hin].
  apply (Permutation_in _ (sort_perm E _ _ Hs)). apply in_or_app. now left.
Qed.

End KeptByAppend.

(** X14.  The histories only grow: whatever a run does, and whether it
    ends with status 0 or 1, every record that was in the array of a file
    before is in the array of that file after; so it is after any series of
    runs. *)
Theorem X14_no_record_is_dropped
    (E : Engine) (fs : store) (q : string) (x : json) :
  In x (loadHistory fs q) ->
  (forall (v : variant) (W : World), In x (loadHistory (snd (run v E W fs)) q))
  /\ (forall steps : list (variant * World), In x (loadHistory (run_all E steps fs) q)).
Proof.
  intros Hin.
  set (R := fun a b : store =>
              forall (p : string) (y : json),
                In y (loadHistory a p) -> In y (loadHistory b p)).
  assert (Hrefl : forall a, R a a) by (intros a p y H; exact H).
  assert (Htrans : forall a b c, R a b -> R b c -> R a c)
    by (intros a b c Hab Hbc p y H; apply Hbc, Hab, H).
  assert (Happ : forall W p e a, history_path p = true -> R a (fst (appendEntry E W p e a)))
    by (intros W p e a _ p' y H; now apply appendEntry_keeps).
  assert (Hcre : forall W p a, history_path p = true -> R a (fst (create_if_absent W p a)))
    by (intros W p a _ p' y H; now rewrite loadHistory_create).
  split.
  - intros v W. exact (run_preserves E R Hrefl Htrans Happ Hcre v W fs q x Hin).
  - intros steps. exact (run_all_preserves E R Hrefl Htrans Happ Hcre steps fs q x Hin).
Qed.

Lemma X14_no_record_is_dropped_witness :
  In (old_record "bbbbbbb" "2023-06-01T12:00:00+02:00")
     (loadHistory (snd (run Tracker iso_engine (root_world Tracker "first commit" None)
                          sorted_history)) DATA_FILE).
Proof.
  apply (proj1 (X14_no_record_is_dropped iso_engine sorted_history DATA_FILE
                  (old_record "bbbbbbb" "2023-06-01T12:00:00+02:00")
                  (or_introl eq_refl))).
Defined.

Section Recorded.

Variable E : Engine.

Lemma appendEntry_ok_in (W : World) (p : string) (e : entry) (fs fs' : store) :
  appendEntry E W p e fs = (fs', Ok tt) -> In (entry_json e) (loadHistory fs' p).
Proof.
  intros H. destruct (appendEntry_ok E W p e fs fs' H) as (l & Hs & _ & ->).
  rewrite loadHistory_insert. destruct (decide (p = p)); [|congruence].
  apply (Permutation_in _ (sort_perm E _ _ Hs)). apply in_or_app. right. now left.
Qed.

(** The record [getCommitInfo] builds depends on the files through the
    presence of [package.json] only. *)
Lemma getCommitInfo_store (v : variant) (W : World) (fs fs' : store) (h : string) :
  fs' !! "package.json" = fs !! "package.json" ->
  getCommitInfo v E W fs' h = getCommitInfo v E W fs h.
Proof. intros H. unfold getCommitInfo, run_tests. now rewrite H. Qed.

Lemma prepare_package (v : variant) (W : World) (fs : store) :
  fst (prepare v W fs) !! "package.json" = fs !! "package.json".
Proof.
  destruct v; cbn [prepare]; try (apply create_if_absent_lookup; discriminate).
  reflexivity.
Qed.

(** When [persist] ends without an exception the record is in the file
    of the script: the global file, the file of the branch in
    [BranchMain]. *)
Lemma persist_ok_recorded (v : variant) (W : World) (e : entry) (fs fs' : store) :
  persist v E W e fs = (fs', Ok tt) ->
  In (entry_json e)
     (loadHistory fs' match v with
                      | BranchMain => branch_file (branch e)
                      | Tracker | GlobalBranch => DATA_FILE
                      end).
Proof.
  destruct v; unfold persist, bind, lift, when, ret.
  - destruct (check_head e); [|discriminate]. apply appendEntry_ok_in.
  - destruct (validateEntry e); [|discriminate].
    destruct (create_if_absent W (branch_file (branch e)) fs) as [fs0 [[]|]];
      [|discriminate].
    destruct (appendEntry E W (branch_file (branch e)) e fs0) as [fs1 [[]|]] eqn:H1;
      [|discriminate].
    pose proof (appendEntry_ok_in W _ e fs0 fs1 H1) as Hin.
    destruct (String.eqb (branch e) "main"); [|now intros [= <-]].
    pose proof (loadHistory_create W MAIN_FILE (branch_file (branch e)) fs1) as Hc.
    destruct (create_if_absent W MAIN_FILE fs1) as [fs2 [[]|]]; [|discriminate].
    cbn [fst] in Hc. rewrite <- Hc in Hin.
    pose proof (appendEntry_keeps E W MAIN_FILE _ e fs2 _ Hin) as Hk.
    destruct (appendEntry E W MAIN_FILE e fs2) as [fs3 r3]. intros [= <- _]. exact Hk.
  - destruct (appendEntry E W DATA_FILE e fs) as [fs1 [[]|]] eqn:H1; [|discriminate].
    pose proof (appendEntry_ok_in W _ e fs fs1 H1) as Hin.
    destruct (negb (Str.is_empty (branch e)) && negb (String.eqb (branch e) "HEAD"));
      [|now intros [= <-]].
    pose proof (appendEntry_keeps E W ("script/commit-history-" ++ branch e ++ ".json")
                  _ e fs1 _ Hin) as Hk.
    destruct (appendEntry E W _ e fs1) as [fs2 r2]. intros [= <- _]. exact Hk.
Qed.

End Recorded.

(** X16.  Status 0 means recorded: when a run ends with status 0, the
    sha [git rev-parse HEAD] printed has passed the gate, a record was
    built for it, and that record is in the history the script keeps (the
    global file; in [BranchMain], the file of the record's branch). *)
Theorem X16_status_0_means_recorded
    (v : variant) (E : Engine) (W : World) (fs : store) :
  fst (run v E W fs) = 0%Z ->
  exists (h : string) (e : entry),
    sh W "git rev-parse HEAD" = Some h
    /\ sha_gate h = true
    /\ getCommitInfo v E W fs h = Some e
    /\ sha e = h
    /\ In (entry_json e)
          (loadHistory (snd (run v E W fs))
             match v with
             | BranchMain => branch_file (branch e)
             | Tracker | GlobalBranch => DATA_FILE
             end).
Proof.
  unfold run. rewrite script_unfold.
  pose proof (prepare_package v W fs) as Hpkg.
  destruct (prepare v W fs) as [fs0 [[]|err0]]; [|discriminate]. cbn [fst] in Hpkg.
  destruct (sh W "git rev-parse HEAD") as [h|]; [|discriminate].
  destruct (sha_gate h) eqn:Hg; [|discriminate].
  destruct (getCommitInfo v E W fs0 h) as [e|] eqn:He; [|discriminate].
  destruct (persist v E W e fs0) as [fs1 [[]|err]] eqn:Hp; [|discriminate].
  intros _. exists h, e. cbn [snd].
  rewrite (getCommitInfo_store E v W fs fs0 h Hpkg) in He.
  destruct (getCommitInfo_fields v E W fs h e He) as (Hs & _).
  repeat split; try assumption.
  exact (persist_ok_recorded E v W e fs0 fs1 Hp).
Qed.

Lemma X16_status_0_means_recorded_witness :
  exists (h : string) (e : entry),
    sh (root_world BranchMain "first commit" None) "git rev-parse HEAD" = Some h
    /\ sha e = h
    /\ In (entry_json e)
          (loadHistory
             (snd (run BranchMain iso_engine (root_world BranchMain "first commit" None) ∅))
             (branch_file (branch e))).
Proof.
  destruct (X16_status_0_means_recorded BranchMain iso_engine
              (root_world BranchMain "first commit" None) ∅)
    as (h & e & Hh & _ & _ & Hs & Hin).
  - vm_compute. reflexivity.
  - exists h, e. auto.
Defined.

(** ** The two files of [GlobalBranch] *)

(** X17.  [saveCommitData] of [GlobalBranch] appends the record to the
    global file and then, when the branch is neither empty nor ["HEAD"] (a
    detached head), to [script/commit-history-<branch>.json], the branch
    taken as it is, and touches no other file; with an empty branch or on a
    detached head it appends to the global file only. *)
Theorem X17_GlobalBranch_writes_two_files
    (E : Engine) (W : World) (e : entry) (fs : store) :
  (branch e = EmptyString \/ branch e = "HEAD" ->
   persist GlobalBranch E W e fs = appendEntry E W DATA_FILE e fs)
  /\ (Str.is_empty (branch e) = false ->
      branch e <> "HEAD" ->
      writable W DATA_FILE = true ->
      writable W ("script/commit-history-" ++ branch e ++ ".json") = true ->
      Forall readable (loadHistory fs DATA_FILE) ->
      Forall readable (loadHistory fs ("script/commit-history-" ++ branch e ++ ".json")) ->
      exists (fs' : store) (l1 l2 : list json),
        persist GlobalBranch E W e fs = (fs', Ok tt)
        /\ fs' !! DATA_FILE = Some (Json (JArr l1))
        /\ Permutation (loadHistory fs DATA_FILE ++ [entry_json e]) l1
        /\ fs' !! ("script/commit-history-" ++ branch e ++ ".json") = Some (Json (JArr l2))
        /\ Permutation
             (loadHistory fs ("script/commit-history-" ++ branch e ++ ".json")
              ++ [entry_json e]) l2
        /\ forall q : string,
             q <> DATA_FILE -> q <> "script/commit-history-" ++ branch e ++ ".json" ->
             fs' !! q = fs !! q).
Proof.
  split.
  - intros Hb. unfold persist.
    assert (Hc : negb (Str.is_empty (branch e)) && negb (String.eqb (branch e) "HEAD") = false)
      by (destruct Hb as [-> | ->]; reflexivity).
    rewrite Hc. apply bind_ret_tt.
  - intros Hne Hhead Hw1 Hw2 Hr1 Hr2.
    unfold persist, bind, when.
    set (bf := "script/commit-history-" ++ branch e ++ ".json") in *.
    assert (Hbf : bf <> DATA_FILE) by apply raw_branch_file_not_global.
    apply String.eqb_neq in Hhead. rewrite Hne, Hhead. cbn [negb andb].
    destruct (appendEntry_readable E W DATA_FILE e fs Hw1 Hr1) as (l1 & -> & Hp1 & _).
    assert (Hr2' : Forall readable (loadHistory (<[DATA_FILE := Json (JArr l1)]> fs) bf)).
    { rewrite loadHistory_insert. destruct (decide (DATA_FILE = bf)); [congruence | exact Hr2]. }
    destruct (appendEntry_readable E W bf e _ Hw2 Hr2') as (l2 & -> & Hp2 & _).
    rewrite loadHistory_insert in Hp2.
    destruct (decide (DATA_FILE = bf)); [congruence|].
    exists (<[bf := Json (JArr l2)]> (<[DATA_FILE := Json (JArr l1)]> fs)), l1, l2.
    split; [reflexivity|]. split.
    { rewrite lookup_insert_ne by exact Hbf. apply lookup_insert_eq. }
    split; [exact Hp1|]. split; [apply lookup_insert_eq|]. split; [exact Hp2|].
    intros q Hq1 Hq2. now rewrite !lookup_insert_ne by congruence.
Qed.

Lemma X17_GlobalBranch_writes_two_files_witness :
  exists (fs' : store) (l1 l2 : list json),
    persist GlobalBranch iso_engine silent_world (sample_entry "dev") sorted_history
    = (fs', Ok tt)
    /\ fs' !! DATA_FILE = Some (Json (JArr l1))
    /\ fs' !! "script/commit-history-dev.json" = Some (Json (JArr l2)).
Proof.
  destruct (proj2 (X17_GlobalBranch_writes_two_files iso_engine silent_world
                     (sample_entry "dev") sorted_history))
    as (fs' & l1 & l2 & Hp & H1 & _ & H2 & _).
  - reflexivity.
  - discriminate.
  - reflexivity.
  - reflexivity.
  - vm_compute. repeat constructor; eexists; reflexivity.
  - vm_compute. constructor.
  - exists fs', l1, l2. auto.
Defined.

(** ** The name of the branch file *)

Section Sanitize.

Lemma sanitize_char_idem (c : ascii) : sanitize_char (sanitize_char c) = sanitize_char c.
Proof. destruct c as [[] [] [] [] [] [] [] []]; reflexivity. Qed.

Lemma sanitize_char_fixed (c : ascii) :
  in_alphabet branch_alphabet c = true -> sanitize_char c = c.
Proof. rewrite sanitize_char_spec. now intros ->. Qed.

Lemma map_map (f g : ascii -> ascii) (s : string) :
  Str.map f (Str.map g s) = Str.map (fun c => f (g c)) s.
Proof. induction s as [|c s IH]; sstep; congruence. Qed.

Lemma map_fixed (f : ascii -> ascii) (p : ascii -> bool) (s : string) :
  (forall c, p c = true -> f c = c) -> Str.all p s = true -> Str.map f s = s.
Proof.
  intros H. induction s as [|c s IH]; sstep; [reflexivity|].
  intros Hs. apply andb_true_iff in Hs. destruct Hs as [Hc Hs].
  now rewrite (H c Hc), IH.
Qed.

Lemma map_nonempty (f : ascii -> ascii) (s : string) :
  Str.is_empty (Str.map f s) = Str.is_empty s.
Proof. destruct s; reflexivity. Qed.

Lemma sanitize_nonempty (b : string) : Str.is_empty (sanitizeBranchName b) = false.
Proof.
  unfold sanitizeBranchName. rewrite map_nonempty. destruct b; reflexivity.
Qed.

Lemma append_inj_l (p a b : string) : p ++ a = p ++ b -> a = b.
Proof.
  induction p as [|c p IH]; [now rewrite !append_nil|].
  rewrite !append_cons. intros [= H]. now apply IH.
Qed.

Lemma all_app_inv (p : ascii -> bool) (a b : string) :
  Str.all p a = true -> Str.all p b = true -> Str.all p (a ++ b) = true.
Proof. intros Ha Hb. now rewrite all_app, Ha, Hb. Qed.

End Sanitize.

(** X18.  [sanitizeBranchName] is a projection on the names made of
    [[A-Za-z0-9._-]]: it leaves such a name as it is, gives such a name,
    and applied twice does what it does once; it keeps the length of a
    name that is not empty, and turns the empty name into ["unknown"].  So
    a branch and its sanitized name ([feature/x] and [feature_x]) share one
    history file. *)
Theorem X18_sanitizeBranchName_is_a_projection (b : string) :
  sanitizeBranchName (sanitizeBranchName b) = sanitizeBranchName b
  /\ sanitizeBranchName EmptyString = "unknown"
  /\ (Str.is_empty b = false ->
      String.length (sanitizeBranchName b) = String.length b)
  /\ (Str.is_empty b = false ->
      Str.all (in_alphabet branch_alphabet) b = true ->
      sanitizeBranchName b = b)
  /\ branch_file (sanitizeBranchName b) = branch_file b
  /\ (forall b' : string,
         sanitizeBranchName b' = sanitizeBranchName b -> branch_file b' = branch_file b).
Proof.
  assert (Hidem : sanitizeBranchName (sanitizeBranchName b) = sanitizeBranchName b).
  { unfold sanitizeBranchName at 1. rewrite sanitize_nonempty.
    unfold sanitizeBranchName. rewrite map_map. apply map_ext, sanitize_char_idem. }
  split; [exact Hidem|]. split; [reflexivity|]. split; [|split; [|split]].
  - intros Hne. unfold sanitizeBranchName. rewrite Hne. apply map_length.
  - intros Hne Hall. unfold sanitizeBranchName. rewrite Hne.
    apply (map_fixed _ _ _ sanitize_char_fixed Hall).
  - unfold branch_file. now rewrite Hidem.
  - intros b' Hb. unfold branch_file. now rewrite Hb.
Qed.

Lemma X18_sanitizeBranchName_is_a_projection_witness :
  sanitizeBranchName "release-1.2_rc" = "release-1.2_rc"
  /\ branch_file "feature_x" = branch_file "feature/x".
Proof.
  split.
  - apply (proj1 (proj2 (proj2 (proj2 (X18_sanitizeBranchName_is_a_projection
                                         "release-1.2_rc"))))); reflexivity.
  - apply (proj2 (proj2 (proj2 (proj2 (proj2 (X18_sanitizeBranchName_is_a_projection
                                                "feature/x")))))).
    reflexivity.
Defined.

(** X19.  Whatever the branch is called, the branch file of [BranchMain]
    lies in [script] itself: its name is [commit-history-], a name made of
    [[A-Za-z0-9._-]] and [.json], with no [/] in it, so that no branch name
    ([../x], [a/b]) leads out of the directory or into a subdirectory; and
    it is never the main file unless the sanitized name is [main]. *)
Theorem X19_branch_file_stays_in_script (b : string) :
  exists name : string,
    branch_file b = "script/" ++ name
    /\ name = "commit-history-" ++ sanitizeBranchName b ++ ".json"
    /\ Str.all (in_alphabet branch_alphabet) name = true
    /\ Str.all (fun c => negb (Ascii.eqb c "/"%char)) name = true
    /\ (branch_file b = MAIN_FILE <-> sanitizeBranchName b = "main").
Proof.
  exists ("commit-history-" ++ sanitizeBranchName b ++ ".json").
  assert (Hall : Str.all (in_alphabet branch_alphabet)
                   ("commit-history-" ++ sanitizeBranchName b ++ ".json") = true).
  { apply all_app_inv; [reflexivity|].
    apply all_app_inv; [apply sanitize_alphabet | reflexivity]. }
  split; [reflexivity|]. split; [reflexivity|]. split; [exact Hall|]. split.
  - revert Hall. apply all_weaken. intros c Hc.
    destruct (Ascii.eqb c "/"%char) eqn:Hs; [|reflexivity].
    apply Ascii.eqb_eq in Hs. subst c. discriminate Hc.
  - unfold branch_file, MAIN_FILE, path_join, HISTORY_DIR. split.
    + intros H.
      change ("script/commit-history-" ++ (sanitizeBranchName b ++ ".json")
              = "script/commit-history-" ++ ("main" ++ ".json")) in H.
      apply append_inj_l in H. apply (f_equal (Str.strip_suffix ".json")) in H.
      now rewrite !strip_suffix_app in H.
    + now intros ->.
Qed.

Lemma X19_branch_file_stays_in_script_witness :
  branch_file "../x" = "script/commit-history-.._x.json"
  /\ branch_file "main" = MAIN_FILE.
Proof.
  destruct (X19_branch_file_stays_in_script "main") as (name & _ & _ & _ & _ & Hmain).
  split; [reflexivity|]. apply Hmain. reflexivity.
Defined.

(** ** Runs that fail early, runs that are repeated *)

(** X20.  When [git rev-parse HEAD] fails, when what it prints does not
    pass the gate, or when the record cannot be built, the run ends with
    status 1 and no record is written: [BranchMain] leaves the files as
    they were; [Tracker] and [GlobalBranch] have by then created the global
    file as an empty array when it was absent and could be written, and
    leave the files as they were otherwise. *)
Theorem X20_failure_before_the_record
    (v : variant) (E : Engine) (W : World) (fs : store) :
  sh W "git rev-parse HEAD" = None
  \/ (exists h : string,
         sh W "git rev-parse HEAD" = Some h
         /\ (sha_gate h = false \/ getCommitInfo v E W fs h = None)) ->
  fst (run v E W fs) = 1%Z
  /\ (v = BranchMain \/ is_Some (fs !! DATA_FILE) -> snd (run v E W fs) = fs)
  /\ (v <> BranchMain -> fs !! DATA_FILE = None ->
      snd (run v E W fs)
      = if writable W DATA_FILE then <[DATA_FILE := Json (JArr [])]> fs else fs).
Proof.
  intros H.
  assert (Hrun : run v E W fs = (1%Z, fst (prepare v W fs))).
  { unfold run. rewrite script_unfold.
    pose proof (prepare_package v W fs) as Hpkg.
    destruct (prepare v W fs) as [fs0 [[]|err0]]; [|reflexivity]. cbn [fst] in *.
    destruct H as [-> | (h & -> & [-> | Hnone])]; [reflexivity | reflexivity |].
    destruct (sha_gate h); [|reflexivity].
    now rewrite (getCommitInfo_store E v W fs fs0 h Hpkg), Hnone. }
  rewrite Hrun. cbn [fst snd]. split; [reflexivity|]. split.
  - intros [-> | [c Hc]]; [reflexivity|].
    destruct v; cbn [prepare]; try reflexivity;
      now rewrite create_if_absent_unfold, Hc.
  - intros Hv Hnone.
    destruct v; [| congruence |]; cbn [prepare];
      rewrite create_if_absent_unfold, Hnone; destruct (writable W DATA_FILE); reflexivity.
Qed.

Lemma X20_failure_before_the_record_witness :
  run BranchMain iso_engine silent_world project = (1%Z, project)
  /\ snd (run Tracker iso_engine silent_world project)
     = <[DATA_FILE := Json (JArr [])]> project.
Proof.
  split.
  - destruct (X20_failure_before_the_record BranchMain iso_engine silent_world project
                (or_introl eq_refl)) as (H1 & H2 & _).
    rewrite (surjective_pairing (run BranchMain iso_engine silent_world project)).
    now rewrite H1, (H2 (or_introl eq_refl)).
  - apply (proj2 (proj2 (X20_failure_before_the_record Tracker iso_engine silent_world
                           project (or_introl eq_refl)))); [discriminate | reflexivity].
Defined.

Section Rerun.

Variable E : Engine.

(** What a run of [Tracker] that ends with status 0 has done. *)
Lemma run_Tracker_ok (W : World) (fs : store) :
  fst (run Tracker E W fs) = 0%Z ->
  exists (h : string) (e : entry) (l : list json),
    sh W "git rev-parse HEAD" = Some h
    /\ sha_gate h = true
    /\ getCommitInfo Tracker E W fs h = Some e
    /\ writable W DATA_FILE = true
    /\ sort E (loadHistory fs DATA_FILE ++ [entry_json e]) = Ok l
    /\ snd (run Tracker E W fs) = <[DATA_FILE := Json (JArr l)]> (fst (prepare Tracker W fs)).
Proof.
  unfold run. rewrite script_unfold.
  pose proof (prepare_package Tracker W fs) as Hpkg.
  pose proof (loadHistory_create W DATA_FILE DATA_FILE fs) as Hload.
  change (create_if_absent W DATA_FILE fs) with (prepare Tracker W fs) in Hload.
  destruct (prepare Tracker W fs) as [fs0 [[]|err0]]; [|discriminate]. cbn [fst] in *.
  destruct (sh W "git rev-parse HEAD") as [h|]; [|discriminate].
  destruct (sha_gate h) eqn:Hg; [|discriminate].
  destruct (getCommitInfo Tracker E W fs0 h) as [e|] eqn:He; [|discriminate].
  unfold persist, bind, lift.
  destruct (check_head e); [|discriminate].
  destruct (appendEntry E W DATA_FILE e fs0) as [fs1 [[]|err]] eqn:Ha; [|discriminate].
  intros _. destruct (appendEntry_ok E W DATA_FILE e fs0 fs1 Ha) as (l & Hs & Hw & ->).
  exists h, e, l. rewrite Hload in Hs.
  rewrite (getCommitInfo_store E Tracker W fs fs0 h Hpkg) in He.
  repeat split; solve [assumption | reflexivity].
Qed.

End Rerun.

(** X21.  The scripts do not look for the sha in the history: when a run
    of [Tracker] has ended with status 0, a second run for the same commit
    ends with status 0 as well, and the global file then holds the record
    twice, next to the records it held before. *)
Theorem X21_second_run_duplicates_the_record (E : Engine) (W : World) (fs : store) :
  fst (run Tracker E W fs) = 0%Z ->
  exists e : entry,
    getCommitInfo Tracker E W fs (sha e) = Some e
    /\ fst (run Tracker E W (snd (run Tracker E W fs))) = 0%Z
    /\ Permutation
         (loadHistory fs DATA_FILE ++ [entry_json e; entry_json e])
         (loadHistory (snd (run Tracker E W (snd (run Tracker E W fs)))) DATA_FILE).
Proof.
  intros H0.
  destruct (run_Tracker_ok E W fs H0) as (h & e & l & Hh & Hg & He & Hw & Hs & Hfs1).
  destruct (getCommitInfo_fields Tracker E W fs h e He) as (Hsha & _).
  exists e. rewrite Hsha. split; [exact He|].
  set (fs1 := snd (run Tracker E W fs)) in *.
  assert (Hl : loadHistory fs1 DATA_FILE = l).
  { rewrite Hfs1, loadHistory_insert. destruct (decide (DATA_FILE = DATA_FILE)); congruence. }
  assert (Hpkg : fs1 !! "package.json" = fs !! "package.json").
  { rewrite Hfs1, lookup_insert_ne by discriminate. apply prepare_package. }
  assert (Hprep : prepare Tracker W fs1 = (fs1, Ok tt)).
  { cbn [prepare]. rewrite create_if_absent_unfold, Hfs1, lookup_insert_eq. reflexivity. }
  assert (Hread : Forall readable (l ++ [entry_json e])).
  { apply Forall_app. split; [|repeat constructor; apply entry_readable].
    apply (Permutation_Forall (sort_perm E _ _ Hs)).
    destruct (loadHistory fs DATA_FILE) as [|x old] eqn:Hold.
    - repeat constructor. apply entry_readable.
    - apply (sort_ok_readable E _ l); [|exact Hs].
      rewrite List.length_app. cbn. lia. }
  destruct (sort_total E _ Hread) as [l' Hs'].
  assert (Hrun : run Tracker E W fs1 = (0%Z, <[DATA_FILE := Json (JArr l')]> fs1)).
  { rewrite (run_after_gate E Tracker W fs1 fs1 h e Hprep Hh Hg).
    - unfold persist, bind, lift.
      rewrite (built_entry_passes_head Tracker E W fs h e He Hg).
      now rewrite appendEntry_unfold, Hl, Hs', Hw.
    - now rewrite (getCommitInfo_store E Tracker W fs fs1 h Hpkg). }
  rewrite Hrun. cbn [fst snd]. split; [reflexivity|].
  rewrite loadHistory_insert. destruct (decide (DATA_FILE = DATA_FILE)); [|congruence].
  eapply perm_trans; [|exact (sort_perm E _ _ Hs')].
  change [entry_json e; entry_json e] with ([entry_json e] ++ [entry_json e])%list.
  rewrite List.app_assoc. apply Permutation_app_tail. exact (sort_perm E _ _ Hs).
Qed.

Lemma X21_second_run_duplicates_the_record_witness :
  exists e : entry,
    Permutation
      ([] ++ [entry_json e; entry_json e])
      (loadHistory
         (snd (run Tracker iso_engine (root_world Tracker "first commit" None)
                 (snd (run Tracker iso_engine (root_world Tracker "first commit" None) ∅))))
         DATA_FILE).
Proof.
  destruct (X21_second_run_duplicates_the_record iso_engine
              (root_world Tracker "first commit" None) ∅) as (e & _ & _ & Hp).
  - vm_compute. reflexivity.
  - exists e. exact Hp.
Defined.

(** ** The output of a command *)

Section Trim.

Lemma trim_end_spaces (w : string) :
  Str.all Str.is_space w = true -> trim_end w = EmptyString.
Proof.
  induction w as [|c w IH]; [reflexivity|]. sstep. intros H.
  apply andb_true_iff in H. destruct H as [Hc Hw].
  cbn [trim_end]. now rewrite (IH Hw), Hc.
Qed.

Lemma trim_end_nonempty (c : ascii) (s : string) :
  Str.is_space c = false -> Str.is_empty (trim_end (String c s)) = false.
Proof. intros Hc. cbn [trim_end]. now rewrite Hc. Qed.

(** A text without white space, between white space: the text is what
    [trim] returns. *)
Lemma trim_end_core (core w : string) :
  Str.all (fun c => negb (Str.is_space c)) core = true ->
  Str.all Str.is_space w = true ->
  trim_end (core ++ w) = core.
Proof.
  intros Hc Hw. induction core as [|c core IH].
  - rewrite append_nil. now apply trim_end_spaces.
  - rewrite append_cons. cbn [Str.all] in Hc. apply andb_true_iff in Hc.
    destruct Hc as [Hc Hcore]. apply negb_true_iff in Hc.
    cbn [trim_end]. now rewrite (IH Hcore), Hc.
Qed.

Lemma span_space_core (w core rest : string) :
  Str.all Str.is_space w = true ->
  Str.all (fun c => negb (Str.is_space c)) core = true ->
  Str.is_empty core = false ->
  Str.span Str.is_space (w ++ core ++ rest) = (w, core ++ rest).
Proof.
  intros Hw Hc Hne. apply span_app; [exact Hw|].
  destruct core as [|c core]; [discriminate|]. rewrite append_cons.
  cbn [Str.all] in Hc. apply andb_true_iff in Hc. destruct Hc as [Hc _].
  now apply negb_true_iff in Hc.
Qed.

Lemma trim_core (w1 core w2 : string) :
  Str.all Str.is_space w1 = true ->
  Str.all (fun c => negb (Str.is_space c)) core = true ->
  Str.all Str.is_space w2 = true ->
  trim (w1 ++ core ++ w2) = core.
Proof.
  intros H1 Hc H2. unfold trim. destruct (Str.is_empty core) eqn:Hne.
  - apply is_empty_true in Hne. subst core. rewrite append_nil.
    destruct (Str.span Str.is_space (w1 ++ w2)) as [a b] eqn:Hs.
    destruct (span_spec _ _ _ _ Hs) as (Hab & Ha & Hb). cbn [snd].
    apply trim_end_spaces.
    assert (Hall : Str.all Str.is_space (a ++ b) = true)
      by (rewrite <- Hab, all_app, H1, H2; reflexivity).
    rewrite all_app in Hall. now apply andb_true_iff in Hall.
  - rewrite (span_space_core w1 core w2 H1 Hc Hne). cbn [snd].
    now apply trim_end_core.
Qed.

Lemma hex_not_space (c : ascii) : Str.is_hex_i c = true -> negb (Str.is_space c) = true.
Proof. destruct c as [[] [] [] [] [] [] [] []]; (discriminate || reflexivity). Qed.

(** [trim_end] leaves no white space at the end. *)
Lemma trim_end_idem (s : string) : trim_end (trim_end s) = trim_end s.
Proof.
  induction s as [|c s IH]; [reflexivity|]. cbn [trim_end].
  destruct (Str.is_space c && Str.is_empty (trim_end s)) eqn:Hc; [reflexivity|].
  cbn [trim_end]. now rewrite IH, Hc.
Qed.

Lemma trim_end_head (s : string) :
  match s with EmptyString => True | String c _ => Str.is_space c = false end ->
  match trim_end s with EmptyString => True | String c _ => Str.is_space c = false end.
Proof.
  destruct s as [|c s]; [exact id|]. intros Hc. cbn [trim_end]. now rewrite Hc.
Qed.

Lemma span_head (p : ascii -> bool) (s : string) :
  match s with EmptyString => True | String c _ => p c = false end ->
  Str.span p s = (EmptyString, s).
Proof. destruct s as [|c s]; [reflexivity|]. intros Hc. cbn [Str.span]. now rewrite Hc. Qed.

Lemma trim_idem (s : string) : trim (trim s) = trim s.
Proof.
  unfold trim.
  destruct (Str.span Str.is_space s) as [a b] eqn:Hs.
  destruct (span_spec _ _ _ _ Hs) as (_ & _ & Hb). cbn [snd].
  rewrite (span_head _ _ (trim_end_head b Hb)). cbn [snd]. apply trim_end_idem.
Qed.

(** What [trim_end] removes is white space. *)
Lemma trim_end_split (s : string) :
  exists w : string, s = trim_end s ++ w /\ Str.all Str.is_space w = true.
Proof.
  induction s as [|c s (w & Hs & Hw)]; [exists EmptyString; split; reflexivity|].
  cbn [trim_end]. destruct (Str.is_space c && Str.is_empty (trim_end s)) eqn:Hc.
  - apply andb_true_iff in Hc. destruct Hc as [Hc He].
    apply is_empty_true in He. rewrite He, append_nil in Hs. subst s.
    exists (String c w). split; [reflexivity|]. sstep. now rewrite Hc.
  - exists w. split; [|exact Hw]. rewrite append_cons. now rewrite <- Hs.
Qed.

(** What [trim_end] returns does not end with white space. *)
Lemma trim_end_last (s body : string) (c : ascii) :
  trim_end s = body ++ String c EmptyString -> Str.is_space c = false.
Proof.
  revert body. induction s as [|a s IH]; intros body; cbn [trim_end].
  - destruct body; discriminate.
  - destruct (Str.is_space a && Str.is_empty (trim_end s)) eqn:Ha.
    + destruct body; discriminate.
    + destruct body as [|b body].
      * rewrite append_nil. intros [= -> Ht]. rewrite Ht in Ha. cbn [Str.is_empty] in Ha.
        now rewrite andb_true_r in Ha.
      * rewrite append_cons. intros [= _ Ht]. exact (IH body Ht).
Qed.

Lemma all_hex_no_space (h : string) :
  Str.all Str.is_hex_i h = true -> Str.all (fun c => negb (Str.is_space c)) h = true.
Proof. apply all_weaken. exact hex_not_space. Qed.

End Trim.

(** X22.  [sh] returns the output of the command without the white space
    at its two ends: the output is white space, what [sh] returns, white
    space; what [sh] returns neither starts nor ends with white space, and
    is the text itself when the output is a text without white space put
    between white space.  [git rev-parse HEAD] prints the sha and a line
    feed: with the line feed the gate refuses the sha, and through [sh] it
    sees the sha alone. *)
Theorem X22_sh_trims_the_output
    (execSync : string -> option string) (cmd out : string) :
  execSync cmd = Some out ->
  sh_of execSync cmd = Some (trim out)
  /\ (exists before after : string,
         out = before ++ trim out ++ after
         /\ Str.all Str.is_space before = true
         /\ Str.all Str.is_space after = true)
  /\ match trim out with EmptyString => True | String c _ => Str.is_space c = false end
  /\ (forall (body : string) (c : ascii),
         trim out = body ++ String c EmptyString -> Str.is_space c = false)
  /\ trim (trim out) = trim out
  /\ (forall before core after : string,
         out = before ++ core ++ after ->
         Str.all Str.is_space before = true ->
         Str.all (fun c => negb (Str.is_space c)) core = true ->
         Str.all Str.is_space after = true ->
         trim out = core)
  /\ (forall h : string,
         sha_gate h = true ->
         out = h ++ String (ascii_of_nat 10) EmptyString ->
         sha_gate out = false /\ sh_of execSync cmd = Some h).
Proof.
  intros Hexec.
  assert (Hsh : sh_of execSync cmd = Some (trim out))
    by (unfold sh_of; now rewrite Hexec).
  split; [exact Hsh|]. split; [|split; [|split; [|split; [apply trim_idem|split]]]].
  - unfold trim. destruct (Str.span Str.is_space out) as [a b] eqn:Hs.
    destruct (span_spec _ _ _ _ Hs) as (Hab & Ha & _). cbn [snd].
    destruct (trim_end_split b) as (w & Hb & Hw).
    exists a, w. rewrite <- Hb. auto.
  - unfold trim. destruct (Str.span Str.is_space out) as [a b] eqn:Hs.
    destruct (span_spec _ _ _ _ Hs) as (_ & _ & Hb). cbn [snd].
    now apply trim_end_head.
  - intros body c. unfold trim. apply trim_end_last.
  - intros before core after -> Hb Hc Ha. now apply trim_core.
  - intros h Hg ->. destruct (sha_gate_hex h Hg) as [Hhex _]. split.
    + unfold sha_gate. rewrite all_app. cbn. now rewrite !andb_false_r.
    + rewrite Hsh. f_equal.
      apply (trim_core EmptyString h (String (ascii_of_nat 10) EmptyString));
        [reflexivity | now apply all_hex_no_space | reflexivity].
Qed.

Lemma X22_sh_trims_the_output_witness :
  sh (exec_world (raw_rev_parse sample_sha) None) "git rev-parse HEAD" = Some sample_sha
  /\ sha_gate (sample_sha ++ String (ascii_of_nat 10) EmptyString) = false.
Proof.
  destruct (X22_sh_trims_the_output (raw_rev_parse sample_sha) "git rev-parse HEAD"
              (sample_sha ++ String (ascii_of_nat 10) EmptyString) eq_refl)
    as (_ & _ & _ & _ & _ & _ & Hgate).
  destruct (Hgate sample_sha eq_refl eq_refl) as [Hno Hsh].
  split; [exact Hsh | exact Hno].
Defined.

(** ** The coverage grows with the counters hit *)

Section Monotone.

Local Open Scope Q_scope.

(** A tie is rounded to an even integer. *)
Lemma half_even_tie (num den : Z) :
  (0 < den)%Z ->
  (2 * (half_even num den * den - num) = den
   \/ 2 * (half_even num den * den - num) = - den)%Z ->
  Z.even (half_even num den) = true.
Proof.
  intros Hd. unfold half_even.
  pose proof (Z.div_mod num den ltac:(lia)) as Hdm.
  pose proof (Z.mod_pos_bound num den Hd) as Hr.
  destruct (2 * (num mod den) ?= den)%Z eqn:Hc.
  - intros _. destruct (Z.even (num / den)) eqn:He; [exact He|].
    rewrite Z.even_add, He. reflexivity.
  - rewrite Z.compare_lt_iff in Hc. intros [H | H]; nia.
  - rewrite Z.compare_gt_iff in Hc. intros [H | H]; nia.
Qed.

Lemma nearest_even_tie (s : Q) :
  inject_Z (nearest_even s) - s == 1 # 2 \/ inject_Z (nearest_even s) - s == - (1 # 2) ->
  Z.even (nearest_even s) = true.
Proof.
  destruct s as [n d]. unfold nearest_even. cbn [Qnum Qden]. intros H.
  apply half_even_tie; [reflexivity|].
  set (h := half_even n (Z.pos d)) in *.
  destruct H as [H | H]; [left | right];
    unfold Qeq, Qminus, Qplus, Qopp, inject_Z in H; cbn [Qnum Qden] in H; lia.
Qed.

(** Rounding to the nearest integer keeps the order. *)
Lemma nearest_even_mono (s t : Q) : s <= t -> (nearest_even s <= nearest_even t)%Z.
Proof.
  intros Hst.
  pose proof (nearest_even_close s) as Hs. pose proof (nearest_even_close t) as Ht.
  apply Qabs_Qle_condition in Hs, Ht. destruct Hs as [Hs1 Hs2], Ht as [Ht1 Ht2].
  destruct (Z_le_gt_dec (nearest_even s) (nearest_even t)) as [Hle | Hgt]; [exact Hle|].
  exfalso.
  assert (Hge : inject_Z (nearest_even t) + 1 <= inject_Z (nearest_even s)).
  { change 1 with (inject_Z 1). rewrite <- inject_Z_plus, <- Zle_Qle. lia. }
  assert (H1 : inject_Z (nearest_even s) - s == 1 # 2) by lra.
  assert (H2 : inject_Z (nearest_even t) - t == - (1 # 2)) by lra.
  assert (Hle : inject_Z (nearest_even s) <= inject_Z (nearest_even t + 1)).
  { rewrite inject_Z_plus. change (inject_Z 1) with 1. lra. }
  rewrite <- Zle_Qle in Hle.
  assert (Heq : nearest_even s = (nearest_even t + 1)%Z) by lia.
  pose proof (nearest_even_tie s (or_introl H1)) as Es.
  pose proof (nearest_even_tie t (or_intror H2)) as Et.
  rewrite Heq, Z.even_add, Et in Es. discriminate.
Qed.

Lemma nearest_even_Z (n : Z) : nearest_even (inject_Z n) = n.
Proof.
  unfold nearest_even, half_even, inject_Z. cbn [Qnum Qden].
  rewrite Z.div_1_r, Z.mod_1_r. reflexivity.
Qed.

Lemma pow2_le_mono (a b : Z) : (a <= b)%Z -> pow2 a <= pow2 b.
Proof.
  intros Hab. replace b with (a + (b - a))%Z by lia. rewrite pow2_add.
  assert (H1 : 1 <= pow2 (b - a)).
  { rewrite pow2_Z by lia. change 1 with (inject_Z 1). rewrite <- Zle_Qle.
    pose proof (Z.pow_pos_nonneg 2 (b - a)). lia. }
  pose proof (pow2_pos a). nra.
Qed.

Lemma Qabs_pos_eq (q : Q) : 0 < q -> Qabs q = q.
Proof.
  destruct q as [n d]. unfold Qlt. cbn. intros H. unfold Qabs. f_equal. lia.
Qed.

Lemma fl_pos (q : Q) :
  0 < q ->
  fl q = inject_Z (nearest_even (q / pow2 (exponent q - 52))) * pow2 (exponent q - 52).
Proof.
  intros Hq. unfold fl.
  destruct (Qeq_bool q 0) eqn:Hz; [apply Qeq_bool_iff in Hz; lra|].
  now rewrite (Qabs_pos_eq q Hq).
Qed.

(** A positive number and its binary64 rounding lie between the same two
    powers of two. *)
Lemma fl_between (q : Q) :
  0 < q -> pow2 (exponent q) <= fl q /\ fl q <= pow2 (exponent q + 1).
Proof.
  intros Hq. rewrite (fl_pos q Hq).
  pose proof (exponent_le q Hq) as Hlo. pose proof (exponent_lt q Hq) as Hhi.
  set (e := (exponent q - 52)%Z). pose proof (pow2_pos e) as He.
  assert (H52 : pow2 (exponent q) == inject_Z (2 ^ 52) * pow2 e).
  { unfold e. rewrite <- (pow2_Z 52) by lia. rewrite <- pow2_add. f_equiv. lia. }
  assert (H53 : pow2 (exponent q + 1) == inject_Z (2 ^ 53) * pow2 e).
  { unfold e. rewrite <- (pow2_Z 53) by lia. rewrite <- pow2_add. f_equiv. lia. }
  assert (Hs1 : inject_Z (2 ^ 52) <= q / pow2 e).
  { apply Qle_shift_div_l; [exact He|]. now rewrite <- H52. }
  assert (Hs2 : q / pow2 e <= inject_Z (2 ^ 53)).
  { apply Qle_shift_div_r; [exact He|]. rewrite <- H53. lra. }
  apply nearest_even_mono in Hs1, Hs2. rewrite nearest_even_Z in Hs1, Hs2.
  rewrite Zle_Qle in Hs1, Hs2. rewrite H52, H53.
  split; apply Qmult_le_compat_r; lra.
Qed.

(** The binary64 rounding keeps the order. *)
Lemma fl_mono (x y : Q) : 0 <= x -> x <= y -> fl x <= fl y.
Proof.
  intros Hx Hxy.
  destruct (Qeq_bool x 0) eqn:Hz.
  - unfold fl at 1. rewrite Hz. destruct (fl_bounds y ltac:(lra)) as [Hlo _].
    unfold u53 in Hlo. lra.
  - assert (Hx0 : 0 < x).
    { destruct (Qlt_le_dec 0 x) as [H | H]; [exact H|].
      assert (Heq : x == 0) by lra. apply Qeq_bool_iff in Heq. congruence. }
    assert (Hy0 : 0 < y) by lra.
    pose proof (exponent_le x Hx0) as Hxl. pose proof (exponent_lt y Hy0) as Hyh.
    destruct (Z_lt_le_dec (exponent x) (exponent y)) as [Hlt | Hge].
    + destruct (fl_between x Hx0) as [_ Hfx]. destruct (fl_between y Hy0) as [Hfy _].
      pose proof (pow2_le_mono (exponent x + 1) (exponent y) ltac:(lia)). lra.
    + assert (Heq : exponent x = exponent y).
      { destruct (Z.eq_dec (exponent x) (exponent y)) as [H | H]; [exact H|].
        pose proof (pow2_le_mono (exponent y + 1) (exponent x) ltac:(lia)). lra. }
      rewrite (fl_pos x Hx0), (fl_pos y Hy0), Heq.
      set (e := (exponent y - 52)%Z). pose proof (pow2_pos e) as He.
      apply Qmult_le_compat_r; [|lra]. rewrite <- Zle_Qle.
      apply nearest_even_mono. apply Qmult_le_compat_r; [exact Hxy|].
      apply Qlt_le_weak, Qinv_lt_0_compat, He.
Qed.

Lemma fl_nonneg (x : Q) : 0 <= x -> 0 <= fl x.
Proof.
  intros Hx. destruct (fl_bounds x Hx) as [Hlo _]. unfold u53 in Hlo. lra.
Qed.

Lemma ratio_mono (c1 c2 t : nat) :
  (c1 <= c2)%nat -> (0 < t)%nat -> 0 <= ratio c1 t /\ ratio c1 t <= ratio c2 t.
Proof.
  intros Hc Ht. unfold ratio.
  assert (Hq : 0 < inject_Z (Z.of_nat t)).
  { change 0 with (inject_Z 0). rewrite <- Zlt_Qlt. lia. }
  assert (H0 : 0 <= inject_Z (Z.of_nat c1) / inject_Z (Z.of_nat t)).
  { apply Qle_shift_div_l; [exact Hq|]. rewrite Qmult_0_l.
    change 0 with (inject_Z 0). rewrite <- Zle_Qle. lia. }
  split; [now apply fl_nonneg|]. apply fl_mono; [exact H0|].
  apply Qmult_le_compat_r; [rewrite <- Zle_Qle; lia|].
  apply Qlt_le_weak, Qinv_lt_0_compat, Hq.
Qed.

Lemma hundredths_mono (v : variant) (c1 c2 t : nat) :
  (c1 <= c2)%nat -> (0 < t)%nat -> (hundredths v c1 t <= hundredths v c2 t)%Z.
Proof.
  intros Hc Ht. destruct (ratio_mono c1 c2 t Hc Ht) as [H0 Hr].
  set (r1 := ratio c1 t) in *. set (r2 := ratio c2 t) in *.
  change (inject_Z 100) with (100 # 1). change (inject_Z 10000) with (10000 # 1).
  destruct v; unfold hundredths, Math_round; fold r1 r2;
    change (inject_Z 100) with (100 # 1); change (inject_Z 10000) with (10000 # 1);
    apply Qfloor_resp_le.
  - assert (Ha : fl (r1 * (100 # 1)) <= fl (r2 * (100 # 1))) by (apply fl_mono; lra).
    pose proof (fl_nonneg (r1 * (100 # 1)) ltac:(lra)) as Hn.
    assert (Hb : fl (fl (r1 * (100 # 1)) * (100 # 1)) <= fl (fl (r2 * (100 # 1)) * (100 # 1)))
      by (apply fl_mono; lra).
    lra.
  - assert (Ha : fl (r1 * (10000 # 1)) <= fl (r2 * (10000 # 1))) by (apply fl_mono; lra).
    lra.
  - assert (Ha : fl (r1 * (100 # 1)) <= fl (r2 * (100 # 1))) by (apply fl_mono; lra).
    pose proof (fl_nonneg (r1 * (100 # 1)) ltac:(lra)) as Hn.
    assert (Hb : fl (fl (r1 * (100 # 1)) * (100 # 1)) <= fl (fl (r2 * (100 # 1)) * (100 # 1)))
      by (apply fl_mono; lra).
    lra.
Qed.

End Monotone.

(** X23.  With the same number of counters, hitting more of them never
    lowers the coverage: each binary64 operation and [Math.round] keep the
    order. *)
Theorem X23_coverage_grows_with_hits (v : variant) (c1 c2 t : nat) :
  (c1 <= c2)%nat -> (0 < t)%nat ->
  (hundredths v c1 t <= hundredths v c2 t)%Z
  /\ (coverage_pct v c1 t <= coverage_pct v c2 t)%Q.
Proof.
  intros Hc Ht. pose proof (hundredths_mono v c1 c2 t Hc Ht) as H.
  split; [exact H|]. unfold coverage_pct.
  apply Qmult_le_compat_r; [now rewrite <- Zle_Qle | discriminate].
Qed.

Lemma X23_coverage_grows_with_hits_witness :
  (coverage_pct Tracker 23 160 <= coverage_pct Tracker 24 160)%Q.
Proof.
  apply (X23_coverage_grows_with_hits Tracker 23 24 160); lia.
Defined.

(** ** A run of [GlobalBranch] that fails half way *)

(** X24.  The two writes of [GlobalBranch] are not one: when the append
    to the branch file fails (the file cannot be written, as when the
    branch name holds a [/] and the directory does not exist, or it holds a
    record without a date to read), the record is in the global file all
    the same, and the run ends with status 1. *)
Theorem X24_GlobalBranch_fails_after_the_global_write
    (E : Engine) (W : World) (e : entry) (fs : store) :
  Str.is_empty (branch e) = false ->
  branch e <> "HEAD" ->
  writable W DATA_FILE = true ->
  Forall readable (loadHistory fs DATA_FILE) ->
  writable W ("script/commit-history-" ++ branch e ++ ".json") = false
  \/ (exists u : json,
         In u (loadHistory fs ("script/commit-history-" ++ branch e ++ ".json"))
         /\ ~ readable u) ->
  exists (l : list json) (err : error),
    persist GlobalBranch E W e fs = (<[DATA_FILE := Json (JArr l)]> fs, Throw err)
    /\ Permutation (loadHistory fs DATA_FILE ++ [entry_json e]) l
    /\ (err = WriteFailed \/ err = TypeError)
    /\ (forall h : string,
           is_Some (fs !! DATA_FILE) ->
           sh W "git rev-parse HEAD" = Some h ->
           sha_gate h = true ->
           getCommitInfo GlobalBranch E W fs h = Some e ->
           run GlobalBranch E W fs = (1%Z, <[DATA_FILE := Json (JArr l)]> fs)).
Proof.
  intros Hne Hhead Hw Hr Hfail.
  assert (Hbf : "script/commit-history-" ++ branch e ++ ".json" <> DATA_FILE)
    by apply raw_branch_file_not_global.
  destruct (appendEntry_readable E W DATA_FILE e fs Hw Hr) as (l & Ha & Hp & _).
  assert (H2 : exists err,
             appendEntry E W ("script/commit-history-" ++ branch e ++ ".json") e
               (<[DATA_FILE := Json (JArr l)]> fs)
             = (<[DATA_FILE := Json (JArr l)]> fs, Throw err)
             /\ (err = WriteFailed \/ err = TypeError)).
  { destruct Hfail as [Hnw | (u & Hu & Hun)].
    - rewrite appendEntry_unfold, Hnw.
      destruct (sort E _) as [s|err] eqn:Hs; [eauto|].
      exists err. split; [reflexivity|]. right. exact (sort_error E _ _ Hs).
    - exists TypeError. split; [|now right].
      apply (appendEntry_unreadable E W _ e _ u); [|exact Hun].
      rewrite loadHistory_insert. destruct (decide (DATA_FILE = _)); [congruence | exact Hu]. }
  destruct H2 as (err & H2 & Herr).
  assert (Hpersist : persist GlobalBranch E W e fs
                     = (<[DATA_FILE := Json (JArr l)]> fs, Throw err)).
  { unfold persist, bind, when. apply String.eqb_neq in Hhead.
    rewrite Ha, Hne, Hhead. cbn [negb andb]. now rewrite H2. }
  exists l, err. split; [exact Hpersist|]. split; [exact Hp|]. split; [exact Herr|].
  intros h [c Hc] Hh Hg He.
  assert (Hprep : prepare GlobalBranch W fs = (fs, Ok tt))
    by (cbn [prepare]; now rewrite create_if_absent_unfold, Hc).
  now rewrite (run_after_gate E GlobalBranch W fs fs h e Hprep Hh Hg He), Hpersist.
Qed.

Lemma X24_GlobalBranch_fails_after_the_global_write_witness :
  exists (l : list json) (err : error),
    persist GlobalBranch iso_engine (no_subdir_world GlobalBranch)
      (sample_entry "feature/x-1") sorted_history
    = (<[DATA_FILE := Json (JArr l)]> sorted_history, Throw err).
Proof.
  destruct (X24_GlobalBranch_fails_after_the_global_write iso_engine
              (no_subdir_world GlobalBranch) (sample_entry "feature/x-1") sorted_history)
    as (l & err & Hp & _).
  - reflexivity.
  - discriminate.
  - reflexivity.
  - vm_compute. repeat constructor; eexists; reflexivity.
  - left. reflexivity.
  - exists l, err. exact Hp.
Defined.

(** ** Runs in which all is in order *)

Section InOrder.

Variable E : Engine.

Lemma appendEntry_all_readable (W : World) (p : string) (e : entry) (fs : store) :
  (forall q, Forall readable (loadHistory fs q)) ->
  forall q, Forall readable (loadHistory (fst (appendEntry E W p e fs)) q).
Proof.
  intros Hfs q. rewrite appendEntry_unfold.
  destruct (sort E _) as [l|] eqn:Hs; [|apply Hfs].
  destruct (writable W p); [|apply Hfs]. cbn [fst].
  rewrite loadHistory_insert. destruct (decide (p = q)); [|apply Hfs].
  apply (Permutation_Forall (sort_perm E _ _ Hs)).
  apply Forall_app. split; [apply Hfs | repeat constructor; apply entry_readable].
Qed.

Lemma persist_in_order (v : variant) (W : World) (e : entry) (fs : store) :
  (forall p, history_path p = true -> writable W p = true) ->
  (forall p, Forall readable (loadHistory fs p)) ->
  check_head e = Ok tt ->
  (v = BranchMain -> Str.is_empty (branch e) = false) ->
  snd (persist v E W e fs) = Ok tt.
Proof.
  intros Hw Hr Hc Hb. destruct v.
  - unfold persist, bind, lift. rewrite Hc.
    destruct (appendEntry_readable E W DATA_FILE e fs (Hw DATA_FILE eq_refl) (Hr _)) as (l & -> & _).
    reflexivity.
  - assert (Hv : validateEntry e = Ok tt)
      by (unfold validateEntry; rewrite Hc; cbn [rbind]; now rewrite (Hb eq_refl)).
    destruct (persist_BranchMain_valid E W e fs Hv (Hw _ (branch_file_history _)) (Hr _))
      as (fs' & l & -> & _).
    reflexivity.
  - unfold persist, bind, when.
    destruct (appendEntry_readable E W DATA_FILE e fs (Hw DATA_FILE eq_refl) (Hr _)) as (l & Ha & _).
    pose proof (appendEntry_all_readable W DATA_FILE e fs Hr) as Hr1.
    rewrite Ha in *. cbn [fst] in Hr1.
    destruct (negb (Str.is_empty (branch e)) && negb (String.eqb (branch e) "HEAD"));
      [|reflexivity].
    destruct (appendEntry_readable E W ("script/commit-history-" ++ branch e ++ ".json") e _
                (Hw _ (raw_branch_file_history _)) (Hr1 _)) as (l2 & -> & _).
    reflexivity.
Qed.

End InOrder.

(** X25.  When all is in order the run ends with status 0: [git rev-parse
    HEAD] prints a sha that passes the gate, the three [git log] commands
    answer, the history files can be written, every element of the
    histories has a [commit.date] to read and, for [BranchMain], the branch
    has a name.  The histories are then again made of such elements, so
    that the next run finds all in order too. *)
Theorem X25_run_succeeds_when_all_is_in_order
    (v : variant) (E : Engine) (W : World) (fs : store) (h : string) :
  sh W "git rev-parse HEAD" = Some h ->
  sha_gate h = true ->
  is_Some (sh W ("git log -1 --pretty=%B " ++ h)) ->
  is_Some (sh W ("git log -1 --pretty=%cI " ++ h)) ->
  is_Some (sh W ("git log -1 --pretty=%an " ++ h)) ->
  (forall p : string, history_path p = true -> writable W p = true) ->
  (forall p : string, Forall readable (loadHistory fs p)) ->
  (v = BranchMain ->
   exists b : string,
     sh W "git rev-parse --abbrev-ref HEAD" = Some b /\ Str.is_empty b = false) ->
  fst (run v E W fs) = 0%Z
  /\ forall p : string, Forall readable (loadHistory (snd (run v E W fs)) p).
Proof.
  intros Hh Hg [m Hm] [d Hd] [a Ha] Hw Hr Hb.
  split.
  - unfold run. rewrite script_unfold.
    assert (Hprep : exists fs0, prepare v W fs = (fs0, Ok tt)
                                /\ forall p, loadHistory fs0 p = loadHistory fs p).
    { destruct v; cbn [prepare]; try (exists fs; split; reflexivity);
        rewrite (create_if_absent_writable W DATA_FILE fs (Hw DATA_FILE eq_refl));
        eexists; (split; [reflexivity|]); intros p;
        pose proof (loadHistory_create W DATA_FILE p fs) as Hl;
        rewrite (create_if_absent_writable W DATA_FILE fs (Hw DATA_FILE eq_refl)) in Hl;
        exact Hl. }
    destruct Hprep as (fs0 & -> & Hl0). rewrite Hh, Hg.
    destruct (getCommitInfo_built v E W fs0 h m d a Hm Hd Ha) as [e He]. rewrite He.
    assert (Hok : snd (persist v E W e fs0) = Ok tt).
    { apply persist_in_order.
      - exact Hw.
      - intros p. rewrite Hl0. apply Hr.
      - exact (built_entry_passes_head v E W fs0 h e He Hg).
      - intros Hv. destruct (Hb Hv) as (b & Hbr & Hne).
        destruct (getCommitInfo_fields v E W fs0 h e He)
          as (_ & _ & _ & _ & _ & _ & _ & _ & _ & Hbe).
        now rewrite Hbe, Hbr. }
    destruct (persist v E W e fs0) as [fs1 r]. cbn [snd] in Hok. now rewrite Hok.
  - set (R := fun s1 s2 : store =>
                (forall p, Forall readable (loadHistory s1 p)) ->
                forall p, Forall readable (loadHistory s2 p)).
    assert (Hrefl : forall s, R s s) by (intros s H; exact H).
    assert (Htrans : forall s1 s2 s3, R s1 s2 -> R s2 s3 -> R s1 s3)
      by (intros s1 s2 s3 H12 H23 H; apply H23, H12, H).
    assert (Happ : forall W p e s, history_path p = true -> R s (fst (appendEntry E W p e s)))
      by (intros W' p e s _ H; now apply appendEntry_all_readable).
    assert (Hcre : forall W p s, history_path p = true -> R s (fst (create_if_absent W p s)))
      by (intros W' p s _ H q; rewrite loadHistory_create; apply H).
    exact (run_preserves E R Hrefl Htrans Happ Hcre v W fs Hr).
Qed.

Lemma X25_run_succeeds_when_all_is_in_order_witness :
  fst (run BranchMain iso_engine (root_world BranchMain "first commit" None) sorted_history)
  = 0%Z.
Proof.
  refine (proj1 (X25_run_succeeds_when_all_is_in_order BranchMain iso_engine
                   (root_world BranchMain "first commit" None) sorted_history sample_sha
                   eq_refl eq_refl _ _ _ _ _ _)).
  - eexists; reflexivity.
  - eexists; reflexivity.
  - eexists; reflexivity.
  - reflexivity.
  - intros p. unfold loadHistory, sorted_history.
    destruct (decide (DATA_FILE = p)) as [<-|Hne].
    + rewrite lookup_singleton_eq. cbn [JSON_parse].
      repeat constructor; eexists; reflexivity.
    + rewrite lookup_singleton_ne by exact Hne. constructor.
  - intros _. exists "feature/x-1". split; reflexivity.
Defined.

(** ** Runs that cannot write *)

Section ReadOnly.

Variables (E : Engine) (W : World).

Hypothesis read_only : forall p : string, history_path p = true -> writable W p = false.

Lemma appendEntry_read_only (p : string) (e : entry) (fs : store) :
  history_path p = true -> exists err, appendEntry E W p e fs = (fs, Throw err).
Proof.
  intros Hp. rewrite appendEntry_unfold, (read_only p Hp).
  destruct (sort E _); eauto.
Qed.

Lemma create_if_absent_read_only (p : string) (fs : store) :
  history_path p = true -> fst (create_if_absent W p fs) = fs.
Proof.
  intros Hp. rewrite create_if_absent_unfold, (read_only p Hp).
  destruct (fs !! p); reflexivity.
Qed.

Lemma persist_read_only (v : variant) (e : entry) (fs : store) :
  exists err, persist v E W e fs = (fs, Throw err).
Proof.
  destruct v; unfold persist, bind, lift.
  - destruct (check_head e); [|eauto].
    destruct (appendEntry_read_only DATA_FILE e fs eq_refl) as [err ->]. eauto.
  - destruct (validateEntry e); [|eauto].
    pose proof (create_if_absent_read_only (branch_file (branch e)) fs
                  (branch_file_history _)) as Hc.
    destruct (create_if_absent W (branch_file (branch e)) fs) as [fs0 [[]|err0]];
      cbn [fst] in Hc; subst fs0; [|eauto].
    destruct (appendEntry_read_only (branch_file (branch e)) e fs (branch_file_history _))
      as [err ->].
    eauto.
  - destruct (appendEntry_read_only DATA_FILE e fs eq_refl) as [err ->]. eauto.
Qed.

End ReadOnly.

(** X26.  A run that cannot write never reports success: when none of
    the history files can be written, the run of any of the three scripts
    ends with status 1, whatever git and the tests answer and whatever the
    files hold, and the history files are as they were. *)
Theorem X26_run_that_cannot_write_fails
    (v : variant) (E : Engine) (W : World) (fs : store) :
  (forall p : string, history_path p = true -> writable W p = false) ->
  fst (run v E W fs) = 1%Z
  /\ forall p : string, history_path p = true -> snd (run v E W fs) !! p = fs !! p.
Proof.
  intros Hro.
  assert (H : run v E W fs = (1%Z, fs)).
  { unfold run. rewrite script_unfold.
    assert (Hprep : fst (prepare v W fs) = fs).
    { destruct v; cbn [prepare]; try reflexivity;
        now apply create_if_absent_read_only. }
    destruct (prepare v W fs) as [fs0 [[]|err0]]; cbn [fst] in Hprep; subst fs0;
      [|reflexivity].
    destruct (sh W "git rev-parse HEAD") as [h|]; [|reflexivity].
    destruct (sha_gate h); [|reflexivity].
    destruct (getCommitInfo v E W fs h) as [e|]; [|reflexivity].
    destruct (persist_read_only E W Hro v e fs) as [err ->]. reflexivity. }
  rewrite H. split; [reflexivity | intros p _; reflexivity].
Qed.

Lemma X26_run_that_cannot_write_fails_witness :
  fst (run BranchMain iso_engine (read_only_world BranchMain) sorted_history) = 1%Z.
Proof.
  apply X26_run_that_cannot_write_fails. reflexivity.
Defined.
